(** * Bill / receipt reconciliation: controllers/migrationController.js

    A shallow embedding of the four request handlers of the migration
    controller (createMissingReceipts, fixZeroAmountReceipts,
    fixSpecificBillReceipt, getReceiptAuditReport) together with the part of
    the mongoose storage interface they call, followed by the properties of
    the reconciliation engine.

    Modelling choices.
    - Money amounts are integers (minor units); the handlers only compare
      amounts ([> 0], [<= 0], [!==]) and copy them.
    - A collection is the list of its documents in natural order.  A session
      transaction works on a private copy of both collections, which
      [commitTransaction] publishes and [abortTransaction] discards.
    - Every awaited storage call inside a handler is a point where the
      storage layer may fail: the [faults] schedule gives, for the n-th
      storage call, either [None] (the call goes through) or the message of
      the error it throws.
    - [uuidv4] and the ObjectId minted by [new Receipt] are oracles indexed by
      the number of identifiers minted so far.
    - The calls that may fail are the queries, the writes and
      [commitTransaction]; a failing call has no effect on the collections.
      [startTransaction] and [endSession] do not fail.
    - The repair handlers are modelled from the point where
      [mongoose.startSession()] has returned the session; that call stands
      before the [try] block, and its failure, which leaves the handler
      before any storage call is issued, is not part of the model.
    - [abortTransaction] is the driver's: it ends a transaction in progress
      and ignores the errors of the abort command, but it throws once
      [commitTransaction] has been called on the session, also when that
      call failed.  A handler that throws sends no answer: its outcome is
      [Throw], where an answer is [Ok] of a response. *)

From Stdlib Require Import ZArith List String Ascii Lia.
From stdpp Require Import gmap strings list fin_maps pretty.

Open Scope string_scope.
Open Scope list_scope.
Open Scope nat_scope.

(** ** Documents *)

Definition ObjectId := N.

Module Payment.
(** Modelled from the spec: the [payment] sub-document of a bill
    (models/billingModel.js is not among the sources); the fields are
    those of section 3, all of which the controller reads. *)
Record t := mk {
  paid : Z;
  type : string;
  cardNumber : option string;
  utrNumber : option string;
}.
End Payment.

Module Bill.
(** Modelled from the spec: the Bill schema (models/billingModel.js is not
    among the sources); the fields are those of section 3 together with
    the [_id] the controller copies into [billingId]. *)
Record t := mk {
  _id : ObjectId;
  billNumber : string;
  payment : Payment.t;
  status : string;
  date : Z;
  createdBy : ObjectId;
}.
End Bill.

Module PaymentMethod.
(** Modelled from the spec: the [paymentMethod] sub-document of a receipt
    (models/receiptModel.js is not among the sources), with the three
    fields the controller writes. *)
Record t := mk {
  type : string;
  cardNumber : string;
  utrNumber : string;
}.
End PaymentMethod.

Module Receipt.
(** Modelled from the spec: the Receipt schema (models/receiptModel.js is
    not among the sources); the fields are those of section 3, which are
    the ones the controller writes when it builds a receipt. *)
Record t := mk {
  _id : ObjectId;
  receiptNumber : string;
  billNumber : string;
  billingId : ObjectId;
  type : string;
  amount : Z;
  paymentMethod : PaymentMethod.t;
  newStatus : string;
  remarks : string;
  createdBy : ObjectId;
  date : Z;
}.

(** The update document [{ amount: a }] applied to one receipt. *)
Definition set_amount (a : Z) (r : t) : t :=
  mk (_id r) (receiptNumber r) (billNumber r) (billingId r) (type r) a
     (paymentMethod r) (newStatus r) (remarks r) (createdBy r) (date r).
End Receipt.

(** ** Response bodies *)

Record FixedReceipt := {
  fx_receiptNumber : string;
  fx_billNumber : string;
  fx_oldAmount : Z;
  fx_newAmount : Z;
  fx_type : string;
}.

Record FixedBillReceipt := {
  fb_receiptNumber : string;
  fb_oldAmount : Z;
  fb_newAmount : Z;
}.

Record BillWithoutReceipt := {
  bw_billNumber : string;
  bw_paidAmount : Z;
  bw_status : string;
  bw_date : Z;
}.

Record ZeroAmountEntry := {
  za_receiptNumber : string;
  za_billNumber : string;
  za_receiptAmount : Z;
  za_expectedAmount : Z;
  za_type : string;
}.

Record DuplicateEntry := {
  du_billNumber : string;
  du_duplicateType : string;
  du_count : nat;
  du_receipts : list string;
}.

Record OrphanEntry := {
  or_receiptNumber : string;
  or_billNumber : string;
  or_amount : Z;
  or_type : string;
}.

Record Report := {
  totalBills : nat;
  totalReceipts : nat;
  billsWithoutReceipts : list BillWithoutReceipt;
  zeroAmountReceipts : list ZeroAmountEntry;
  duplicateReceipts : list DuplicateEntry;
  orphanedReceipts : list OrphanEntry;
}.

Inductive Body :=
| CreatedBody (message : string) (createdCount totalBillsChecked : nat)
              (success : bool)
| FixedBody (message : string) (fixedReceipts : list FixedReceipt)
            (totalChecked : nat) (success : bool)
| FixedBillBody (message billNumber : string)
                (fixedReceipts : list FixedBillReceipt) (success : bool)
| ReportBody (message : string) (report : Report) (success : bool)
| NotFoundBody (message : string) (success : bool)
| ErrorBody (message error : string) (success : bool).

(** [res.status(code).json(body)] *)
Record Response := json { status : nat; body : Body }.

(** ** Storage and the world a handler runs in *)

Record Store := { bills : list Bill.t; receipts : list Receipt.t }.

Inductive WriteReq :=
| Inserted (r : Receipt.t)
| AmountSet (id : ObjectId) (a : Z).

Record World := {
  db : Store;            (* completed collections *)
  txn : option Store;    (* working copy of the open session transaction *)
  ops : nat;             (* storage calls issued so far *)
  minted : nat;          (* identifiers drawn from the oracles so far *)
  writes : list WriteReq;  (* write requests issued to storage, oldest first *)
  console : list string; (* console.log / console.error lines *)
  commit_call : option nat; (* number of the last call to commitTransaction *)
}.

Definition view (w : World) : Store := default (db w) (txn w).

Definition source (session : bool) (w : World) : Store :=
  if session then view w else db w.

Definition put (s : Store) (w : World) : World :=
  match txn w with
  | Some _ => {| db := db w; txn := Some s; ops := ops w; minted := minted w;
                 writes := writes w; console := console w;
     commit_call := commit_call w |}
  | None => {| db := s; txn := None; ops := ops w; minted := minted w;
               writes := writes w; console := console w;
     commit_call := commit_call w |}
  end.

Definition tick (w : World) : World :=
  {| db := db w; txn := txn w; ops := S (ops w); minted := minted w;
     writes := writes w; console := console w;
     commit_call := commit_call w |}.

Definition mint (w : World) : World :=
  {| db := db w; txn := txn w; ops := ops w; minted := S (minted w);
     writes := writes w; console := console w;
     commit_call := commit_call w |}.

Definition record_write (e : WriteReq) (w : World) : World :=
  {| db := db w; txn := txn w; ops := ops w; minted := minted w;
     writes := writes w ++ [e]; console := console w;
     commit_call := commit_call w |}.

Definition console_log (line : string) (w : World) : World :=
  {| db := db w; txn := txn w; ops := ops w; minted := minted w;
     writes := writes w; console := console w ++ [line];
     commit_call := commit_call w |}.

Definition set_txn (t : option Store) (w : World) : World :=
  {| db := db w; txn := t; ops := ops w; minted := minted w;
     writes := writes w; console := console w;
     commit_call := commit_call w |}.

Definition mark_commit (k : nat) (w : World) : World :=
  {| db := db w; txn := txn w; ops := ops w; minted := minted w;
     writes := writes w; console := console w; commit_call := Some k |}.

Definition set_db (s : Store) (w : World) : World :=
  {| db := s; txn := txn w; ops := ops w; minted := minted w;
     writes := writes w; console := console w;
     commit_call := commit_call w |}.

(** ** The handler monad: state plus thrown errors *)

Inductive Outcome (A : Type) :=
| Ok (a : A)
| Throw (msg : string).
Arguments Ok {A} a.
Arguments Throw {A} msg.

Definition M (A : Type) : Type := World → Outcome A * World.

Definition ret {A} (a : A) : M A := λ w, (Ok a, w).

Definition bind {A B} (m : M A) (f : A → M B) : M B :=
  λ w, match m w with
       | (Ok a, w') => f a w'
       | (Throw e, w') => (Throw e, w')
       end.

Declare Scope handler_scope.
Delimit Scope handler_scope with handler.
Notation "'let*' x := m 'in' k" := (bind m (λ x, k))
  (at level 10, x name, m at level 100, k at level 200) : handler_scope.
Notation "m ;;; k" := (bind m (λ _, k))
  (at level 100, k at level 200, right associativity) : handler_scope.
Open Scope handler_scope.

(** A step that cannot throw. *)
Definition effect (f : World → World) : M unit := λ w, (Ok tt, f w).

(** [try { body } catch (error) { handler } finally { fin }] *)
Definition try_catch_finally {A} (body : M A) (handler : string → M A)
    (fin : World → World) : M A :=
  λ w, match body w with
       | (Ok a, w1) => (Ok a, fin w1)
       | (Throw e, w1) => let (r, w2) := handler e w1 in (r, fin w2)
       end.

(** [try { body } catch (error) { handler }] *)
Definition try_catch {A} (body : M A) (handler : string → M A) : M A :=
  try_catch_finally body handler id.

(** [for (const x of xs) { acc = body x acc }]: the loops of the handlers
    push onto one array; [continue] returns the array as it is. *)
Fixpoint for_of {A S} (xs : list A) (body : A → S → M S) (acc : S) : M S :=
  match xs with
  | [] => ret acc
  | x :: rest => let* acc' := body x acc in for_of rest body acc'
  end.

(** ** JavaScript string helpers *)

(** [s.slice(-n)] *)
Definition slice_last (n : nat) (s : string) : string :=
  let len := String.length s in
  substring (len - n) (len - (len - n)) s.

Definition upper_ascii (c : ascii) : ascii :=
  let n := nat_of_ascii c in
  if (97 <=? n)%nat && (n <=? 122)%nat then ascii_of_nat (n - 32) else c.

Fixpoint toUpperCase (s : string) : string :=
  match s with
  | EmptyString => EmptyString
  | String c rest => String (upper_ascii c) (toUpperCase rest)
  end.

(** [x || ""] on an optional string *)
Definition or_empty (o : option string) : string := default "" o.

Definition update_amount (id : ObjectId) (a : Z) :=
  fix go (rs : list Receipt.t) : list Receipt.t :=
    match rs with
    | [] => []
    | r :: rest =>
        if decide (Receipt._id r = id) then Receipt.set_amount a r :: rest
        else r :: go rest
    end.

(** ** The synchronous part of the audit report *)

(** [receiptsByBillNumber]: the [forEach] that groups the receipts in a
    [Map] from bill number to the array of receipts carrying it. *)
Definition index_receipts (allReceipts : list Receipt.t)
    : gmap string (list Receipt.t) :=
  fold_left
    (λ (m : gmap string (list Receipt.t)) receipt,
       let k := Receipt.billNumber receipt in
       let m := if bool_decide (is_Some (m !! k)) then m else <[k := []]> m in
       alter (λ l, l ++ [receipt]) k m)
    allReceipts ∅.

Definition push_billsWithoutReceipts (e : BillWithoutReceipt) (r : Report) :=
  {| totalBills := totalBills r; totalReceipts := totalReceipts r;
     billsWithoutReceipts := billsWithoutReceipts r ++ [e];
     zeroAmountReceipts := zeroAmountReceipts r;
     duplicateReceipts := duplicateReceipts r;
     orphanedReceipts := orphanedReceipts r |}.

Definition push_zeroAmountReceipts (e : ZeroAmountEntry) (r : Report) :=
  {| totalBills := totalBills r; totalReceipts := totalReceipts r;
     billsWithoutReceipts := billsWithoutReceipts r;
     zeroAmountReceipts := zeroAmountReceipts r ++ [e];
     duplicateReceipts := duplicateReceipts r;
     orphanedReceipts := orphanedReceipts r |}.

Definition push_duplicateReceipts (e : DuplicateEntry) (r : Report) :=
  {| totalBills := totalBills r; totalReceipts := totalReceipts r;
     billsWithoutReceipts := billsWithoutReceipts r;
     zeroAmountReceipts := zeroAmountReceipts r;
     duplicateReceipts := duplicateReceipts r ++ [e];
     orphanedReceipts := orphanedReceipts r |}.

Definition push_orphanedReceipts (e : OrphanEntry) (r : Report) :=
  {| totalBills := totalBills r; totalReceipts := totalReceipts r;
     billsWithoutReceipts := billsWithoutReceipts r;
     zeroAmountReceipts := zeroAmountReceipts r;
     duplicateReceipts := duplicateReceipts r;
     orphanedReceipts := orphanedReceipts r ++ [e] |}.

(** The inner [receipts.forEach] of the per-bill check. *)
Definition audit_zero (bill : Bill.t) (report : Report) (receipt : Receipt.t)
    : Report :=
  if bool_decide (Receipt.amount receipt ≤ 0)%Z
     && bool_decide (0 < Payment.paid (Bill.payment bill))%Z
  then push_zeroAmountReceipts
         {| za_receiptNumber := Receipt.receiptNumber receipt;
            za_billNumber := Bill.billNumber bill;
            za_receiptAmount := Receipt.amount receipt;
            za_expectedAmount := Payment.paid (Bill.payment bill);
            za_type := Receipt.type receipt |} report
  else report.

(** The body of [for (const bill of allBills)]. *)
Definition audit_bill (receiptsByBillNumber : gmap string (list Receipt.t))
    (report : Report) (bill : Bill.t) : Report :=
  let receipts := default [] (receiptsByBillNumber !! Bill.billNumber bill) in
  let report :=
    if bool_decide (length receipts = 0)
       && bool_decide (0 < Payment.paid (Bill.payment bill))%Z
    then push_billsWithoutReceipts
           {| bw_billNumber := Bill.billNumber bill;
              bw_paidAmount := Payment.paid (Bill.payment bill);
              bw_status := Bill.status bill;
              bw_date := Bill.date bill |} report
    else report in
  let report := fold_left (audit_zero bill) receipts report in
  let creationReceipts :=
    filter (λ r, Receipt.type r = "creation") receipts in
  if bool_decide (1 < length creationReceipts)
  then push_duplicateReceipts
         {| du_billNumber := Bill.billNumber bill;
            du_duplicateType := "creation";
            du_count := length creationReceipts;
            du_receipts := Receipt.receiptNumber <$> creationReceipts |} report
  else report.

(** The body of the final [allReceipts.forEach]. *)
Definition audit_orphan (billNumbers : gset string) (report : Report)
    (receipt : Receipt.t) : Report :=
  if negb (bool_decide (Receipt.billNumber receipt ∈ billNumbers))
  then push_orphanedReceipts
         {| or_receiptNumber := Receipt.receiptNumber receipt;
            or_billNumber := Receipt.billNumber receipt;
            or_amount := Receipt.amount receipt;
            or_type := Receipt.type receipt |} report
  else report.

(** Everything [getReceiptAuditReport] does between reading the two
    collections and answering: the report is filled in by the loop over the
    bills and then by the loop over the receipts. *)
Definition audit (allBills : list Bill.t) (allReceipts : list Receipt.t)
    : Report :=
  let receiptsByBillNumber := index_receipts allReceipts in
  let report :=
    {| totalBills := length allBills;
       totalReceipts := length allReceipts;
       billsWithoutReceipts := [];
       zeroAmountReceipts := [];
       duplicateReceipts := [];
       orphanedReceipts := [] |} in
  let report := fold_left (audit_bill receiptsByBillNumber) allBills report in
  let billNumbers : gset string :=
    list_to_set (Bill.billNumber <$> allBills) in
  fold_left (audit_orphan billNumbers) allReceipts report.

(** ** The storage interface and the handlers *)

(** The message of the error [abortTransaction] throws after a commit
    attempt. *)
Definition abort_after_commit : string :=
  "Cannot call abortTransaction after calling commitTransaction".

Section Handlers.

(** The environment: the fault schedule of the storage layer and the two
    identifier oracles. *)
Variable faults : nat → option string.
Variable uuidv4 : nat → string.
Variable newObjectId : nat → ObjectId.

(** One awaited storage call: it throws when the schedule says so and
    otherwise runs [f]; either way the call is counted. *)
Definition storage {A} (f : World → A * World) : M A :=
  λ w, match faults (ops w) with
       | Some e => (Throw e, tick w)
       | None => let (a, w') := f (tick w) in (Ok a, w')
       end.

(** [Billing.find(q)]; [session] tells whether the query is chained with
    [.session(session)] and so reads inside the open transaction. *)
Definition Billing_find (session : bool) (q : Bill.t → Prop)
    `{!∀ b, Decision (q b)} : M (list Bill.t) :=
  storage (λ w, (filter q (bills (source session w)), w)).

(** [Receipt.find(q)] *)
Definition Receipt_find (session : bool) (q : Receipt.t → Prop)
    `{!∀ r, Decision (q r)} : M (list Receipt.t) :=
  storage (λ w, (filter q (receipts (source session w)), w)).

(** [Billing.findById(id)] *)
Definition Billing_findById (id : ObjectId) : M (option Bill.t) :=
  storage (λ w,
    (List.find (λ b, bool_decide (Bill._id b = id)) (bills (view w)), w)).

(** [Billing.findOne(q)] *)
Definition Billing_findOne (q : Bill.t → bool) : M (option Bill.t) :=
  storage (λ w, (List.find q (bills (view w)), w)).

(** [receipt.save()] of a new document *)
Definition Receipt_save (r : Receipt.t) : M unit :=
  storage (λ w,
    let s := view w in
    (tt, record_write (Inserted r)
           (put {| bills := bills s; receipts := receipts s ++ [r] |} w))).

(** [Receipt.findByIdAndUpdate(id, { amount: a })] *)
Definition Receipt_findByIdAndUpdate (id : ObjectId) (a : Z) : M unit :=
  storage (λ w,
    let s := view w in
    (tt, record_write (AmountSet id a)
           (put {| bills := bills s;
                   receipts := update_amount id a (receipts s) |} w))).

(** [session.startTransaction()] on the session [mongoose.startSession()]
    returned *)
Definition startTransaction : M unit :=
  effect (λ w, set_txn (Some (db w)) w).

(** [session.commitTransaction()]: the transaction leaves the state "in
    progress" as soon as the call is made; the working copy is published
    only if the call goes through. *)
Definition commitTransaction : M unit :=
  λ w, let w1 := mark_commit (ops w) (tick w) in
       match faults (ops w) with
       | Some e => (Throw e, set_txn None w1)
       | None => (Ok tt, set_txn None (set_db (view w1) w1))
       end.

(** [session.abortTransaction()]: outside a transaction in progress the
    driver throws; the handlers call it in that state only after a commit
    attempt, where the message is [abort_after_commit]. *)
Definition abortTransaction : M unit :=
  λ w, match txn w with
       | Some _ => (Ok tt, set_txn None w)
       | None => (Throw abort_after_commit, w)
       end.

Definition endSession : World → World := set_txn None.

Definition log (line : string) : M unit := effect (console_log line).

Definition generateReceiptNumber : M string :=
  λ w, let uniqueId := toUpperCase (slice_last 8 (uuidv4 (minted w))) in
       (Ok ("REC" +:+ uniqueId), mint w).

(** [new Receipt(receiptData)]: mongoose assigns the [_id]. *)
Definition new_Receipt (receiptData : ObjectId → Receipt.t) : M Receipt.t :=
  λ w, (Ok (receiptData (newObjectId (minted w))), mint w).

Definition createMissingReceipts : M Response :=
  startTransaction ;;;
  try_catch_finally
    (let* allBills := Billing_find true (λ _, True) in
     let* existingReceipts := Receipt_find true (λ _, True) in
     let existingBillNumbers : gset string :=
       list_to_set (Receipt.billNumber <$> existingReceipts) in
     let billsWithoutReceipts :=
       filter (λ bill, Bill.billNumber bill ∉ existingBillNumbers) allBills in
     log ("Found " +:+ pretty (length billsWithoutReceipts)
            +:+ " bills without receipts") ;;;
     let* createdReceipts :=
       for_of billsWithoutReceipts (λ bill createdReceipts,
         if bool_decide (0 < Payment.paid (Bill.payment bill))%Z then
           let* receiptNumber := generateReceiptNumber in
           let receiptData := λ oid,
             {| Receipt._id := oid;
                Receipt.receiptNumber := receiptNumber;
                Receipt.billNumber := Bill.billNumber bill;
                Receipt.billingId := Bill._id bill;
                Receipt.type := "creation";
                Receipt.amount := Payment.paid (Bill.payment bill);
                Receipt.paymentMethod :=
                  {| PaymentMethod.type := Payment.type (Bill.payment bill);
                     PaymentMethod.cardNumber :=
                       or_empty (Payment.cardNumber (Bill.payment bill));
                     PaymentMethod.utrNumber :=
                       or_empty (Payment.utrNumber (Bill.payment bill)) |};
                Receipt.newStatus := Bill.status bill;
                Receipt.remarks := "Receipt created during migration";
                Receipt.createdBy := Bill.createdBy bill;
                Receipt.date := Bill.date bill |} in
           let* receipt := new_Receipt receiptData in
           Receipt_save receipt ;;;
           ret (createdReceipts ++ [receipt])
         else ret createdReceipts) [] in
     commitTransaction ;;;
     ret (json 200 (CreatedBody
            ("Successfully created " +:+ pretty (length createdReceipts)
               +:+ " missing receipts")
            (length createdReceipts) (length allBills) true)))
    (λ error,
       abortTransaction ;;;
       log ("Migration error: " +:+ error) ;;;
       ret (json 500 (ErrorBody "Error creating missing receipts" error false)))
    endSession.

Definition fixZeroAmountReceipts : M Response :=
  startTransaction ;;;
  try_catch_finally
    (let* zeroAmountReceipts :=
       Receipt_find true (λ r, Receipt.amount r ≤ 0)%Z in
     log ("Found " +:+ pretty (length zeroAmountReceipts)
            +:+ " receipts with zero or negative amounts") ;;;
     let* fixedReceipts :=
       for_of zeroAmountReceipts (λ receipt fixedReceipts,
         let* billing := Billing_findById (Receipt.billingId receipt) in
         match billing with
         | None =>
             log ("No billing found for receipt "
                    +:+ Receipt.receiptNumber receipt) ;;;
             ret fixedReceipts
         | Some billing =>
             let after correctAmount :=
               if bool_decide (0 < correctAmount)%Z
                  && negb (bool_decide (correctAmount = Receipt.amount receipt))
               then
                 Receipt_findByIdAndUpdate (Receipt._id receipt) correctAmount ;;;
                 log ("Fixed receipt " +:+ Receipt.receiptNumber receipt
                        +:+ ": " +:+ pretty (Receipt.amount receipt)
                        +:+ " â†’ " +:+ pretty correctAmount) ;;;
                 ret (fixedReceipts ++
                        [{| fx_receiptNumber := Receipt.receiptNumber receipt;
                            fx_billNumber := Receipt.billNumber receipt;
                            fx_oldAmount := Receipt.amount receipt;
                            fx_newAmount := correctAmount;
                            fx_type := Receipt.type receipt |}])
               else ret fixedReceipts in
             if bool_decide (Receipt.type receipt = "creation") then
               after (Payment.paid (Bill.payment billing))
             else if bool_decide (Receipt.type receipt = "payment") then
               log ("Payment receipt " +:+ Receipt.receiptNumber receipt
                      +:+ " needs manual review") ;;;
               ret fixedReceipts
             else if bool_decide (Receipt.type receipt = "cancellation") then
               after (Payment.paid (Bill.payment billing))
             else after 0%Z
         end) [] in
     commitTransaction ;;;
     ret (json 200 (FixedBody
            ("Successfully fixed " +:+ pretty (length fixedReceipts)
               +:+ " receipts")
            fixedReceipts (length zeroAmountReceipts) true)))
    (λ error,
       abortTransaction ;;;
       log ("Fix error: " +:+ error) ;;;
       ret (json 500 (ErrorBody "Error fixing zero amount receipts" error false)))
    endSession.

Definition fixSpecificBillReceipt (billNumber : string) : M Response :=
  startTransaction ;;;
  try_catch_finally
    (let* billing :=
       Billing_findOne (λ b, bool_decide (Bill.billNumber b = billNumber)) in
     match billing with
     | None =>
         abortTransaction ;;;
         ret (json 404 (NotFoundBody
                ("Bill " +:+ billNumber +:+ " not found") false))
     | Some billing =>
         let* receipts :=
           Receipt_find true (λ r, Receipt.billNumber r = billNumber) in
         let* fixedReceipts :=
           for_of receipts (λ receipt fixedReceipts,
             let correctAmount :=
               if bool_decide (Receipt.type receipt = "creation") then
                 Payment.paid (Bill.payment billing)
               else if bool_decide (Receipt.type receipt = "cancellation") then
                 Payment.paid (Bill.payment billing)
               else 0%Z in
             if bool_decide (0 < correctAmount)%Z
                && negb (bool_decide (correctAmount = Receipt.amount receipt))
             then
               Receipt_findByIdAndUpdate (Receipt._id receipt) correctAmount ;;;
               ret (fixedReceipts ++
                      [{| fb_receiptNumber := Receipt.receiptNumber receipt;
                          fb_oldAmount := Receipt.amount receipt;
                          fb_newAmount := correctAmount |}])
             else ret fixedReceipts) [] in
         commitTransaction ;;;
         ret (json 200 (FixedBillBody
                ("Fixed " +:+ pretty (length fixedReceipts)
                   +:+ " receipts for bill " +:+ billNumber)
                billNumber fixedReceipts true))
     end)
    (λ error,
       abortTransaction ;;;
       ret (json 500 (ErrorBody
              ("Error fixing receipts for bill " +:+ billNumber) error false)))
    endSession.

Definition getReceiptAuditReport : M Response :=
try_catch
  (let* allBills := Billing_find false (λ _, True) in
   let* allReceipts := Receipt_find false (λ _, True) in
   let report := audit allBills allReceipts in
   ret (json 200 (ReportBody
          "Receipt audit report generated successfully" report true)))
  (λ error,
     log ("Audit report error: " +:+ error) ;;;
     ret (json 500 (ErrorBody "Error generating audit report" error false))).

End Handlers.

(** ** Closed forms of what the handlers compute *)

Section Model.

Variable uuidv4 : nat → string.
Variable newObjectId : nat → ObjectId.

(** The receipt [createMissingReceipts] builds for [bill] when [c]
    identifiers have been minted before. *)
Definition creation_receipt (c : nat) (bill : Bill.t) : Receipt.t :=
  {| Receipt._id := newObjectId (S c);
     Receipt.receiptNumber :=
       "REC" +:+ toUpperCase (slice_last 8 (uuidv4 c));
     Receipt.billNumber := Bill.billNumber bill;
     Receipt.billingId := Bill._id bill;
     Receipt.type := "creation";
     Receipt.amount := Payment.paid (Bill.payment bill);
     Receipt.paymentMethod :=
       {| PaymentMethod.type := Payment.type (Bill.payment bill);
          PaymentMethod.cardNumber :=
            or_empty (Payment.cardNumber (Bill.payment bill));
          PaymentMethod.utrNumber :=
            or_empty (Payment.utrNumber (Bill.payment bill)) |};
     Receipt.newStatus := Bill.status bill;
     Receipt.remarks := "Receipt created during migration";
     Receipt.createdBy := Bill.createdBy bill;
     Receipt.date := Bill.date bill |}.

Definition synthesize_step (c0 : nat) (created : list Receipt.t)
    (bill : Bill.t) : list Receipt.t :=
  if bool_decide (0 < Payment.paid (Bill.payment bill))%Z
  then created ++ [creation_receipt (c0 + 2 * length created) bill]
  else created.

(** The receipts created by one pass over [bs], in creation order. *)
Definition synthesize (c0 : nat) (bs : list Bill.t) : list Receipt.t :=
  fold_left (synthesize_step c0) bs [].

End Model.

(** The bills no receipt refers to by bill number. *)
Definition unreceipted (s : Store) : list Bill.t :=
  filter
    (λ bill, Bill.billNumber bill ∉
               (list_to_set (Receipt.billNumber <$> receipts s) : gset string))
    (bills s).

(** The guard of both fix loops: [correctAmount > 0 && correctAmount !==
    receipt.amount]. *)
Definition applicable (correctAmount : Z) (receipt : Receipt.t) : option Z :=
  if bool_decide (0 < correctAmount)%Z
     && negb (bool_decide (correctAmount = Receipt.amount receipt))
  then Some correctAmount else None.

(** [correctAmount] as [fixZeroAmountReceipts] computes it; [None] when the
    iteration is left by [continue]. *)
Definition correctAmount_zero (bs : list Bill.t) (receipt : Receipt.t)
    : option Z :=
  match List.find (λ b, bool_decide (Bill._id b = Receipt.billingId receipt)) bs with
  | None => None
  | Some billing =>
      if bool_decide (Receipt.type receipt = "creation")
      then Some (Payment.paid (Bill.payment billing))
      else if bool_decide (Receipt.type receipt = "payment") then None
      else if bool_decide (Receipt.type receipt = "cancellation")
      then Some (Payment.paid (Bill.payment billing))
      else Some 0%Z
  end.

(** [correctAmount] as [fixSpecificBillReceipt] computes it. *)
Definition correctAmount_bill (billing : Bill.t) (receipt : Receipt.t) : Z :=
  if bool_decide (Receipt.type receipt = "creation")
  then Payment.paid (Bill.payment billing)
  else if bool_decide (Receipt.type receipt = "cancellation")
  then Payment.paid (Bill.payment billing)
  else 0%Z.

(** The amount a fix loop writes for a receipt, if it writes one. *)
Definition correction_zero (bs : list Bill.t) (receipt : Receipt.t)
    : option Z :=
  c ← correctAmount_zero bs receipt; applicable c receipt.

Definition correction_bill (billing : Bill.t) (receipt : Receipt.t)
    : option Z :=
  applicable (correctAmount_bill billing receipt) receipt.

(** The receipts collection after the updates of one fix loop over [todo]. *)
Definition apply_corrections (corr : Receipt.t → option Z)
    (todo rs : list Receipt.t) : list Receipt.t :=
  fold_left
    (λ rs receipt,
       match corr receipt with
       | Some a => update_amount (Receipt._id receipt) a rs
       | None => rs
       end)
    todo rs.

Definition fix_receipt (corr : Receipt.t → option Z) (r : Receipt.t)
    : Receipt.t :=
  match corr r with
  | Some a => Receipt.set_amount a r
  | None => r
  end.

Definition fixed_entry (receipt : Receipt.t) (a : Z) : FixedReceipt :=
  {| fx_receiptNumber := Receipt.receiptNumber receipt;
     fx_billNumber := Receipt.billNumber receipt;
     fx_oldAmount := Receipt.amount receipt;
     fx_newAmount := a;
     fx_type := Receipt.type receipt |}.

Definition fixed_bill_entry (receipt : Receipt.t) (a : Z) : FixedBillReceipt :=
  {| fb_receiptNumber := Receipt.receiptNumber receipt;
     fb_oldAmount := Receipt.amount receipt;
     fb_newAmount := a |}.

(** The write requests each kind of pass may issue. *)
Definition insert_only (e : WriteReq) : Prop :=
  match e with Inserted _ => True | AmountSet _ _ => False end.

Definition positive_amount_only (e : WriteReq) : Prop :=
  match e with Inserted _ => False | AmountSet _ a => (0 < a)%Z end.

Definition read_only (e : WriteReq) : Prop := False.

(** ** A weakest-precondition calculus for handlers *)

Definition wp {A} (m : M A) (Q : A → World → Prop) (E : string → World → Prop)
    (w : World) : Prop :=
  match m w with
  | (Ok a, w') => Q a w'
  | (Throw e, w') => E e w'
  end.

(** No storage call numbered [n ≤ k < m] fails. *)
Definition quiet (faults : nat → option string) (n m : nat) : Prop :=
  ∀ k, n ≤ k < m → faults k = None.

(** The [k]-th call is the first of the calls from [n] on to fail, with
    message [e], and it is the last call issued in [w]. *)
Definition first_fault (faults : nat → option string) (n : nat) (e : string)
    (w : World) : Prop :=
  ∃ k, ops w = S k ∧ n ≤ k ∧ faults k = Some e ∧ quiet faults n k.

(** The write requests issued since [w0] all satisfy [ok]. *)
Definition issued (ok : WriteReq → Prop) (w0 w : World) : Prop :=
  ∃ l, writes w = writes w0 ++ l ∧ Forall ok l.

(** A handler entered in [w0] is still running: nothing is completed and
    no call has failed. *)
Definition steady (faults : nat → option string) (ok : WriteReq → Prop)
    (w0 w : World) : Prop :=
  db w = db w0 ∧ ops w0 ≤ ops w ∧ quiet faults (ops w0) (ops w) ∧ issued ok w0 w.

(** ... with working copy [s] and [c] identifiers minted, and it has not
    called commitTransaction. *)
Definition running (faults : nat → option string) (ok : WriteReq → Prop)
    (w0 : World) (s : Store) (c : nat) (w : World) : Prop :=
  steady faults ok w0 w ∧ txn w = Some s ∧ minted w = c ∧
  commit_call w = commit_call w0.

(** A storage call has thrown [e]. *)
Definition failed (faults : nat → option string) (ok : WriteReq → Prop)
    (w0 : World) (e : string) (w : World) : Prop :=
  db w = db w0 ∧ first_fault faults (ops w0) e w ∧ issued ok w0 w.

(** The handler entered in [w0] ran to its end with no failing call; the
    committed store is [s] and the transaction is closed. *)
Definition completed (faults : nat → option string) (ok : WriteReq → Prop)
    (w0 : World) (s : Store) (w : World) : Prop :=
  db w = s ∧ txn w = None ∧ ops w0 ≤ ops w ∧
  quiet faults (ops w0) (ops w) ∧ issued ok w0 w.

(** The handler entered in [w0] rolled back after the failure [e]. *)
Definition aborted (faults : nat → option string) (ok : WriteReq → Prop)
    (w0 : World) (e : string) (w : World) : Prop :=
  db w = db w0 ∧ txn w = None ∧ first_fault faults (ops w0) e w ∧
  issued ok w0 w.

(** The last storage call issued in [w] is a call to commitTransaction. *)
Definition commit_attempted (w : World) : Prop :=
  ∃ k, ops w = S k ∧ commit_call w = Some k.

(** A call has thrown [e] inside the try block: either a query or a write,
    and the transaction is still in progress, or commitTransaction. *)
Definition failed_txn (faults : nat → option string) (ok : WriteReq → Prop)
    (w0 : World) (e : string) (w : World) : Prop :=
  failed faults ok w0 e w ∧
  ((is_Some (txn w) ∧ commit_call w = commit_call w0)
   ∨ (txn w = None ∧ commit_attempted w)).

(** The handler entered in [w] does not answer: its commitTransaction call
    failed and the error abortTransaction throws in the catch block leaves
    the handler; nothing is committed. *)
Definition rejected_by_commit (faults : nat → option string) (w : World)
    (out : Outcome Response) (w' : World) : Prop :=
  out = Throw abort_after_commit ∧ db w' = db w ∧
  ∃ k e, ops w ≤ k ∧ ops w' = S k ∧ commit_call w' = Some k ∧
         faults k = Some e.

(** The handler answers, unless its commitTransaction call failed. *)
Definition answers_unless_commit_fails (faults : nat → option string)
    (w : World) (out : Outcome Response) (w' : World) : Prop :=
  (∃ resp, out = Ok resp) ∨ rejected_by_commit faults w out w'.

(** ** Vocabulary of the statements *)

(** [r] is the receipt [createMissingReceipts] synthesizes for [bill]. *)
Definition created_for (bill : Bill.t) (r : Receipt.t) : Prop :=
  Receipt.type r = "creation" ∧
  Receipt.amount r = Payment.paid (Bill.payment bill) ∧
  Receipt.billNumber r = Bill.billNumber bill ∧
  Receipt.billingId r = Bill._id bill ∧
  Receipt.paymentMethod r =
    {| PaymentMethod.type := Payment.type (Bill.payment bill);
       PaymentMethod.cardNumber :=
         or_empty (Payment.cardNumber (Bill.payment bill));
       PaymentMethod.utrNumber :=
         or_empty (Payment.utrNumber (Bill.payment bill)) |} ∧
  Receipt.newStatus r = Bill.status bill ∧
  Receipt.date r = Bill.date bill.

(** A correction rule restricted to the receipts a query selects. *)
Definition guarded (q : Receipt.t → Prop) `{!∀ r, Decision (q r)}
    (corr : Receipt.t → option Z) (r : Receipt.t) : option Z :=
  if decide (q r) then corr r else None.

(** The fixed list of a response as (receiptNumber, oldAmount, newAmount)
    records; both fix handlers report these three fields. *)
Definition fixed_records (resp : Response) : list (string * Z * Z) :=
  match body resp with
  | FixedBody _ fixedReceipts _ _ =>
      (λ e, (fx_receiptNumber e, fx_oldAmount e, fx_newAmount e))
        <$> fixedReceipts
  | FixedBillBody _ _ fixedReceipts _ =>
      (λ e, (fb_receiptNumber e, fb_oldAmount e, fb_newAmount e))
        <$> fixedReceipts
  | _ => []
  end.

(** The receipt numbers a response reports as fixed. *)
Definition fixed_numbers (resp : Response) : list string :=
  (λ e, e.1.1) <$> fixed_records resp.

(** What a handler reports as fixed: the list of its answer, and nothing
    when it does not answer. *)
Definition reported_records (out : Outcome Response) : list (string * Z * Z) :=
  match out with
  | Ok resp => fixed_records resp
  | Throw _ => []
  end.

Definition reported_numbers (out : Outcome Response) : list string :=
  (λ e, e.1.1) <$> reported_records out.

Definition fixed_record (corr : Receipt.t → option Z) (r : Receipt.t)
    : option (string * Z * Z) :=
  (λ a, (Receipt.receiptNumber r, Receipt.amount r, a)) <$> corr r.

(** What a fix pass that applied the corrections [corr] leaves behind:
    the bills as they were, every receipt in place with at most its amount
    rewritten, and one record per rewritten receipt reported. *)
Definition fix_result (corr : Receipt.t → option Z) (w w' : World)
    (out : Outcome Response) : Prop :=
  bills (db w') = bills (db w) ∧
  receipts (db w') = fix_receipt corr <$> receipts (db w) ∧
  reported_records out = omap (fixed_record corr) (receipts (db w)).

(** The collection respects the uniqueness of [_id] and [receiptNumber]. *)
Definition unique_receipts (rs : list Receipt.t) : Prop :=
  NoDup (Receipt._id <$> rs) ∧ NoDup (Receipt.receiptNumber <$> rs).

(** The entries the audit report pushes. *)
Definition missing_entry (bill : Bill.t) : BillWithoutReceipt :=
  {| bw_billNumber := Bill.billNumber bill;
     bw_paidAmount := Payment.paid (Bill.payment bill);
     bw_status := Bill.status bill;
     bw_date := Bill.date bill |}.

Definition zero_entry (bill : Bill.t) (receipt : Receipt.t) : ZeroAmountEntry :=
  {| za_receiptNumber := Receipt.receiptNumber receipt;
     za_billNumber := Bill.billNumber bill;
     za_receiptAmount := Receipt.amount receipt;
     za_expectedAmount := Payment.paid (Bill.payment bill);
     za_type := Receipt.type receipt |}.

(** ** Sample ledgers *)

Definition no_faults : nat → option string := λ _, None.

Definition sample_uuid (n : nat) : string :=
  "9b1deb4d-3b7d-4bad-9bdd-2b0d7b3dcb" +:+ pretty n.

Definition sample_oid (n : nat) : ObjectId := (1000 + N.of_nat n)%N.

Definition ledger (bs : list Bill.t) (rs : list Receipt.t) : World :=
  {| db := {| bills := bs; receipts := rs |}; txn := None; ops := 0;
     minted := 0; writes := []; console := []; commit_call := None |}.

Definition sample_bill (id : ObjectId) (number : string) (paid : Z) : Bill.t :=
  {| Bill._id := id; Bill.billNumber := number;
     Bill.payment :=
       {| Payment.paid := paid; Payment.type := "cash";
          Payment.cardNumber := None; Payment.utrNumber := None |};
     Bill.status := "paid"; Bill.date := 1700000000; Bill.createdBy := 7%N |}.

Definition sample_receipt (id : ObjectId) (number billNumber : string)
    (billingId : ObjectId) (type : string) (amount : Z) : Receipt.t :=
  {| Receipt._id := id; Receipt.receiptNumber := number;
     Receipt.billNumber := billNumber; Receipt.billingId := billingId;
     Receipt.type := type; Receipt.amount := amount;
     Receipt.paymentMethod :=
       {| PaymentMethod.type := "cash"; PaymentMethod.cardNumber := "";
          PaymentMethod.utrNumber := "" |};
     Receipt.newStatus := "paid"; Receipt.remarks := "";
     Receipt.createdBy := 7%N; Receipt.date := 1700000000 |}.

Definition B0 := sample_bill 3%N "B0" 0.
Definition B1 := sample_bill 1%N "B1" 500.
Definition B2 := sample_bill 2%N "B2" 300.

(** A second bill that carries the number of B2. *)
Definition B2b := sample_bill 6%N "B2" 250.

(** R1 and R2 are the receipts of the scenarios; P1 is a payment receipt
    of B1; R3 carries a positive but wrong amount; R4 carries the number of
    B2 and the identity of no bill; R5 refers to no bill at all; R6 belongs
    to the unpaid bill B0; R11 is a second creation receipt of B2 with
    amount 0. *)
Definition R1 := sample_receipt 11%N "REC0000000A" "B2" 2%N "creation" 0.
Definition R2 := sample_receipt 12%N "REC0000000B" "B2" 2%N "payment" 0.
Definition P1 := sample_receipt 13%N "REC0000000C" "B1" 1%N "payment" 500.
Definition R3 := sample_receipt 14%N "REC0000000D" "B2" 2%N "creation" 100.
Definition R4 := sample_receipt 15%N "REC0000000E" "B2" 99%N "creation" 0.
Definition R5 := sample_receipt 16%N "REC0000000F" "B9" 98%N "creation" 0.
Definition R6 := sample_receipt 17%N "REC00000010" "B0" 3%N "creation" 0.
Definition R11 := sample_receipt 21%N "REC00000014" "B2" 2%N "creation" 0.

(** The schedule in which exactly the [n]-th storage call fails. *)
Definition fail_at (n : nat) (msg : string) : nat → option string :=
  λ k, if decide (k = n) then Some msg else None.

(** A first creation pass over the ledger that holds B1 only. *)
Definition first_pass : Outcome Response * World :=
  createMissingReceipts no_faults sample_uuid sample_oid (ledger [B1] []).

Definition first_pass_response : Response :=
  match first_pass.1 with
  | Ok resp => resp
  | Throw e => json 500 (ErrorBody "" e false)
  end.


(** ** Vocabulary of the further properties *)

(** The receipts of a collection that carry the number of [bill]. *)
Definition receipts_of (rs : list Receipt.t) (bill : Bill.t) : list Receipt.t :=
  filter (λ r, Receipt.billNumber r = Bill.billNumber bill) rs.

(** The creation receipts among them. *)
Definition creations_of (rs : list Receipt.t) (bill : Bill.t)
    : list Receipt.t :=
  filter (λ r, Receipt.type r = "creation") (receipts_of rs bill).

(** The entry the audit report pushes for a bill with several creation
    receipts. *)
Definition duplicate_entry (rs : list Receipt.t) (bill : Bill.t)
    : DuplicateEntry :=
  {| du_billNumber := Bill.billNumber bill;
     du_duplicateType := "creation";
     du_count := length (creations_of rs bill);
     du_receipts := Receipt.receiptNumber <$> creations_of rs bill |}.

(** The entry the audit report pushes for a receipt without a bill. *)
Definition orphan_entry (receipt : Receipt.t) : OrphanEntry :=
  {| or_receiptNumber := Receipt.receiptNumber receipt;
     or_billNumber := Receipt.billNumber receipt;
     or_amount := Receipt.amount receipt;
     or_type := Receipt.type receipt |}.

(** A character that [toUpperCase] would change. *)
Definition lower_case (c : ascii) : Prop :=
  97 ≤ nat_of_ascii c ≤ 122.

Fixpoint chars (s : string) : list ascii :=
  match s with
  | EmptyString => []
  | String c rest => c :: chars rest
  end.

(** The strings on which the character-wise helpers above are JavaScript's
    [slice] and [toUpperCase]; the uuids of the [uuid] package are such
    strings. *)
Definition ascii_only (s : string) : Prop :=
  Forall (λ c, nat_of_ascii c < 128) (chars s).

(** Bill B3 with the creation receipts R7 and R8, and a creation receipt
    R9 of B1. *)
Definition B3 := sample_bill 4%N "B3" 200.
Definition R7 := sample_receipt 18%N "REC00000011" "B3" 4%N "creation" 200.
Definition R8 := sample_receipt 19%N "REC00000012" "B3" 4%N "creation" 200.
Definition R9 := sample_receipt 20%N "REC00000013" "B1" 1%N "creation" 500.

(** A first pass of each fix handler over the ledger of the scenarios. *)
Definition fix_pass : Outcome Response * World :=
  fixZeroAmountReceipts no_faults (ledger [B1; B2] [R2; R1]).

Definition fix_bill_pass : Outcome Response * World :=
  fixSpecificBillReceipt no_faults "B2" (ledger [B1; B2] [R2; R3]).

Definition response_of (out : Outcome Response * World) : Response :=
  match out.1 with
  | Ok resp => resp
  | Throw e => json 500 (ErrorBody "" e false)
  end.

(** * Properties *)

(** ** Rules of the calculus *)

Lemma wp_ret {A} (a : A) Q E w : Q a w → wp (ret a) Q E w.
Proof. done. Qed.

Lemma wp_bind {A B} (m : M A) (f : A → M B) Q E w :
  wp m (λ a w', wp (f a) Q E w') E w → wp (bind m f) Q E w.
Proof. unfold wp, bind. by destruct (m w) as [[a|e] w']. Qed.

Lemma wp_effect (f : World → World) Q E w : Q tt (f w) → wp (effect f) Q E w.
Proof. done. Qed.

Lemma wp_mono {A} (m : M A) (Q Q' : A → World → Prop) E w :
  wp m Q E w → (∀ a w', Q a w' → Q' a w') → wp m Q' E w.
Proof. unfold wp. destruct (m w) as [[a|e] w']; auto. Qed.

(** The loop rule: [I done acc] holds when the elements [done] have been
    processed and the accumulator is [acc]. *)
Lemma wp_for_of {A S} (I : list A → S → World → Prop) (xs : list A)
    (body : A → S → M S) (acc : S) Q E w :
  I [] acc w →
  (∀ pre x post acc w,
     xs = pre ++ x :: post → I pre acc w →
     wp (body x acc) (I (pre ++ [x])) E w) →
  (∀ acc w, I xs acc w → Q acc w) →
  wp (for_of xs body acc) Q E w.
Proof.
  intros Hinit Hstep Hexit.
  assert (∀ rest pre acc w, xs = pre ++ rest → I pre acc w →
            wp (for_of rest body acc) Q E w) as Hgen.
  { clear Hinit acc w. induction rest as [|x rest IH]; intros pre acc w Hxs HI.
    - rewrite app_nil_r in Hxs. subst pre. by apply Hexit.
    - simpl. apply wp_bind. eapply wp_mono; [by eapply Hstep|].
      intros acc' w' HI'. apply (IH (pre ++ [x])); [|done].
      by rewrite <-app_assoc. }
  by apply (Hgen xs []).
Qed.

Section Calculus.

Variable faults : nat → option string.
Variable ok : WriteReq → Prop.
Variable w0 : World.

Local Abbreviation steady := (steady faults ok w0).
Local Abbreviation running := (running faults ok w0).
Local Abbreviation failed := (failed faults ok w0).
Local Abbreviation failed_txn := (failed_txn faults ok w0).

Lemma steady_entry : steady w0.
Proof.
  repeat split; [lia | intros k ?; lia |].
  exists []. by rewrite app_nil_r.
Qed.

Lemma steady_tick w : steady w → faults (ops w) = None → steady (tick w).
Proof.
  intros (Hdb & Hops & Hq & Hw) Hnone. repeat split; simpl; [done | lia | | done].
  intros k Hk. destruct (decide (k = ops w)) as [->|]; [done|].
  apply Hq. simpl in Hk. lia.
Qed.

Lemma steady_fault w e : steady w → faults (ops w) = Some e → failed e (tick w).
Proof.
  intros (Hdb & Hops & Hq & Hw) Hsome. repeat split; [done | | done].
  exists (ops w). done.
Qed.

Lemma wp_storage {A} (f : World → A * World) Q w :
  steady w →
  (steady (tick w) → Q (f (tick w)).1 (f (tick w)).2) →
  wp (storage faults f) Q failed w.
Proof.
  intros Hs HQ. unfold wp, storage.
  destruct (faults (ops w)) as [e|] eqn:Hf.
  - by apply steady_fault.
  - specialize (HQ (steady_tick _ Hs Hf)). by destruct (f (tick w)).
Qed.

(** The same inside the transaction the handler opened. *)
Lemma wp_storage_txn {A} (f : World → A * World) Q w :
  steady w → is_Some (txn w) → commit_call w = commit_call w0 →
  (steady (tick w) → Q (f (tick w)).1 (f (tick w)).2) →
  wp (storage faults f) Q failed_txn w.
Proof.
  intros Hs Ht Hc HQ. unfold wp, storage.
  destruct (faults (ops w)) as [e|] eqn:Hf.
  - split; [by apply steady_fault | by left].
  - specialize (HQ (steady_tick _ Hs Hf)). by destruct (f (tick w)).
Qed.

Lemma wp_Billing_find (q : Bill.t → Prop) `{!∀ b, Decision (q b)} Q s c w :
  running s c w →
  (∀ w', running s c w' → Q (filter q (bills s)) w') →
  wp (Billing_find faults true q) Q failed_txn w.
Proof.
  intros (Hs & Ht & Hm & Hc) HQ.
  apply wp_storage_txn; [done|by eexists|done|]. intros Hs'.
  unfold source, view. simpl. rewrite Ht. simpl. by apply HQ.
Qed.

Lemma wp_Receipt_find (q : Receipt.t → Prop) `{!∀ r, Decision (q r)} Q s c w :
  running s c w →
  (∀ w', running s c w' → Q (filter q (receipts s)) w') →
  wp (Receipt_find faults true q) Q failed_txn w.
Proof.
  intros (Hs & Ht & Hm & Hc) HQ.
  apply wp_storage_txn; [done|by eexists|done|]. intros Hs'.
  unfold source, view. simpl. rewrite Ht. simpl. by apply HQ.
Qed.

Lemma wp_Billing_findById id Q s c w :
  running s c w →
  (∀ w', running s c w' →
     Q (List.find (λ b, bool_decide (Bill._id b = id)) (bills s)) w') →
  wp (Billing_findById faults id) Q failed_txn w.
Proof.
  intros (Hs & Ht & Hm & Hc) HQ.
  apply wp_storage_txn; [done|by eexists|done|]. intros Hs'.
  unfold source, view. simpl. rewrite Ht. simpl. by apply HQ.
Qed.

Lemma wp_Billing_findOne q Q s c w :
  running s c w →
  (∀ w', running s c w' → Q (List.find q (bills s)) w') →
  wp (Billing_findOne faults q) Q failed_txn w.
Proof.
  intros (Hs & Ht & Hm & Hc) HQ.
  apply wp_storage_txn; [done|by eexists|done|]. intros Hs'.
  unfold source, view. simpl. rewrite Ht. simpl. by apply HQ.
Qed.

Lemma issued_snoc w w' e :
  issued ok w0 w → ok e → writes w' = writes w ++ [e] → issued ok w0 w'.
Proof.
  intros (l & Hl & Hok) He Hw. exists (l ++ [e]). split.
  - by rewrite Hw, Hl, <-app_assoc.
  - apply Forall_app. split; [done|]. by constructor.
Qed.

Lemma wp_Receipt_save r Q s c w :
  running s c w → ok (Inserted r) →
  (∀ w', running {| bills := bills s; receipts := receipts s ++ [r] |} c w' →
         Q tt w') →
  wp (Receipt_save faults r) Q failed_txn w.
Proof.
  intros (Hs & Ht & Hm & Hc) Hok HQ.
  apply wp_storage_txn; [done|by eexists|done|].
  intros (Hdb & Hops & Hq & Hw). simpl. apply HQ.
  unfold view, put. simpl. rewrite Ht. simpl.
  repeat split; simpl; try done. by eapply issued_snoc.
Qed.

Lemma wp_Receipt_findByIdAndUpdate id a Q s c w :
  running s c w → ok (AmountSet id a) →
  (∀ w', running {| bills := bills s;
                    receipts := update_amount id a (receipts s) |} c w' →
         Q tt w') →
  wp (Receipt_findByIdAndUpdate faults id a) Q failed_txn w.
Proof.
  intros (Hs & Ht & Hm & Hc) Hok HQ.
  apply wp_storage_txn; [done|by eexists|done|].
  intros (Hdb & Hops & Hq & Hw). simpl. apply HQ.
  unfold view, put. simpl. rewrite Ht. simpl.
  repeat split; simpl; try done. by eapply issued_snoc.
Qed.

Lemma wp_log line Q E s c w :
  running s c w → (∀ w', running s c w' → Q tt w') → wp (log line) Q E w.
Proof. intros (Hs & Ht & Hm & Hc) HQ. apply wp_effect, HQ. done. Qed.

Lemma wp_generateReceiptNumber uuidv4 Q E s c w :
  running s c w →
  (∀ w', running s (S c) w' →
         Q ("REC" +:+ toUpperCase (slice_last 8 (uuidv4 c))) w') →
  wp (generateReceiptNumber uuidv4) Q E w.
Proof.
  intros (Hs & Ht & Hm & Hc) HQ. unfold wp, generateReceiptNumber.
  rewrite Hm. apply HQ. repeat split; simpl; try done; try apply Hs. by f_equal.
Qed.

Lemma wp_new_Receipt newObjectId receiptData Q E s c w :
  running s c w →
  (∀ w', running s (S c) w' → Q (receiptData (newObjectId c)) w') →
  wp (new_Receipt newObjectId receiptData) Q E w.
Proof.
  intros (Hs & Ht & Hm & Hc) HQ. unfold wp, new_Receipt.
  rewrite Hm. apply HQ. repeat split; simpl; try done; try apply Hs. by f_equal.
Qed.

Lemma wp_commitTransaction Q s c w :
  running s c w →
  (∀ w', completed faults ok w0 s w' → Q tt w') →
  wp (commitTransaction faults) Q failed_txn w.
Proof.
  intros (Hs & Ht & Hm & Hc) HQ. unfold wp, commitTransaction. cbv zeta.
  destruct (faults (ops w)) as [e|] eqn:Hf.
  - split.
    + destruct (steady_fault _ _ Hs Hf) as (Hdb & Hff & Hw). by repeat split.
    + right. split; [done|]. by exists (ops w).
  - apply HQ. destruct (steady_tick _ Hs Hf) as (Hdb & Hops & Hq & Hw).
    unfold view. simpl. rewrite Ht. by repeat split.
Qed.

Lemma wp_abortTransaction Q E s c w :
  running s c w →
  (∀ w', completed faults ok w0 (db w0) w' → Q tt w') →
  wp abortTransaction Q E w.
Proof.
  intros ((Hdb & Hops & Hq & Hw) & Ht & Hm & Hc) HQ.
  unfold wp, abortTransaction.
  rewrite Ht. apply HQ. by repeat split.
Qed.

End Calculus.

(** ** Running a handler: [try] / [catch] / [finally] *)

Lemma try_catch_finally_cases {A} (body : M A) handler fin Q E w :
  wp body Q E w →
  (∃ a w1, Q a w1 ∧ try_catch_finally body handler fin w = (Ok a, fin w1)) ∨
  (∃ e w1, E e w1 ∧
     try_catch_finally body handler fin w
       = let (r, w2) := handler e w1 in (r, fin w2)).
Proof.
  unfold wp, try_catch_finally. destruct (body w) as [[a|e] w1]; intros H.
  - left. by exists a, w1.
  - right. by exists e, w1.
Qed.

Lemma running_entry faults ok w :
  running faults ok w (db w) (minted w) (set_txn (Some (db w)) w).
Proof.
  split; [|done]. repeat split; simpl; [lia | intros k ?; lia |].
  exists []. by rewrite app_nil_r.
Qed.

Lemma running_eq faults ok w0 s s' c c' w :
  running faults ok w0 s c w → s = s' → c = c' → running faults ok w0 s' c' w.
Proof. by intros ? -> ->. Qed.

Lemma failed_aborted faults ok w0 e w :
  failed faults ok w0 e w → aborted faults ok w0 e (set_txn None w).
Proof. intros (Hdb & Hf & Hw). repeat split; try done. Qed.

(** The catch blocks start with [abortTransaction]: it ends a transaction
    in progress, and throws in place of the block after a commit attempt. *)
Lemma abort_then {A} (k : M A) w :
  (abortTransaction ;;; k) w
  = match txn w with
    | Some _ => k (set_txn None w)
    | None => (Throw abort_after_commit, w)
    end.
Proof. unfold bind, abortTransaction. by destruct (txn w). Qed.

Lemma first_fault_rejected faults w e w' :
  db w' = db w → first_fault faults (ops w) e w' → commit_attempted w' →
  rejected_by_commit faults w (Throw abort_after_commit) w'.
Proof.
  intros Hdb (k & Hops & Hk & Hf & _) (k' & Hops' & Hc).
  split; [done|]. split; [done|]. exists k, e.
  assert (k' = k) as -> by lia. done.
Qed.

Lemma failed_txn_rejected faults ok w0 e w :
  failed faults ok w0 e w → txn w = None → commit_attempted w →
  aborted faults ok w0 e (endSession w) ∧ commit_attempted (endSession w).
Proof. intros (Hdb & Hf & Hw) Ht Hc. by repeat split. Qed.

Lemma completed_endSession faults ok w0 s w :
  completed faults ok w0 s w → completed faults ok w0 s (endSession w).
Proof. intros (Hdb & Ht & Hops & Hq & Hw). repeat split; try done. Qed.

Lemma store_eta (s : Store) : {| bills := bills s; receipts := receipts s |} = s.
Proof. by destruct s. Qed.

Lemma filter_all {A} (l : list A) `{!∀ x : A, Decision ((λ _, True) x)} :
  filter (λ _, True) l = l.
Proof.
  induction l as [|x l IH]; [done|].
  rewrite filter_cons. destruct (decide True); [by rewrite IH | done].
Qed.

(** ** createMissingReceipts *)

Section CreateMissing.

Variable faults : nat → option string.
Variable uuidv4 : nat → string.
Variable newObjectId : nat → ObjectId.

Lemma synthesize_snoc c0 bs bill :
  synthesize uuidv4 newObjectId c0 (bs ++ [bill])
  = synthesize_step uuidv4 newObjectId c0
      (synthesize uuidv4 newObjectId c0 bs) bill.
Proof. unfold synthesize. by rewrite fold_left_app. Qed.

(** A run of the handler either commits the receipts of [synthesize] and
    answers 200, or rolls back on the first failing storage call; it then
    answers 500, unless the failing call is commitTransaction: then
    abortTransaction throws in the catch block and no answer is sent. *)
Lemma createMissingReceipts_run w :
  let created :=
    synthesize uuidv4 newObjectId (minted w) (unreceipted (db w)) in
  ∃ out w',
    createMissingReceipts faults uuidv4 newObjectId w = (out, w') ∧
    ((completed faults insert_only w
        {| bills := bills (db w); receipts := receipts (db w) ++ created |} w' ∧
      out = Ok (json 200 (CreatedBody
               ("Successfully created " +:+ pretty (length created)
                  +:+ " missing receipts")
               (length created) (length (bills (db w))) true)))
     ∨ (∃ e, aborted faults insert_only w e w' ∧
             ((out = Ok (json 500
                       (ErrorBody "Error creating missing receipts" e false)) ∧
               commit_call w' = commit_call w)
              ∨ (out = Throw abort_after_commit ∧ commit_attempted w')))).
Proof.
  intros created. unfold createMissingReceipts.
  unfold bind at 1, startTransaction, effect.
  match goal with
  | |- context [try_catch_finally ?b ?h ?f ?w1] =>
      destruct (try_catch_finally_cases b h f
        (λ resp w', completed faults insert_only w
            {| bills := bills (db w); receipts := receipts (db w) ++ created |} w' ∧
          resp = json 200 (CreatedBody
               ("Successfully created " +:+ pretty (length created)
                  +:+ " missing receipts")
               (length created) (length (bills (db w))) true))
        (failed_txn faults insert_only w) w1)
        as [(resp & w1' & HQ & ->)|(e & w1' & HE & ->)]
  end.
  - apply wp_bind. eapply wp_Billing_find; [apply running_entry|].
    intros w1 H1. apply wp_bind. eapply wp_Receipt_find; [exact H1|].
    intros w2 H2. rewrite !filter_all. simpl.
    apply wp_bind. eapply wp_log; [exact H2|]. intros w3 H3.
    apply wp_bind.
    apply wp_for_of with
      (I := λ pre acc w',
         acc = synthesize uuidv4 newObjectId (minted w) pre ∧
         running faults insert_only w
           {| bills := bills (db w); receipts := receipts (db w) ++ acc |}
           (minted w + 2 * length acc) w').
    + split; [done|]. simpl. by rewrite app_nil_r, Nat.add_0_r; destruct (db w).
    + intros pre bill post acc w4 Hxs [-> H4].
      rewrite synthesize_snoc. unfold synthesize_step.
      case_bool_decide as Hpaid; [|by apply wp_ret].
      apply wp_bind. eapply wp_generateReceiptNumber; [exact H4|]. intros w5 H5.
      apply wp_bind. eapply wp_new_Receipt; [exact H5|]. intros w6 H6.
      apply wp_bind. eapply wp_Receipt_save; [exact H6|done|]. intros w7 H7.
      apply wp_ret. split; [done|].
      eapply running_eq; [exact H7 | | rewrite length_app; simpl; lia].
      simpl. by rewrite <-app_assoc.
    + intros acc w4 [-> H4]. fold (unreceipted (db w)) in *. fold created in H4 |- *.
      apply wp_bind. eapply wp_commitTransaction; [exact H4|]. intros w5 H5.
      by apply wp_ret.
  - eexists _, (endSession w1'). split; [done|]. left.
    destruct HQ as [HQ ->]. split; [|done]. by apply completed_endSession.
  - cbv beta. rewrite abort_then.
    destruct HE as [HE [[[s Hs] Hcc]|[Hn Hc]]].
    + rewrite Hs. simpl. eexists _, _. split; [done|]. right. exists e.
      split; [|by left]. apply (failed_aborted _ _ _ _ _ HE).
    + rewrite Hn. eexists _, _. split; [done|]. right. exists e.
      destruct (failed_txn_rejected _ _ _ _ _ HE Hn Hc). by eauto.
Qed.

End CreateMissing.

(** ** The two fix handlers *)

Lemma omap_snoc {A B} (f : A → option B) (l : list A) (x : A) :
  omap f (l ++ [x]) = omap f l ++ match f x with Some y => [y] | None => [] end.
Proof. rewrite omap_app. simpl. by destruct (f x). Qed.

Lemma apply_corrections_snoc corr pre x rs :
  apply_corrections corr (pre ++ [x]) rs
  = match corr x with
    | Some a => update_amount (Receipt._id x) a (apply_corrections corr pre rs)
    | None => apply_corrections corr pre rs
    end.
Proof. unfold apply_corrections. by rewrite fold_left_app. Qed.

Lemma applicable_Some c r a :
  applicable c r = Some a → a = c ∧ (0 < c)%Z ∧ c ≠ Receipt.amount r.
Proof.
  unfold applicable. case_bool_decide; simpl; [|done].
  case_bool_decide; simpl; [done|]. by intros [= <-].
Qed.

Section Fix.

Variable faults : nat → option string.

Lemma fixZeroAmountReceipts_run w :
  let zeroAmountReceipts :=
    filter (λ r, Receipt.amount r ≤ 0)%Z (receipts (db w)) in
  let corr := correction_zero (bills (db w)) in
  let fixedReceipts :=
    omap (λ r, fixed_entry r <$> corr r) zeroAmountReceipts in
  ∃ out w',
    fixZeroAmountReceipts faults w = (out, w') ∧
    ((completed faults positive_amount_only w
        {| bills := bills (db w);
           receipts := apply_corrections corr zeroAmountReceipts
                         (receipts (db w)) |} w' ∧
      out = Ok (json 200 (FixedBody
               ("Successfully fixed " +:+ pretty (length fixedReceipts)
                  +:+ " receipts")
               fixedReceipts (length zeroAmountReceipts) true)))
     ∨ (∃ e, aborted faults positive_amount_only w e w' ∧
             ((out = Ok (json 500
                       (ErrorBody "Error fixing zero amount receipts" e false)) ∧
               commit_call w' = commit_call w)
              ∨ (out = Throw abort_after_commit ∧ commit_attempted w')))).
Proof.
  intros zs corr fixed. unfold fixZeroAmountReceipts.
  unfold bind at 1, startTransaction, effect.
  match goal with
  | |- context [try_catch_finally ?b ?h ?f ?w1] =>
      destruct (try_catch_finally_cases b h f
        (λ resp w', completed faults positive_amount_only w
            {| bills := bills (db w);
               receipts := apply_corrections corr zs (receipts (db w)) |} w' ∧
          resp = json 200 (FixedBody
               ("Successfully fixed " +:+ pretty (length fixed) +:+ " receipts")
               fixed (length zs) true))
        (failed_txn faults positive_amount_only w) w1)
        as [(resp & w1' & HQ & ->)|(e & w1' & HE & ->)]
  end.
  - apply wp_bind. eapply wp_Receipt_find; [apply running_entry|].
    intros w1 H1. fold zs.
    apply wp_bind. eapply wp_log; [exact H1|]. intros w2 H2.
    apply wp_bind.
    apply wp_for_of with
      (I := λ pre acc w',
         acc = omap (λ r, fixed_entry r <$> corr r) pre ∧
         running faults positive_amount_only w
           {| bills := bills (db w);
              receipts := apply_corrections corr pre (receipts (db w)) |}
           (minted w) w').
    + split; [reflexivity|].
      eapply running_eq; [exact H2 | by destruct (db w) | done].
    + intros pre r post acc w3 Hxs [-> H3].
      rewrite omap_snoc, apply_corrections_snoc.
      apply wp_bind. eapply wp_Billing_findById; [exact H3|]. intros w4 H4.
      simpl.
      assert (corr r = correction_zero (bills (db w)) r) as Hcr by done.
      unfold correction_zero, correctAmount_zero in Hcr.
      destruct (List.find _ (bills (db w))) as [billing|]; simpl in Hcr.
      2:{ rewrite Hcr. simpl. rewrite app_nil_r.
          apply wp_bind. eapply wp_log; [exact H4|]. intros w5 H5.
          by apply wp_ret. }
      assert (∀ c,
        wp (if bool_decide (0 < c)%Z
               && negb (bool_decide (c = Receipt.amount r))
            then
              Receipt_findByIdAndUpdate faults (Receipt._id r) c ;;;
              log ("Fixed receipt " +:+ Receipt.receiptNumber r
                     +:+ ": " +:+ pretty (Receipt.amount r)
                     +:+ " â†’ " +:+ pretty c) ;;;
              ret (omap (λ r, fixed_entry r <$> corr r) pre ++
                     [{| fx_receiptNumber := Receipt.receiptNumber r;
                         fx_billNumber := Receipt.billNumber r;
                         fx_oldAmount := Receipt.amount r;
                         fx_newAmount := c;
                         fx_type := Receipt.type r |}])
            else ret (omap (λ r, fixed_entry r <$> corr r) pre))
          (λ acc w',
             acc = omap (λ r, fixed_entry r <$> corr r) pre ++
                     match fixed_entry r <$> applicable c r with
                     | Some y => [y]
                     | None => []
                     end ∧
             running faults positive_amount_only w
               {| bills := bills (db w);
                  receipts :=
                    match applicable c r with
                    | Some a =>
                        update_amount (Receipt._id r) a
                          (apply_corrections corr pre (receipts (db w)))
                    | None => apply_corrections corr pre (receipts (db w))
                    end |} (minted w) w')
          (failed_txn faults positive_amount_only w) w4) as Hafter.
      { intros c. unfold applicable.
        destruct (bool_decide (0 < c)%Z
                  && negb (bool_decide (c = Receipt.amount r))) eqn:Hc; simpl.
        - apply andb_true_iff in Hc as [Hpos%bool_decide_eq_true _].
          apply wp_bind. eapply wp_Receipt_findByIdAndUpdate; [exact H4|done|].
          intros w5 H5. apply wp_bind. eapply wp_log; [exact H5|].
          intros w6 H6. by apply wp_ret.
        - rewrite app_nil_r. by apply wp_ret. }
      rewrite Hcr. clear Hcr.
      case_bool_decide; [apply Hafter|].
      case_bool_decide.
      { simpl. rewrite app_nil_r.
        apply wp_bind. eapply wp_log; [exact H4|]. intros w5 H5.
        by apply wp_ret. }
      case_bool_decide; [apply Hafter | apply (Hafter 0%Z)].
    + intros acc w3 [-> H3]. fold fixed.
      apply wp_bind. eapply wp_commitTransaction; [exact H3|]. intros w4 H4.
      by apply wp_ret.
  - eexists _, (endSession w1'). split; [done|]. left.
    destruct HQ as [HQ ->]. split; [|done]. by apply completed_endSession.
  - cbv beta. rewrite abort_then.
    destruct HE as [HE [[[s Hs] Hcc]|[Hn Hc]]].
    + rewrite Hs. simpl. eexists _, _. split; [done|]. right. exists e.
      split; [|by left]. apply (failed_aborted _ _ _ _ _ HE).
    + rewrite Hn. eexists _, _. split; [done|]. right. exists e.
      destruct (failed_txn_rejected _ _ _ _ _ HE Hn Hc). by eauto.
Qed.

Lemma fixSpecificBillReceipt_run billNumber w :
  let found :=
    List.find (λ b, bool_decide (Bill.billNumber b = billNumber))
      (bills (db w)) in
  let rs :=
    filter (λ r, Receipt.billNumber r = billNumber) (receipts (db w)) in
  ∃ out w',
    fixSpecificBillReceipt faults billNumber w = (out, w') ∧
    ((∃ billing,
        let corr := correction_bill billing in
        let fixedReceipts := omap (λ r, fixed_bill_entry r <$> corr r) rs in
        found = Some billing ∧
        completed faults positive_amount_only w
          {| bills := bills (db w);
             receipts := apply_corrections corr rs (receipts (db w)) |} w' ∧
        out = Ok (json 200 (FixedBillBody
                 ("Fixed " +:+ pretty (length fixedReceipts)
                    +:+ " receipts for bill " +:+ billNumber)
                 billNumber fixedReceipts true)))
     ∨ (found = None ∧
        completed faults positive_amount_only w (db w) w' ∧
        out = Ok (json 404 (NotFoundBody
                 ("Bill " +:+ billNumber +:+ " not found") false)))
     ∨ (∃ e, aborted faults positive_amount_only w e w' ∧
             ((out = Ok (json 500
                       (ErrorBody ("Error fixing receipts for bill " +:+ billNumber)
                          e false)) ∧
               commit_call w' = commit_call w)
              ∨ (out = Throw abort_after_commit ∧ commit_attempted w')))).
Proof.
  intros found rs. unfold fixSpecificBillReceipt.
  unfold bind at 1, startTransaction, effect.
  match goal with
  | |- context [try_catch_finally ?b ?h ?f ?w1] =>
      destruct (try_catch_finally_cases b h f
        (λ resp w',
           match found with
           | Some billing =>
               completed faults positive_amount_only w
                 {| bills := bills (db w);
                    receipts := apply_corrections (correction_bill billing) rs
                                  (receipts (db w)) |} w' ∧
               resp = json 200 (FixedBillBody
                 ("Fixed " +:+
                    pretty (length (omap (λ r, fixed_bill_entry r
                                            <$> correction_bill billing r) rs))
                    +:+ " receipts for bill " +:+ billNumber)
                 billNumber
                 (omap (λ r, fixed_bill_entry r <$> correction_bill billing r) rs)
                 true)
           | None =>
               completed faults positive_amount_only w (db w) w' ∧
               resp = json 404 (NotFoundBody
                        ("Bill " +:+ billNumber +:+ " not found") false)
           end)
        (failed_txn faults positive_amount_only w) w1)
        as [(resp & w1' & HQ & ->)|(e & w1' & HE & ->)]
  end.
  - apply wp_bind. eapply wp_Billing_findOne; [apply running_entry|].
    intros w1 H1. fold found. destruct found as [billing|].
    2:{ apply wp_bind. eapply wp_abortTransaction; [exact H1|].
        intros w2 H2. by apply wp_ret. }
    apply wp_bind. eapply wp_Receipt_find; [exact H1|]. intros w2 H2. fold rs.
    apply wp_bind.
    apply wp_for_of with
      (I := λ pre acc w',
         acc = omap (λ r, fixed_bill_entry r <$> correction_bill billing r) pre ∧
         running faults positive_amount_only w
           {| bills := bills (db w);
              receipts := apply_corrections (correction_bill billing) pre
                            (receipts (db w)) |}
           (minted w) w').
    + split; [reflexivity|].
      eapply running_eq; [exact H2 | by destruct (db w) | done].
    + intros pre r post acc w3 Hxs [-> H3].
      rewrite omap_snoc, apply_corrections_snoc.
      assert (correction_bill billing r
              = applicable (correctAmount_bill billing r) r) as -> by done.
      unfold applicable, correctAmount_bill. cbv zeta.
      destruct (bool_decide (0 < _)%Z && _) eqn:Hc; simpl.
      * apply andb_true_iff in Hc as [Hpos%bool_decide_eq_true _].
        apply wp_bind. eapply wp_Receipt_findByIdAndUpdate; [exact H3|done|].
        intros w4 H4. by apply wp_ret.
      * rewrite app_nil_r. by apply wp_ret.
    + intros acc w3 [-> H3].
      apply wp_bind. eapply wp_commitTransaction; [exact H3|]. intros w4 H4.
      by apply wp_ret.
  - eexists _, (endSession w1'). split; [done|].
    destruct found as [billing|]; destruct HQ as [HQ ->].
    + left. exists billing. repeat split; try done; apply HQ.
    + right; left. repeat split; try done; apply HQ.
  - cbv beta. rewrite abort_then.
    destruct HE as [HE [[[s Hs] Hcc]|[Hn Hc]]].
    + rewrite Hs. simpl. eexists _, _. split; [done|]. right; right. exists e.
      split; [|by left]. apply (failed_aborted _ _ _ _ _ HE).
    + rewrite Hn. eexists _, _. split; [done|]. right; right. exists e.
      destruct (failed_txn_rejected _ _ _ _ _ HE Hn Hc). by eauto.
Qed.

End Fix.

(** ** getReceiptAuditReport *)

Section Audit.

Variable faults : nat → option string.

Lemma getReceiptAuditReport_run w :
  ∃ resp w',
    getReceiptAuditReport faults w = (Ok resp, w') ∧
    db w' = db w ∧ writes w' = writes w ∧
    ((quiet faults (ops w) (ops w') ∧
      resp = json 200 (ReportBody
               "Receipt audit report generated successfully"
               (audit (bills (db w)) (receipts (db w))) true))
     ∨ (∃ e, first_fault faults (ops w) e w' ∧
             resp = json 500 (ErrorBody "Error generating audit report" e false))).
Proof.
  unfold getReceiptAuditReport, try_catch.
  match goal with
  | |- context [try_catch_finally ?b ?h ?f ?w1] =>
      destruct (try_catch_finally_cases b h f
        (λ resp w', steady faults read_only w w' ∧
           resp = json 200 (ReportBody
               "Receipt audit report generated successfully"
               (audit (bills (db w)) (receipts (db w))) true))
        (failed faults read_only w) w1)
        as [(resp & w1' & HQ & ->)|(e & w1' & HE & ->)]
  end.
  - apply wp_bind, wp_storage; [apply steady_entry|]. intros H1.
    apply wp_bind, wp_storage; [exact H1|]. intros H2.
    apply wp_ret. simpl. rewrite !filter_all. done.
  - destruct HQ as [(Hdb & Hops & Hq & l & Hl & Hok) ->].
    eexists _, w1'. repeat split; try done.
    + destruct l as [|x l]; [by rewrite app_nil_r in Hl|].
      by apply Forall_cons in Hok as [[] _].
    + by left.
  - destruct HE as (Hdb & Hf & l & Hl & Hok).
    simpl. eexists _, _. repeat split; simpl; try done.
    + destruct l as [|x l]; [by rewrite app_nil_r in Hl|].
      by apply Forall_cons in Hok as [[] _].
    + right. by exists e.
Qed.

End Audit.

(** ** Lists with unique keys *)

Lemma NoDup_fmap_elem_eq {A K} (key : A → K) (l : list A) x y :
  NoDup (key <$> l) → x ∈ l → y ∈ l → key x = key y → x = y.
Proof.
  induction l as [|z l IH]; intros Hnd Hx Hy Hk; [by apply elem_of_nil in Hx|].
  rewrite fmap_cons in Hnd. apply NoDup_cons in Hnd as [Hz Hnd].
  apply elem_of_cons in Hx as [->|Hx]; apply elem_of_cons in Hy as [->|Hy].
  - done.
  - destruct Hz. rewrite Hk. by apply list_elem_of_fmap_2.
  - destruct Hz. rewrite <-Hk. by apply list_elem_of_fmap_2.
  - by apply IH.
Qed.

Lemma NoDup_fmap_filter {A K} (key : A → K) (P : A → Prop)
    `{!∀ x, Decision (P x)} (l : list A) :
  NoDup (key <$> l) → NoDup (key <$> filter P l).
Proof.
  intros Hnd. eapply sublist_NoDup; [exact Hnd|].
  apply fmap_sublist, sublist_filter.
Qed.

(** ** What a fix loop does to the collection *)

Lemma update_amount_fmap (g : Receipt.t → Receipt.t) id a rs :
  (∀ r, Receipt._id (g r) = Receipt._id r) →
  NoDup (Receipt._id <$> rs) →
  update_amount id a (g <$> rs)
  = (λ r, if decide (Receipt._id r = id) then Receipt.set_amount a (g r)
          else g r) <$> rs.
Proof.
  intros Hg. induction rs as [|r rs IH]; intros Hnd; [done|].
  rewrite fmap_cons in Hnd. apply NoDup_cons in Hnd as [Hr Hnd].
  rewrite !fmap_cons. simpl. rewrite Hg.
  destruct (decide (Receipt._id r = id)) as [<-|Hne].
  - f_equal. apply list_fmap_ext. intros i r' Hr'.
    destruct (decide (Receipt._id r' = Receipt._id r)) as [Heq|]; [|done].
    destruct Hr. rewrite <-Heq.
    by eapply list_elem_of_fmap_2, list_elem_of_lookup_2.
  - f_equal. by apply IH.
Qed.

Lemma fix_receipt_id corr r : Receipt._id (fix_receipt corr r) = Receipt._id r.
Proof. unfold fix_receipt. by destruct (corr r). Qed.

Lemma fix_receipt_None r : fix_receipt (λ _, None) r = r.
Proof. done. Qed.

(** With unique [_id]s, looping over the receipts a query selected rewrites
    exactly those receipts, each by the rule applied to its snapshot. *)
Lemma apply_corrections_filter corr (q : Receipt.t → Prop)
    `{!∀ r, Decision (q r)} rs :
  NoDup (Receipt._id <$> rs) →
  apply_corrections corr (filter q rs) rs
  = fix_receipt (guarded q corr) <$> rs.
Proof.
  intros Hnd.
  assert (∀ todo,
    NoDup (Receipt._id <$> todo) → (∀ x, x ∈ todo → x ∈ rs) →
    apply_corrections corr todo rs
    = fix_receipt (guarded (λ r, Receipt._id r ∈ Receipt._id <$> todo) corr)
        <$> rs) as Hgen.
  { induction todo as [|x todo IH] using rev_ind; intros Hnd' Hsub.
    - simpl. rewrite <-(list_fmap_id rs) at 1. apply list_fmap_ext.
      intros i r _. unfold fix_receipt, guarded.
      destruct (decide _) as [Hin|]; [|done]. by apply elem_of_nil in Hin.
    - rewrite fmap_app in Hnd'. apply NoDup_app in Hnd' as (Hnd1 & Hdisj & _).
      rewrite apply_corrections_snoc, IH; [|done|].
      2:{ intros y Hy. apply Hsub, elem_of_app. by left. }
      assert (x ∈ rs) as Hx by (apply Hsub, elem_of_app; right; by left).
      assert (Receipt._id x ∉ Receipt._id <$> todo) as Hfresh.
      { intros Hin. apply (Hdisj _ Hin). simpl. by left. }
      assert (∀ r, r ∈ rs → Receipt._id r = Receipt._id x → r = x) as Huniq.
      { intros r Hr Heq. by apply (NoDup_fmap_elem_eq Receipt._id rs). }
      destruct (corr x) as [a|] eqn:Hcx.
      + rewrite update_amount_fmap; [|apply fix_receipt_id|done].
        apply list_fmap_ext. intros i r Hr%list_elem_of_lookup_2.
        unfold fix_receipt, guarded. rewrite fmap_app. simpl.
        destruct (decide (Receipt._id r = Receipt._id x)) as [Heq|Hne].
        * rewrite (Huniq r Hr Heq).
          rewrite (decide_False (P := _ ∈ Receipt._id <$> todo)) by done.
          rewrite decide_True by (apply elem_of_app; right; by left).
          by rewrite Hcx.
        * destruct (decide (Receipt._id r ∈ Receipt._id <$> todo)) as [Hin|Hnin].
          -- rewrite decide_True by (apply elem_of_app; by left). done.
          -- rewrite decide_False; [done|].
             intros [?|Hin%list_elem_of_singleton]%elem_of_app; done.
      + apply list_fmap_ext. intros i r Hr%list_elem_of_lookup_2.
        unfold fix_receipt, guarded. rewrite fmap_app. simpl.
        destruct (decide (Receipt._id r ∈ Receipt._id <$> todo)) as [Hin|Hnin].
        * rewrite decide_True by (apply elem_of_app; by left). done.
        * destruct (decide (Receipt._id r ∈ _ ++ _)) as [Hin|]; [|done].
          apply elem_of_app in Hin as [?|Hin%list_elem_of_singleton]; [done|].
          by rewrite (Huniq r Hr Hin), Hcx. }
  rewrite Hgen.
  - apply list_fmap_ext. intros i r Hr%list_elem_of_lookup_2.
    unfold fix_receipt, guarded.
    destruct (decide (q r)) as [Hq|Hq].
    + rewrite decide_True; [done|].
      by apply list_elem_of_fmap_2, list_elem_of_filter.
    + rewrite decide_False; [done|].
      intros (r' & Heq & [Hq' Hr']%list_elem_of_filter)%list_elem_of_fmap.
      by rewrite (NoDup_fmap_elem_eq Receipt._id rs r r') in Hq.
  - by apply NoDup_fmap_filter.
  - by intros x [_ ?]%list_elem_of_filter.
Qed.

Lemma omap_filter {A B} (f : A → option B) (P : A → Prop)
    `{!∀ x, Decision (P x)} (l : list A) :
  omap f (filter P l) = omap (λ x, if decide (P x) then f x else None) l.
Proof.
  induction l as [|x l IH]; [done|].
  rewrite filter_cons. csimpl. destruct (decide (P x)); csimpl; by rewrite IH.
Qed.

Lemma fmap_omap {A B C} (g : B → C) (f : A → option B) (l : list A) :
  g <$> omap f l = omap (λ x, g <$> f x) l.
Proof.
  induction l as [|x l IH]; [done|].
  csimpl. destruct (f x); csimpl; by rewrite IH.
Qed.

Lemma omap_ext_eq {A B} (f g : A → option B) (l : list A) :
  (∀ x, f x = g x) → omap f l = omap g l.
Proof.
  intros Hfg. induction l as [|x l IH]; [done|].
  csimpl. by rewrite Hfg, IH.
Qed.

Lemma omap_None {A B} (l : list A) : omap (λ _, @None B) l = [].
Proof. by induction l. Qed.

Lemma filter_none {A} (P : A → Prop) `{!∀ x, Decision (P x)} (l : list A) :
  (∀ x, x ∈ l → ¬ P x) → filter P l = [].
Proof.
  induction l as [|x l IH]; intros Hl; [done|].
  rewrite filter_cons_False by (apply Hl; by left).
  apply IH. intros y Hy. apply Hl. by right.
Qed.

Section UniqueKeys.

Context {A B K : Type} `{!EqDecision K}.
Variable key : A → K.
Variable key' : B → K.
Variable f : A → option B.
Hypothesis key_f : ∀ a b, f a = Some b → key' b = key a.

(** An element that [f] drops leaves no image with its key. *)
Lemma omap_absent (l : list A) (x : A) :
  NoDup (key <$> l) → x ∈ l → f x = None → key x ∉ key' <$> omap f l.
Proof.
  intros Hnd Hx Hfx (b & Hk & (a & Ha & Hfa)%list_elem_of_omap)%list_elem_of_fmap.
  rewrite (key_f _ _ Hfa) in Hk.
  rewrite (NoDup_fmap_elem_eq key l x a Hnd Hx Ha Hk) in Hfx. congruence.
Qed.

(** An element that [f] keeps has exactly one image with its key. *)
Lemma omap_once (l : list A) (x : A) (y : B) :
  NoDup (key <$> l) → x ∈ l → f x = Some y →
  filter (λ b, key' b = key x) (omap f l) = [y].
Proof.
  induction l as [|a l IH]; intros Hnd Hx Hfx; [by apply elem_of_nil in Hx|].
  rewrite fmap_cons in Hnd. apply NoDup_cons in Hnd as [Ha Hnd].
  assert (∀ x', x' ∈ l → key x' ≠ key a) as Hfresh.
  { intros x' Hx' Heq. apply Ha. rewrite <-Heq. by apply list_elem_of_fmap_2. }
  apply elem_of_cons in Hx as [->|Hx]; csimpl.
  - rewrite Hfx. rewrite filter_cons_True by eauto. f_equal.
    apply filter_none. intros b (x' & Hx' & Hfx')%list_elem_of_omap Hk.
    rewrite (key_f _ _ Hfx') in Hk. by apply (Hfresh x').
  - destruct (f a) as [b|] eqn:Hfa; [|by apply IH].
    rewrite filter_cons_False; [by apply IH|].
    rewrite (key_f _ _ Hfa). intros Heq. by apply (Hfresh x).
Qed.

End UniqueKeys.

(** ** Consequences of [fix_result] *)

Section FixResult.

Variable corr : Receipt.t → option Z.
Variables w w' : World.
Variable out : Outcome Response.
Hypothesis result : fix_result corr w w' out.

Lemma fix_result_lookup i r :
  receipts (db w) !! i = Some r →
  receipts (db w') !! i = Some (fix_receipt corr r).
Proof.
  intros Hr. destruct result as (_ & -> & _).
  by rewrite list_lookup_fmap, Hr.
Qed.

Lemma fix_result_untouched i r :
  receipts (db w) !! i = Some r → corr r = None →
  receipts (db w') !! i = Some r.
Proof.
  intros Hr Hc. rewrite (fix_result_lookup i r Hr).
  unfold fix_receipt. by rewrite Hc.
Qed.

Lemma fix_result_corrected i r a :
  receipts (db w) !! i = Some r → corr r = Some a →
  receipts (db w') !! i = Some (Receipt.set_amount a r).
Proof.
  intros Hr Hc. rewrite (fix_result_lookup i r Hr).
  unfold fix_receipt. by rewrite Hc.
Qed.

Lemma fixed_record_key r e :
  fixed_record corr r = Some e → e.1.1 = Receipt.receiptNumber r.
Proof. unfold fixed_record. destruct (corr r); [|done]. by intros [= <-]. Qed.

Lemma fix_result_unlisted r :
  NoDup (Receipt.receiptNumber <$> receipts (db w)) →
  r ∈ receipts (db w) → corr r = None →
  Receipt.receiptNumber r ∉ reported_numbers out.
Proof.
  intros Hnd Hr Hc. unfold reported_numbers. destruct result as (_ & _ & ->).
  apply (omap_absent Receipt.receiptNumber (λ e, e.1.1) (fixed_record corr));
    [apply fixed_record_key | done | done |].
  unfold fixed_record. by rewrite Hc.
Qed.

Lemma fix_result_listed_once r a :
  NoDup (Receipt.receiptNumber <$> receipts (db w)) →
  r ∈ receipts (db w) → corr r = Some a →
  filter (λ e, e.1.1 = Receipt.receiptNumber r) (reported_records out)
  = [(Receipt.receiptNumber r, Receipt.amount r, a)].
Proof.
  intros Hnd Hr Hc. destruct result as (_ & _ & ->).
  apply (omap_once Receipt.receiptNumber (λ e, e.1.1) (fixed_record corr));
    [apply fixed_record_key | done | done |].
  unfold fixed_record. by rewrite Hc.
Qed.

Lemma fix_result_listed r a :
  r ∈ receipts (db w) → corr r = Some a →
  (Receipt.receiptNumber r, Receipt.amount r, a) ∈ reported_records out.
Proof.
  intros Hr Hc. destruct result as (_ & _ & ->).
  apply list_elem_of_omap. exists r. split; [done|].
  unfold fixed_record. by rewrite Hc.
Qed.

End FixResult.

(** ** The fix handlers as corrections of the committed collection *)

Lemma fix_result_none w w' out :
  db w' = db w → reported_records out = [] → fix_result (λ _, None) w w' out.
Proof.
  intros Hdb Hrec. repeat split.
  - by rewrite Hdb.
  - rewrite Hdb. rewrite <-(list_fmap_id (receipts (db w))) at 1.
    by apply list_fmap_ext.
  - rewrite Hrec. symmetry. apply omap_None.
Qed.

Section FixEffects.

Variable faults : nat → option string.

Lemma fixZeroAmountReceipts_effect w :
  NoDup (Receipt._id <$> receipts (db w)) →
  ∃ out w' corr,
    fixZeroAmountReceipts faults w = (out, w') ∧
    fix_result corr w w' out ∧
    txn w' = None ∧
    issued positive_amount_only w w' ∧
    answers_unless_commit_fails faults w out w' ∧
    ((corr = guarded (λ r, Receipt.amount r ≤ 0)%Z
               (correction_zero (bills (db w))) ∧
      quiet faults (ops w) (ops w') ∧
      ∃ msg fixed n, out = Ok (json 200 (FixedBody msg fixed n true)))
     ∨ (corr = (λ _, None) ∧
        ∃ e, first_fault faults (ops w) e w' ∧
             ((out = Ok (json 500
                       (ErrorBody "Error fixing zero amount receipts" e false)) ∧
               commit_call w' = commit_call w)
              ∨ (out = Throw abort_after_commit ∧ commit_attempted w')))).
Proof.
  intros Hnd.
  destruct (fixZeroAmountReceipts_run faults w)
    as (out & w' & Hrun & [[(Hdb & Ht & Hops & Hq & Hw) ->]
                           |(e & (Hdb & Ht & Hf & Hw) & Hout)]).
  - eexists _, w', (guarded _ (correction_zero (bills (db w)))).
    split; [exact Hrun|].
    split; [|split; [done|split; [done|split; [left; by eauto|]]]];
      [|left; by eauto 10].
    unfold fix_result. rewrite Hdb. repeat split; simpl.
    + by apply apply_corrections_filter.
    + unfold fixed_records. simpl. rewrite fmap_omap, omap_filter.
      apply omap_ext_eq. intros r. unfold fixed_record, guarded.
      destruct (decide _); [|done]. by destruct (correction_zero _ r).
  - eexists _, w', _. split; [exact Hrun|].
    split; [apply fix_result_none; [done|by destruct Hout as [[-> _]|[-> _]]]|].
    split; [done|]. split; [done|]. split; [|right; eauto].
    destruct Hout as [[-> _]|[-> Hc]]; [left; by eauto|right].
    by eapply first_fault_rejected.
Qed.

Lemma fixSpecificBillReceipt_effect billNumber w :
  NoDup (Receipt._id <$> receipts (db w)) →
  ∃ out w' corr,
    fixSpecificBillReceipt faults billNumber w = (out, w') ∧
    fix_result corr w w' out ∧
    txn w' = None ∧
    issued positive_amount_only w w' ∧
    answers_unless_commit_fails faults w out w' ∧
    ((∃ billing,
        List.find (λ b, bool_decide (Bill.billNumber b = billNumber))
          (bills (db w)) = Some billing ∧
        corr = guarded (λ r, Receipt.billNumber r = billNumber)
                 (correction_bill billing) ∧
        quiet faults (ops w) (ops w') ∧
        ∃ msg fixed,
          out = Ok (json 200 (FixedBillBody msg billNumber fixed true)))
     ∨ (List.find (λ b, bool_decide (Bill.billNumber b = billNumber))
          (bills (db w)) = None ∧
        corr = (λ _, None) ∧
        quiet faults (ops w) (ops w') ∧
        out = Ok (json 404 (NotFoundBody
                 ("Bill " +:+ billNumber +:+ " not found") false)))
     ∨ (corr = (λ _, None) ∧
        ∃ e, first_fault faults (ops w) e w' ∧
             ((out = Ok (json 500
                       (ErrorBody ("Error fixing receipts for bill " +:+ billNumber)
                          e false)) ∧
               commit_call w' = commit_call w)
              ∨ (out = Throw abort_after_commit ∧ commit_attempted w')))).
Proof.
  intros Hnd.
  destruct (fixSpecificBillReceipt_run faults billNumber w)
    as (out & w' & Hrun &
        [(billing & Hfind & (Hdb & Ht & Hops & Hq & Hw) & ->)
        |[(Hfind & (Hdb & Ht & Hops & Hq & Hw) & ->)
         |(e & (Hdb & Ht & Hf & Hw) & Hout)]]).
  - eexists _, w', (guarded _ (correction_bill billing)).
    split; [exact Hrun|].
    split; [|split; [done|split; [done|split; [left; by eauto|]]]];
      [|left; by eauto 10].
    unfold fix_result. rewrite Hdb. repeat split; simpl.
    + by apply apply_corrections_filter.
    + unfold fixed_records. simpl. rewrite fmap_omap, omap_filter.
      apply omap_ext_eq. intros r. unfold fixed_record, guarded.
      destruct (decide _); [|done]. by destruct (correction_bill _ r).
  - eexists _, w', _. split; [exact Hrun|].
    split; [by apply fix_result_none|]. split; [done|]. split; [done|].
    split; [left; by eauto|]. right; left. eauto.
  - eexists _, w', _. split; [exact Hrun|].
    split; [apply fix_result_none; [done|by destruct Hout as [[-> _]|[-> _]]]|].
    split; [done|]. split; [done|]. split; [|right; right; eauto].
    destruct Hout as [[-> _]|[-> Hc]]; [left; by eauto|right].
    by eapply first_fault_rejected.
Qed.

End FixEffects.

(** ** The receipts one creation pass synthesizes *)

Section Synthesize.

Variable uuidv4 : nat → string.
Variable newObjectId : nat → ObjectId.

Lemma creation_receipt_created_for c bill :
  created_for bill (creation_receipt uuidv4 newObjectId c bill).
Proof. by repeat split. Qed.

Lemma synthesize_Forall2 c0 bs :
  Forall2 created_for
    (filter (λ b, 0 < Payment.paid (Bill.payment b))%Z bs)
    (synthesize uuidv4 newObjectId c0 bs).
Proof.
  induction bs as [|b bs IH] using rev_ind; [constructor|].
  rewrite filter_app, synthesize_snoc. unfold synthesize_step.
  rewrite filter_cons, filter_nil. case_bool_decide as Hpaid.
  - rewrite decide_True by done. apply Forall2_app; [done|].
    constructor; [apply creation_receipt_created_for | constructor].
  - rewrite decide_False by done. by rewrite app_nil_r.
Qed.

Lemma synthesize_unpaid c0 bs :
  (∀ b, b ∈ bs → ¬ (0 < Payment.paid (Bill.payment b))%Z) →
  synthesize uuidv4 newObjectId c0 bs = [].
Proof.
  intros Hbs. pose proof (synthesize_Forall2 c0 bs) as HF.
  rewrite filter_none in HF by done. by apply Forall2_nil_inv_l in HF.
Qed.

End Synthesize.

Lemma elem_of_unreceipted s bill :
  bill ∈ unreceipted s ↔
  bill ∈ bills s ∧
  ∀ r, r ∈ receipts s → Receipt.billNumber r ≠ Bill.billNumber bill.
Proof.
  unfold unreceipted. rewrite list_elem_of_filter, elem_of_list_to_set.
  rewrite list_elem_of_fmap. split.
  - intros [Hno Hb]. split; [done|]. intros r Hr Heq. apply Hno. by exists r.
  - intros [Hb Hno]. split; [|done]. intros (r & Heq & Hr). by apply (Hno r).
Qed.

Section Forall2Keys.

Context {A B K : Type} `{!EqDecision K}.
Variable R : A → B → Prop.
Variable key : A → K.
Variable key' : B → K.
Hypothesis key_R : ∀ a b, R a b → key' b = key a.

Lemma Forall2_elem_l xs ys x :
  Forall2 R xs ys → x ∈ xs → ∃ y, y ∈ ys ∧ R x y.
Proof.
  intros HF (i & Hi)%list_elem_of_lookup.
  destruct (Forall2_lookup_l _ _ _ _ _ HF Hi) as (y & Hy & HR).
  exists y. split; [|done]. by eapply list_elem_of_lookup_2.
Qed.

Lemma Forall2_elem_r xs ys y :
  Forall2 R xs ys → y ∈ ys → ∃ x, x ∈ xs ∧ R x y.
Proof.
  intros HF (i & Hi)%list_elem_of_lookup.
  destruct (Forall2_lookup_r _ _ _ _ _ HF Hi) as (x & Hx & HR).
  exists x. split; [|done]. by eapply list_elem_of_lookup_2.
Qed.

(** With unique keys on the left, each left element has exactly one
    partner carrying its key. *)
Lemma Forall2_once xs ys x :
  Forall2 R xs ys → NoDup (key <$> xs) → x ∈ xs →
  ∃ y, filter (λ b, key' b = key x) ys = [y] ∧ R x y.
Proof.
  induction 1 as [|a b xs ys HR HF IH]; intros Hnd Hx;
    [by apply elem_of_nil in Hx|].
  rewrite fmap_cons in Hnd. apply NoDup_cons in Hnd as [Ha Hnd].
  assert (∀ x', x' ∈ xs → key x' ≠ key a) as Hfresh.
  { intros x' Hx' Heq. apply Ha. rewrite <-Heq. by apply list_elem_of_fmap_2. }
  apply elem_of_cons in Hx as [->|Hx].
  - exists b. split; [|done].
    rewrite filter_cons_True by eauto. f_equal.
    apply filter_none. intros b' Hb' Hk.
    destruct (Forall2_elem_r _ _ _ HF Hb') as (x' & Hx' & HR').
    rewrite (key_R _ _ HR') in Hk. by apply (Hfresh x').
  - destruct (IH Hnd Hx) as (y & Hy & HRy). exists y. split; [|done].
    rewrite filter_cons_False; [done|].
    rewrite (key_R _ _ HR). intros Heq. by apply (Hfresh x).
Qed.

End Forall2Keys.

(** ** The audit report *)

Lemma index_receipts_from (m : gmap string (list Receipt.t)) rs k :
  default []
    (fold_left
       (λ (m : gmap string (list Receipt.t)) receipt,
          let k := Receipt.billNumber receipt in
          let m := if bool_decide (is_Some (m !! k)) then m else <[k := []]> m in
          alter (λ l, l ++ [receipt]) k m)
       rs m !! k)
  = default [] (m !! k) ++ filter (λ r, Receipt.billNumber r = k) rs.
Proof.
  revert m. induction rs as [|r rs IH]; intros m; simpl.
  - by rewrite app_nil_r.
  - rewrite IH, filter_cons. clear IH.
    destruct (decide (Receipt.billNumber r = k)) as [->|Hne].
    + rewrite lookup_alter_eq. case_bool_decide as Hsome.
      * destruct Hsome as [l Hl]. rewrite Hl. simpl.
        by rewrite <-app_assoc.
      * rewrite lookup_insert_eq.
        apply eq_None_not_Some in Hsome. by rewrite Hsome.
    + rewrite lookup_alter_ne by done. f_equal.
      case_bool_decide; [done|]. by rewrite lookup_insert_ne.
Qed.

(** The index returns, for a bill number, the receipts carrying it, in
    collection order. *)
Lemma index_receipts_lookup rs k :
  default [] (index_receipts rs !! k)
  = filter (λ r, Receipt.billNumber r = k) rs.
Proof. unfold index_receipts. by rewrite index_receipts_from, lookup_empty. Qed.

Lemma audit_zero_fold bill rs report :
  let report' := fold_left (audit_zero bill) rs report in
  billsWithoutReceipts report' = billsWithoutReceipts report ∧
  zeroAmountReceipts report'
  = zeroAmountReceipts report ++
      (if bool_decide (0 < Payment.paid (Bill.payment bill))%Z
       then zero_entry bill <$> filter (λ r, Receipt.amount r ≤ 0)%Z rs
       else []).
Proof.
  revert report. induction rs as [|r rs IH]; intros report; simpl.
  - split; [done|]. case_bool_decide; by rewrite app_nil_r.
  - destruct (IH (audit_zero bill report r)) as [-> ->]. clear IH.
    unfold audit_zero. rewrite filter_cons.
    case_bool_decide as Hamt; case_bool_decide as Hpaid; simpl;
      rewrite ?decide_True, ?decide_False by done; try done.
    split; [done|]. by rewrite <-app_assoc.
Qed.

Lemma audit_bill_lists idx report bill :
  let rs := default [] (idx !! Bill.billNumber bill) in
  billsWithoutReceipts (audit_bill idx report bill)
  = billsWithoutReceipts report ++
      (if bool_decide (length rs = 0)
          && bool_decide (0 < Payment.paid (Bill.payment bill))%Z
       then [missing_entry bill] else []) ∧
  zeroAmountReceipts (audit_bill idx report bill)
  = zeroAmountReceipts report ++
      (if bool_decide (0 < Payment.paid (Bill.payment bill))%Z
       then zero_entry bill <$> filter (λ r, Receipt.amount r ≤ 0)%Z rs
       else []).
Proof.
  intros rs. unfold audit_bill. cbv zeta. fold rs.
  remember (if bool_decide (length rs = 0) && _ then _ else report)
    as report1 eqn:Hreport1.
  destruct (audit_zero_fold bill rs report1) as [Hbw Hza].
  assert (billsWithoutReceipts report1
          = billsWithoutReceipts report ++
              (if bool_decide (length rs = 0)
                  && bool_decide (0 < Payment.paid (Bill.payment bill))%Z
               then [missing_entry bill] else []) ∧
          zeroAmountReceipts report1 = zeroAmountReceipts report) as [H1 H2].
  { rewrite Hreport1. destruct (_ && _); simpl; [done|]. by rewrite app_nil_r. }
  destruct (bool_decide (1 < _)); simpl; by rewrite Hbw, Hza, H1, H2.
Qed.

Lemma audit_bills_fold idx bs report :
  let report' := fold_left (audit_bill idx) bs report in
  billsWithoutReceipts report'
  = billsWithoutReceipts report ++
      (bs ≫= λ bill,
         if bool_decide (length (default [] (idx !! Bill.billNumber bill)) = 0)
            && bool_decide (0 < Payment.paid (Bill.payment bill))%Z
         then [missing_entry bill] else []) ∧
  zeroAmountReceipts report'
  = zeroAmountReceipts report ++
      (bs ≫= λ bill,
         if bool_decide (0 < Payment.paid (Bill.payment bill))%Z
         then zero_entry bill
                <$> filter (λ r, Receipt.amount r ≤ 0)%Z
                      (default [] (idx !! Bill.billNumber bill))
         else []).
Proof.
  revert report. induction bs as [|b bs IH]; intros report; simpl.
  - by rewrite !app_nil_r.
  - destruct (IH (audit_bill idx report b)) as [-> ->].
    destruct (audit_bill_lists idx report b) as [-> ->].
    by rewrite <-!app_assoc.
Qed.

Lemma audit_orphans_fold billNumbers rs report :
  let report' := fold_left (audit_orphan billNumbers) rs report in
  billsWithoutReceipts report' = billsWithoutReceipts report ∧
  zeroAmountReceipts report' = zeroAmountReceipts report.
Proof.
  revert report. induction rs as [|r rs IH]; intros report; simpl; [done|].
  destruct (IH (audit_orphan billNumbers report r)) as [-> ->].
  unfold audit_orphan. by destruct (negb _).
Qed.

(** A bill is reported as being without receipts exactly when it has a
    positive paid amount and no receipt carries its bill number. *)
Lemma audit_billsWithoutReceipts bs rs e :
  e ∈ billsWithoutReceipts (audit bs rs) ↔
  ∃ bill, bill ∈ bs ∧
          (∀ r, r ∈ rs → Receipt.billNumber r ≠ Bill.billNumber bill) ∧
          (0 < Payment.paid (Bill.payment bill))%Z ∧
          e = missing_entry bill.
Proof.
  unfold audit.
  destruct (audit_orphans_fold
              (list_to_set (Bill.billNumber <$> bs)) rs
              (fold_left (audit_bill (index_receipts rs)) bs
                 {| totalBills := length bs; totalReceipts := length rs;
                    billsWithoutReceipts := []; zeroAmountReceipts := [];
                    duplicateReceipts := []; orphanedReceipts := [] |}))
    as [-> _].
  destruct (audit_bills_fold (index_receipts rs) bs
              {| totalBills := length bs; totalReceipts := length rs;
                 billsWithoutReceipts := []; zeroAmountReceipts := [];
                 duplicateReceipts := []; orphanedReceipts := [] |})
    as [-> _].
  simpl. rewrite list_elem_of_bind. split.
  - intros (bill & He & Hb). rewrite index_receipts_lookup in He.
    case_bool_decide as Hlen; case_bool_decide as Hpaid; simpl in He;
      try by apply elem_of_nil in He.
    apply list_elem_of_singleton in He. exists bill. repeat split; try done.
    intros r Hr Heq. apply length_zero_iff_nil in Hlen.
    by apply (filter_nil_not_elem_of _ _ r Hlen Heq).
  - intros (bill & Hb & Hno & Hpaid & ->). exists bill. split; [|done].
    rewrite index_receipts_lookup, filter_none by done. simpl.
    rewrite bool_decide_eq_true_2 by done. by left.
Qed.

(** A receipt is reported with a zero amount exactly when its amount is
    not positive and a bill with a positive paid amount carries its bill
    number. *)
Lemma audit_zeroAmountReceipts bs rs e :
  e ∈ zeroAmountReceipts (audit bs rs) ↔
  ∃ bill r, bill ∈ bs ∧ r ∈ rs ∧
            Receipt.billNumber r = Bill.billNumber bill ∧
            (Receipt.amount r ≤ 0)%Z ∧
            (0 < Payment.paid (Bill.payment bill))%Z ∧
            e = zero_entry bill r.
Proof.
  unfold audit.
  destruct (audit_orphans_fold
              (list_to_set (Bill.billNumber <$> bs)) rs
              (fold_left (audit_bill (index_receipts rs)) bs
                 {| totalBills := length bs; totalReceipts := length rs;
                    billsWithoutReceipts := []; zeroAmountReceipts := [];
                    duplicateReceipts := []; orphanedReceipts := [] |}))
    as [_ ->].
  destruct (audit_bills_fold (index_receipts rs) bs
              {| totalBills := length bs; totalReceipts := length rs;
                 billsWithoutReceipts := []; zeroAmountReceipts := [];
                 duplicateReceipts := []; orphanedReceipts := [] |})
    as [_ ->].
  simpl. rewrite list_elem_of_bind. split.
  - intros (bill & He & Hb). rewrite index_receipts_lookup in He.
    case_bool_decide as Hpaid; [|by apply elem_of_nil in He].
    apply list_elem_of_fmap in He as (r & -> & Hr).
    apply list_elem_of_filter in Hr as [Hamt Hr].
    apply list_elem_of_filter in Hr as [Hbn Hr].
    by exists bill, r.
  - intros (bill & r & Hb & Hr & Hbn & Hamt & Hpaid & ->).
    exists bill. split; [|done].
    rewrite bool_decide_eq_true_2 by done.
    apply list_elem_of_fmap_2. rewrite index_receipts_lookup.
    by rewrite !list_elem_of_filter.
Qed.

(** ** Resolving the owning bill, and the correction rules *)

Lemma find_by_key {K} `{!EqDecision K} (key : Bill.t → K) bs bill :
  NoDup (key <$> bs) → bill ∈ bs →
  List.find (λ b, bool_decide (key b = key bill)) bs = Some bill.
Proof.
  induction bs as [|b bs IH]; intros Hnd Hb; [by apply elem_of_nil in Hb|].
  rewrite fmap_cons in Hnd. apply NoDup_cons in Hnd as [Hfresh Hnd]. simpl.
  apply elem_of_cons in Hb as [->|Hb].
  - by rewrite bool_decide_eq_true_2.
  - rewrite bool_decide_eq_false_2; [by apply IH|].
    intros Heq. apply Hfresh. rewrite Heq. by apply list_elem_of_fmap_2.
Qed.

Lemma find_no_key {K} `{!EqDecision K} (key : Bill.t → K) bs k :
  (∀ b, b ∈ bs → key b ≠ k) →
  List.find (λ b, bool_decide (key b = k)) bs = None.
Proof.
  induction bs as [|b bs IH]; intros Hno; [done|]. simpl.
  rewrite bool_decide_eq_false_2 by (apply Hno; by left).
  apply IH. intros b' Hb'. apply Hno. by right.
Qed.

Lemma guarded_Some (q : Receipt.t → Prop) `{!∀ r, Decision (q r)} corr r a :
  guarded q corr r = Some a → q r ∧ corr r = Some a.
Proof. unfold guarded. by destruct (decide (q r)). Qed.

Lemma guarded_True (q : Receipt.t → Prop) `{!∀ r, Decision (q r)} corr r :
  q r → guarded q corr r = corr r.
Proof. intros Hq. unfold guarded. by rewrite decide_True. Qed.

Lemma applicable_None c r : (c ≤ 0)%Z → applicable c r = None.
Proof.
  intros Hc. unfold applicable.
  by rewrite bool_decide_eq_false_2 by lia.
Qed.

Lemma applicable_owed c r :
  (0 < c)%Z → c ≠ Receipt.amount r → applicable c r = Some c.
Proof.
  intros Hc Hne. unfold applicable.
  by rewrite bool_decide_eq_true_2, bool_decide_eq_false_2.
Qed.

Lemma correctAmount_zero_owner bs r bill :
  List.find (λ b, bool_decide (Bill._id b = Receipt.billingId r)) bs
  = Some bill →
  Receipt.type r = "creation" ∨ Receipt.type r = "cancellation" →
  correctAmount_zero bs r = Some (Payment.paid (Bill.payment bill)).
Proof.
  intros Hfind Htype. unfold correctAmount_zero. rewrite Hfind.
  destruct Htype as [Ht|Ht]; rewrite Ht; done.
Qed.

Lemma correctAmount_zero_payment bs r :
  Receipt.type r = "payment" → correctAmount_zero bs r = None.
Proof.
  intros Ht. unfold correctAmount_zero. rewrite Ht.
  by destruct (List.find _ bs).
Qed.

Lemma correctAmount_bill_owner billing r :
  Receipt.type r = "creation" ∨ Receipt.type r = "cancellation" →
  correctAmount_bill billing r = Payment.paid (Bill.payment billing).
Proof.
  intros Htype. unfold correctAmount_bill.
  destruct Htype as [Ht|Ht]; rewrite Ht; done.
Qed.

Lemma correction_zero_Some bs r a :
  correction_zero bs r = Some a →
  correctAmount_zero bs r = Some a ∧ (0 < a)%Z ∧ a ≠ Receipt.amount r.
Proof.
  unfold correction_zero. destruct (correctAmount_zero bs r) as [c|]; [|done].
  simpl. by intros (-> & ? & ?)%applicable_Some.
Qed.

Lemma correction_bill_Some billing r a :
  correction_bill billing r = Some a →
  correctAmount_bill billing r = a ∧ (0 < a)%Z ∧ a ≠ Receipt.amount r.
Proof.
  unfold correction_bill. by intros (-> & ? & ?)%applicable_Some.
Qed.

Lemma set_amount_same r : Receipt.set_amount (Receipt.amount r) r = r.
Proof. by destruct r. Qed.

(** ** The audit report in closed form *)

Lemma audit_zero_fold_eq bill rs report :
  fold_left (audit_zero bill) rs report
  = {| totalBills := totalBills report;
       totalReceipts := totalReceipts report;
       billsWithoutReceipts := billsWithoutReceipts report;
       zeroAmountReceipts :=
         zeroAmountReceipts report ++
           (if bool_decide (0 < Payment.paid (Bill.payment bill))%Z
            then zero_entry bill <$> filter (λ r, Receipt.amount r ≤ 0)%Z rs
            else []);
       duplicateReceipts := duplicateReceipts report;
       orphanedReceipts := orphanedReceipts report |}.
Proof.
  revert report. induction rs as [|r rs IH]; intros report; simpl.
  - destruct report. simpl. case_bool_decide; by rewrite app_nil_r.
  - rewrite IH. clear IH. unfold audit_zero. rewrite filter_cons.
    case_bool_decide as Hamt; case_bool_decide as Hpaid; simpl;
      rewrite ?decide_True, ?decide_False by done; try done.
    by rewrite <-app_assoc.
Qed.

Lemma audit_bill_eq rs report bill :
  audit_bill (index_receipts rs) report bill
  = {| totalBills := totalBills report;
       totalReceipts := totalReceipts report;
       billsWithoutReceipts :=
         billsWithoutReceipts report ++
           (if bool_decide (length (receipts_of rs bill) = 0)
               && bool_decide (0 < Payment.paid (Bill.payment bill))%Z
            then [missing_entry bill] else []);
       zeroAmountReceipts :=
         zeroAmountReceipts report ++
           (if bool_decide (0 < Payment.paid (Bill.payment bill))%Z
            then zero_entry bill
                   <$> filter (λ r, Receipt.amount r ≤ 0)%Z (receipts_of rs bill)
            else []);
       duplicateReceipts :=
         duplicateReceipts report ++
           (if bool_decide (1 < length (creations_of rs bill))
            then [duplicate_entry rs bill] else []);
       orphanedReceipts := orphanedReceipts report |}.
Proof.
  unfold audit_bill. cbv zeta. rewrite index_receipts_lookup.
  fold (receipts_of rs bill). fold (creations_of rs bill).
  rewrite audit_zero_fold_eq.
  destruct (bool_decide (1 < _)), (bool_decide (length _ = 0) && _);
    destruct report; simpl; by rewrite ?app_nil_r.
Qed.

Lemma audit_bills_fold_eq rs bs report :
  fold_left (audit_bill (index_receipts rs)) bs report
  = {| totalBills := totalBills report;
       totalReceipts := totalReceipts report;
       billsWithoutReceipts :=
         billsWithoutReceipts report ++
           (bs ≫= λ bill,
              if bool_decide (length (receipts_of rs bill) = 0)
                 && bool_decide (0 < Payment.paid (Bill.payment bill))%Z
              then [missing_entry bill] else []);
       zeroAmountReceipts :=
         zeroAmountReceipts report ++
           (bs ≫= λ bill,
              if bool_decide (0 < Payment.paid (Bill.payment bill))%Z
              then zero_entry bill
                     <$> filter (λ r, Receipt.amount r ≤ 0)%Z
                           (receipts_of rs bill)
              else []);
       duplicateReceipts :=
         duplicateReceipts report ++
           (bs ≫= λ bill,
              if bool_decide (1 < length (creations_of rs bill))
              then [duplicate_entry rs bill] else []);
       orphanedReceipts := orphanedReceipts report |}.
Proof.
  revert report. induction bs as [|b bs IH]; intros report; simpl.
  - destruct report. simpl. by rewrite !app_nil_r.
  - rewrite IH, audit_bill_eq. simpl. by rewrite <-!app_assoc.
Qed.

Lemma audit_orphans_fold_eq billNumbers rs report :
  fold_left (audit_orphan billNumbers) rs report
  = {| totalBills := totalBills report;
       totalReceipts := totalReceipts report;
       billsWithoutReceipts := billsWithoutReceipts report;
       zeroAmountReceipts := zeroAmountReceipts report;
       duplicateReceipts := duplicateReceipts report;
       orphanedReceipts :=
         orphanedReceipts report ++
           (orphan_entry
              <$> filter (λ r, Receipt.billNumber r ∉ billNumbers) rs) |}.
Proof.
  revert report. induction rs as [|r rs IH]; intros report; simpl.
  - destruct report. simpl. by rewrite app_nil_r.
  - rewrite IH. clear IH. unfold audit_orphan. rewrite filter_cons.
    case_bool_decide as Hin; simpl.
    + by rewrite decide_False by (by intros ?).
    + rewrite decide_True by done. simpl. by rewrite <-app_assoc.
Qed.

Lemma bind_if_singleton {A B} (P : A → Prop) `{!∀ x, Decision (P x)}
    (c : A → bool) (f : A → B) (l : list A) :
  (∀ x, c x = true ↔ P x) →
  (l ≫= λ x, if c x then [f x] else []) = f <$> filter P l.
Proof.
  intros Hc. induction l as [|x l IH]; [done|].
  rewrite bind_cons, filter_cons, IH.
  destruct (c x) eqn:Hcx.
  - rewrite decide_True by by apply Hc. done.
  - rewrite decide_False; [done|]. intros HP%Hc. congruence.
Qed.

Lemma bind_if_filter {A B} (P : A → Prop) `{!∀ x, Decision (P x)}
    (f : A → list B) (l : list A) :
  (l ≫= λ x, if bool_decide (P x) then f x else []) = filter P l ≫= f.
Proof.
  induction l as [|x l IH]; [done|].
  rewrite bind_cons, filter_cons, IH. case_bool_decide.
  - by rewrite decide_True.
  - by rewrite decide_False.
Qed.

(** The whole report, list by list. *)
Lemma audit_closed_form bs rs :
  audit bs rs
  = {| totalBills := length bs;
       totalReceipts := length rs;
       billsWithoutReceipts :=
         missing_entry
           <$> filter (λ b, 0 < Payment.paid (Bill.payment b))%Z
                 (unreceipted {| bills := bs; receipts := rs |});
       zeroAmountReceipts :=
         bs ≫= λ bill,
           if bool_decide (0 < Payment.paid (Bill.payment bill))%Z
           then zero_entry bill
                  <$> filter (λ r, Receipt.amount r ≤ 0)%Z (receipts_of rs bill)
           else [];
       duplicateReceipts :=
         duplicate_entry rs
           <$> filter (λ bill, 1 < length (creations_of rs bill)) bs;
       orphanedReceipts :=
         orphan_entry
           <$> filter
                 (λ r, Receipt.billNumber r ∉
                         (list_to_set (Bill.billNumber <$> bs) : gset string))
                 rs |}.
Proof.
  unfold audit. rewrite audit_orphans_fold_eq, audit_bills_fold_eq. simpl.
  f_equal.
  - unfold unreceipted. simpl. rewrite list_filter_filter.
    apply bind_if_singleton. intros b.
    rewrite andb_true_iff, !bool_decide_eq_true, elem_of_list_to_set.
    rewrite length_zero_iff_nil. unfold receipts_of. split.
    + intros [Hnil Hpaid]. split; [done|].
      intros (r & Heq & Hr)%list_elem_of_fmap.
      by apply (filter_nil_not_elem_of _ _ r Hnil).
    + intros [Hpaid Hno]. split; [|done]. apply filter_none.
      intros r Hr Heq. apply Hno, list_elem_of_fmap. by exists r.
  - apply bind_if_singleton. intros b. by rewrite bool_decide_eq_true.
Qed.

(** * The claims *)

Lemma first_fault_absurd faults n e w :
  (∀ k, faults k = None) → ¬ first_fault faults n e w.
Proof. intros Hq (k & _ & _ & Hk & _). by rewrite Hq in Hk. Qed.

Lemma first_fault_unique faults n e w k msg :
  first_fault faults n e w → n ≤ k < ops w → faults k = Some msg → e = msg.
Proof.
  intros (k' & Hops & Hn & Hk' & Hq) Hk Hmsg.
  destruct (decide (k = k')) as [->|Hne]; [congruence|].
  rewrite Hq in Hmsg by lia. done.
Qed.

Lemma quiet_absurd faults n m k msg :
  quiet faults n m → n ≤ k < m → faults k ≠ Some msg.
Proof. intros Hq Hk Hmsg. by rewrite Hq in Hmsg. Qed.

(** When the failing call is the last one and a commit attempt, it is the
    call to commitTransaction. *)
Lemma first_fault_commit faults n e w k msg :
  first_fault faults n e w → commit_attempted w →
  n ≤ k < ops w → faults k = Some msg → commit_call w = Some k.
Proof.
  intros (k' & Hops & Hn & Hk' & Hq) (k'' & Hops' & Hc) Hk Hmsg.
  destruct (decide (k = k')) as [->|Hne]; [|by rewrite Hq in Hmsg by lia].
  rewrite Hc. f_equal. lia.
Qed.

Lemma rejected_absurd faults w out w' :
  (∀ k, faults k = None) → ¬ rejected_by_commit faults w out w'.
Proof. intros Hq (_ & _ & k & e & _ & _ & _ & Hk). by rewrite Hq in Hk. Qed.

Lemma answers_quiet faults w out w' :
  (∀ k, faults k = None) → answers_unless_commit_fails faults w out w' →
  ∃ resp, out = Ok resp.
Proof. intros Hq [?|Hr]; [done|]. by apply rejected_absurd in Hr. Qed.

Section Claims.

Variable faults : nat → option string.
Variable uuidv4 : nat → string.
Variable newObjectId : nat → ObjectId.

(** C1.  When storage does not fail, createMissingReceipts answers 200 and
    appends to the receipts exactly the receipts [created]: one per paid
    bill that no receipt refers to, in order, each of type "creation" with
    the bill's paid amount, bill number, payment method, status and date;
    createdCount is their number.  With unique bill numbers, such a bill
    gets exactly one new receipt carrying its number. *)
Theorem createMissingReceipts_creates_one_receipt_per_unreceipted_paid_bill
    (w : World) (bill : Bill.t) :
  (∀ k, faults k = None) →
  NoDup (Bill.billNumber <$> bills (db w)) →
  bill ∈ bills (db w) →
  (0 < Payment.paid (Bill.payment bill))%Z →
  (∀ r, r ∈ receipts (db w) → Receipt.billNumber r ≠ Bill.billNumber bill) →
  ∃ created message w' r,
    createMissingReceipts faults uuidv4 newObjectId w
    = (Ok (json 200 (CreatedBody message (length created)
                       (length (bills (db w))) true)), w') ∧
    bills (db w') = bills (db w) ∧
    receipts (db w') = receipts (db w) ++ created ∧
    Forall2 created_for
      (filter (λ b, 0 < Payment.paid (Bill.payment b))%Z (unreceipted (db w)))
      created ∧
    filter (λ r, Receipt.billNumber r = Bill.billNumber bill) created = [r] ∧
    created_for bill r.
Proof.
  intros Hquiet Hnd Hbill Hpaid Hnone.
  destruct (createMissingReceipts_run faults uuidv4 newObjectId w)
    as (out & w' & Hrun & [[(Hdb & _) ->]|(e & (_ & _ & Hf & _) & _)]);
    [|by apply first_fault_absurd in Hf].
  pose proof (synthesize_Forall2 uuidv4 newObjectId (minted w)
                (unreceipted (db w))) as HF.
  destruct (Forall2_once created_for Bill.billNumber Receipt.billNumber
              (λ a b H, proj1 (proj2 (proj2 H))) _ _ bill HF) as (r & Hr & Hcr).
  { unfold unreceipted. by do 2 apply NoDup_fmap_filter. }
  { apply list_elem_of_filter. split; [done|]. by apply elem_of_unreceipted. }
  eexists _, _, w', r. split; [exact Hrun|]. rewrite Hdb. by simpl.
Qed.

(** C2, as the code has it.  The bills classified as missing a receipt are
    exactly the bills with a positive paid amount whose bill number no
    receipt of any type carries.  When storage does not fail, the audit
    report's billsWithoutReceipts list holds one entry for each of them and
    nothing else, in the order of the bills, and createMissingReceipts
    appends one creation receipt for each of them and nothing else, in the
    same order.  A bill whose number some receipt carries, of whatever
    type, is not among them: no entry of the list and no created receipt
    carries its number. *)
Theorem unreceipted_paid_bill_is_reported_and_repaired (w : World) :
  (∀ k, faults k = None) →
  (∀ bill,
     bill ∈ filter (λ b, 0 < Payment.paid (Bill.payment b))%Z
              (unreceipted (db w)) ↔
     bill ∈ bills (db w) ∧
     (0 < Payment.paid (Bill.payment bill))%Z ∧
     ∀ r, r ∈ receipts (db w) →
          Receipt.billNumber r ≠ Bill.billNumber bill) ∧
  (∃ message report w',
     getReceiptAuditReport faults w
     = (Ok (json 200 (ReportBody message report true)), w') ∧
     billsWithoutReceipts report
     = missing_entry
         <$> filter (λ b, 0 < Payment.paid (Bill.payment b))%Z
               (unreceipted (db w)) ∧
     ∀ r e, r ∈ receipts (db w) → e ∈ billsWithoutReceipts report →
            bw_billNumber e ≠ Receipt.billNumber r) ∧
  (∃ created message n w',
     createMissingReceipts faults uuidv4 newObjectId w
     = (Ok (json 200 (CreatedBody message (length created) n true)), w') ∧
     receipts (db w') = receipts (db w) ++ created ∧
     Forall2 created_for
       (filter (λ b, 0 < Payment.paid (Bill.payment b))%Z (unreceipted (db w)))
       created ∧
     ∀ r r', r ∈ receipts (db w) → r' ∈ created →
             Receipt.billNumber r' ≠ Receipt.billNumber r).
Proof.
  intros Hquiet.
  assert (∀ bill,
     bill ∈ filter (λ b, 0 < Payment.paid (Bill.payment b))%Z
              (unreceipted (db w)) ↔
     bill ∈ bills (db w) ∧
     (0 < Payment.paid (Bill.payment bill))%Z ∧
     ∀ r, r ∈ receipts (db w) →
          Receipt.billNumber r ≠ Bill.billNumber bill) as Hcand.
  { intros bill. rewrite list_elem_of_filter, elem_of_unreceipted. tauto. }
  split; [done|]. split.
  - destruct (getReceiptAuditReport_run faults w)
      as (resp & w' & Hrun & _ & _ & [[_ ->]|(e & Hf & _)]);
      [|by apply first_fault_absurd in Hf].
    eexists _, _, w'. split; [exact Hrun|].
    rewrite audit_closed_form. simpl. rewrite store_eta. split; [done|].
    intros r e Hr (b & -> & Hb)%list_elem_of_fmap Heq.
    apply Hcand in Hb as (_ & _ & Hno). by apply (Hno r).
  - destruct (createMissingReceipts_run faults uuidv4 newObjectId w)
      as (out & w' & Hrun & [[(Hdb & _) ->]|(e & (_ & _ & Hf & _) & _)]);
      [|by apply first_fault_absurd in Hf].
    pose proof (synthesize_Forall2 uuidv4 newObjectId (minted w)
                  (unreceipted (db w))) as HF.
    eexists _, _, _, w'. split; [exact Hrun|]. rewrite Hdb. simpl.
    split; [done|]. split; [done|].
    intros r r' Hr Hr' Heq.
    destruct (Forall2_elem_r created_for _ _ r' HF Hr') as (b & Hb & Hcr).
    apply Hcand in Hb as (_ & _ & Hno). apply (Hno r Hr).
    rewrite <-Heq. apply Hcr.
Qed.

(** C3.  After a pass of createMissingReceipts that answered 200, a second
    pass over the state the first one left creates nothing: the ledgers
    stay as they are, and a 200 answer reports createdCount = 0.  The
    second pass answers 200 when storage does not fail; it answers in any
    case, unless its commitTransaction call fails. *)
Theorem createMissingReceipts_second_pass_creates_nothing
    (w w1 : World) (resp1 : Response) :
  createMissingReceipts faults uuidv4 newObjectId w = (Ok resp1, w1) →
  status resp1 = 200 →
  ∃ out2 w2,
    createMissingReceipts faults uuidv4 newObjectId w1 = (out2, w2) ∧
    db w2 = db w1 ∧
    (∀ resp2, out2 = Ok resp2 → status resp2 = 200 →
     ∃ message n, body resp2 = CreatedBody message 0 n true) ∧
    ((∀ k, faults k = None) → ∃ resp2, out2 = Ok resp2 ∧ status resp2 = 200) ∧
    answers_unless_commit_fails faults w1 out2 w2.
Proof.
  intros Hrun1 Hok1.
  destruct (createMissingReceipts_run faults uuidv4 newObjectId w)
    as (out & w' & Hrun & Hcases).
  rewrite Hrun1 in Hrun. injection Hrun as <- <-.
  destruct Hcases as [[(Hdb & _) _]|(e & _ & [[Heq _]|[Heq _]])];
    [| |done]; [|injection Heq as ->; done].
  assert (synthesize uuidv4 newObjectId (minted w1) (unreceipted (db w1)) = [])
    as Hnil.
  { apply synthesize_unpaid. intros b [Hb Hno]%elem_of_unreceipted Hpaid.
    rewrite Hdb in Hb, Hno. simpl in Hb, Hno.
    pose proof (synthesize_Forall2 uuidv4 newObjectId (minted w)
                  (unreceipted (db w))) as HF.
    destruct (Forall2_elem_l created_for _ _ b HF) as (r & Hr & Hcr).
    { apply list_elem_of_filter. split; [done|].
      apply elem_of_unreceipted. split; [done|].
      intros r Hr. apply Hno, elem_of_app. by left. }
    apply (Hno r); [apply elem_of_app; by right | apply Hcr]. }
  destruct (createMissingReceipts_run faults uuidv4 newObjectId w1)
    as (out2 & w2 & Hrun2 &
        [[(Hdb2 & _) ->]|(e & (Hdb2 & Ht2 & Hf & Hw2) & Hout)]).
  - eexists _, w2. split; [exact Hrun2|]. rewrite Hnil in *.
    split; [|split; [|split]].
    + rewrite Hdb2, app_nil_r. by destruct (db w1).
    + intros resp2 [= <-] _. simpl. eauto.
    + intros _. eauto.
    + left. eauto.
  - eexists _, w2. split; [exact Hrun2|]. split; [done|].
    split; [|split].
    + intros resp2 Heq Hst. destruct Hout as [[-> _]|[-> _]]; [|done].
      injection Heq as <-. done.
    + intros Hq. by apply first_fault_absurd in Hf.
    + destruct Hout as [[-> _]|[-> Hc]]; [left; by eauto|right].
      by eapply first_fault_rejected.
Qed.

(** C4, as the code has it.  A receipt of type creation or cancellation
    whose owning bill has a positive paid amount is corrected to that
    amount, and reported exactly once with its old and new amount,
    (a) by fixZeroAmountReceipts when its amount is zero or negative, the
    owning bill being the one its billingId names;
    (b) by fixSpecificBillReceipt for the bill number it carries when its
    amount differs from the paid amount, the owning bill being the one
    with that number. *)
Theorem fix_corrects_amount_to_paid :
  (∀ (w : World) (i : nat) (r : Receipt.t) (bill : Bill.t),
     (∀ k, faults k = None) →
     unique_receipts (receipts (db w)) →
     NoDup (Bill._id <$> bills (db w)) →
     receipts (db w) !! i = Some r →
     bill ∈ bills (db w) →
     Bill._id bill = Receipt.billingId r →
     Receipt.type r = "creation" ∨ Receipt.type r = "cancellation" →
     (Receipt.amount r ≤ 0)%Z →
     (0 < Payment.paid (Bill.payment bill))%Z →
     ∃ resp w',
       fixZeroAmountReceipts faults w = (Ok resp, w') ∧
       status resp = 200 ∧
       receipts (db w') !! i
       = Some (Receipt.set_amount (Payment.paid (Bill.payment bill)) r) ∧
       filter (λ e, e.1.1 = Receipt.receiptNumber r) (fixed_records resp)
       = [(Receipt.receiptNumber r, Receipt.amount r,
           Payment.paid (Bill.payment bill))]) ∧
  (∀ (w : World) (i : nat) (r : Receipt.t) (bill : Bill.t),
     (∀ k, faults k = None) →
     unique_receipts (receipts (db w)) →
     NoDup (Bill.billNumber <$> bills (db w)) →
     receipts (db w) !! i = Some r →
     bill ∈ bills (db w) →
     Bill.billNumber bill = Receipt.billNumber r →
     Receipt.type r = "creation" ∨ Receipt.type r = "cancellation" →
     Receipt.amount r ≠ Payment.paid (Bill.payment bill) →
     (0 < Payment.paid (Bill.payment bill))%Z →
     ∃ resp w',
       fixSpecificBillReceipt faults (Receipt.billNumber r) w = (Ok resp, w') ∧
       status resp = 200 ∧
       receipts (db w') !! i
       = Some (Receipt.set_amount (Payment.paid (Bill.payment bill)) r) ∧
       filter (λ e, e.1.1 = Receipt.receiptNumber r) (fixed_records resp)
       = [(Receipt.receiptNumber r, Receipt.amount r,
           Payment.paid (Bill.payment bill))]).
Proof.
  split.
  - intros w i r bill Hquiet [Hids Hnums] Hbills Hr Hbill Hown Htype Hamt Hpaid.
    destruct (fixZeroAmountReceipts_effect faults w Hids)
      as (out & w' & corr & Hrun & Hres & _ & _ & _ &
          [(-> & _ & msg & fixed & n & ->)|(_ & e & Hf & _)]);
      [|by apply first_fault_absurd in Hf].
    assert (guarded (λ r, Receipt.amount r ≤ 0)%Z
              (correction_zero (bills (db w))) r
            = Some (Payment.paid (Bill.payment bill))) as Hcorr.
    { rewrite guarded_True by done. unfold correction_zero.
      rewrite (correctAmount_zero_owner _ _ bill); [|by rewrite <-Hown;
        apply (find_by_key Bill._id)|done].
      simpl. apply applicable_owed; [done|lia]. }
    eexists _, w'. split; [exact Hrun|]. split; [done|]. split.
    + by eapply fix_result_corrected.
    + eapply (fix_result_listed_once _ _ _ _ Hres);
        eauto using list_elem_of_lookup_2.
  - intros w i r bill Hquiet [Hids Hnums] Hbills Hr Hbill Hown Htype Hamt Hpaid.
    assert (List.find
              (λ b, bool_decide (Bill.billNumber b = Receipt.billNumber r))
              (bills (db w)) = Some bill) as Hfind.
    { rewrite <-Hown. by apply (find_by_key Bill.billNumber). }
    destruct (fixSpecificBillReceipt_effect faults (Receipt.billNumber r) w Hids)
      as (out & w' & corr & Hrun & Hres & _ & _ & _ &
          [(billing & Hfind' & -> & _ & msg & fixed & ->)
          |[(Hfind' & _)|(_ & e & Hf & _)]]);
      [|congruence|by apply first_fault_absurd in Hf].
    assert (billing = bill) as -> by congruence.
    assert (guarded (λ r', Receipt.billNumber r' = Receipt.billNumber r)
              (correction_bill bill) r
            = Some (Payment.paid (Bill.payment bill))) as Hcorr.
    { rewrite guarded_True by done. unfold correction_bill.
      rewrite correctAmount_bill_owner by done.
      by apply applicable_owed. }
    eexists _, w'. split; [exact Hrun|]. split; [done|]. split.
    + by eapply fix_result_corrected.
    + eapply (fix_result_listed_once _ _ _ _ Hres);
        eauto using list_elem_of_lookup_2.
Qed.

(** C5.  Neither fix handler writes an amount that is zero or negative:
    every amount update they issue is positive, a receipt whose stored
    record changes ends with a positive amount, and a receipt whose
    computed correct amount is zero or negative keeps its stored record and
    is not reported as fixed.  Storage may fail at any call; the handler
    answers unless its commitTransaction call fails, and then nothing is
    reported. *)
Theorem fix_never_writes_nonpositive_amount (w : World) (billNumber : string) :
  unique_receipts (receipts (db w)) →
  (∃ out w',
     fixZeroAmountReceipts faults w = (out, w') ∧
     answers_unless_commit_fails faults w out w' ∧
     issued positive_amount_only w w' ∧
     (∀ i r r', receipts (db w) !! i = Some r →
                receipts (db w') !! i = Some r' →
                r' = r ∨ (0 < Receipt.amount r')%Z) ∧
     (∀ i r c, receipts (db w) !! i = Some r →
               correctAmount_zero (bills (db w)) r = Some c → (c ≤ 0)%Z →
               receipts (db w') !! i = Some r ∧
               Receipt.receiptNumber r ∉ reported_numbers out)) ∧
  (∃ out w',
     fixSpecificBillReceipt faults billNumber w = (out, w') ∧
     answers_unless_commit_fails faults w out w' ∧
     issued positive_amount_only w w' ∧
     (∀ i r r', receipts (db w) !! i = Some r →
                receipts (db w') !! i = Some r' →
                r' = r ∨ (0 < Receipt.amount r')%Z) ∧
     (∀ i r billing,
        receipts (db w) !! i = Some r →
        List.find (λ b, bool_decide (Bill.billNumber b = billNumber))
          (bills (db w)) = Some billing →
        (correctAmount_bill billing r ≤ 0)%Z →
        receipts (db w') !! i = Some r ∧
        Receipt.receiptNumber r ∉ reported_numbers out)).
Proof.
  intros [Hids Hnums]. split.
  - destruct (fixZeroAmountReceipts_effect faults w Hids)
      as (out & w' & corr & Hrun & Hres & _ & Hissued & Hans & Hcorr).
    assert (∀ r a, corr r = Some a →
                   correctAmount_zero (bills (db w)) r = Some a ∧ (0 < a)%Z)
      as Hpos.
    { intros r a Hra. destruct Hcorr as [(-> & _)|(-> & _)]; [|done].
      apply guarded_Some in Hra as [_ Hra].
      by apply correction_zero_Some in Hra as (? & ? & _). }
    exists out, w'. split; [exact Hrun|]. split; [done|]. split; [done|]. split.
    + intros i r r' Hr Hr'.
      rewrite (fix_result_lookup _ _ _ _ Hres i r Hr) in Hr'.
      injection Hr' as <-. unfold fix_receipt.
      destruct (corr r) as [a|] eqn:Hra; [right|by left].
      by apply Hpos in Hra as [_ ?].
    + intros i r c Hr Hc Hle.
      assert (corr r = None) as Hnone.
      { destruct (corr r) as [a|] eqn:Hra; [|done].
        apply Hpos in Hra as [Hca ?]. rewrite Hc in Hca. injection Hca as <-.
        lia. }
      split; [by eapply fix_result_untouched|].
      eapply fix_result_unlisted; eauto using list_elem_of_lookup_2.
  - destruct (fixSpecificBillReceipt_effect faults billNumber w Hids)
      as (out & w' & corr & Hrun & Hres & _ & Hissued & Hans & Hcorr).
    assert (∀ r a, corr r = Some a →
                   (0 < a)%Z ∧
                   ∀ billing,
                     List.find
                       (λ b, bool_decide (Bill.billNumber b = billNumber))
                       (bills (db w)) = Some billing →
                     correctAmount_bill billing r = a) as Hpos.
    { intros r a Hra.
      destruct Hcorr as [(billing & Hfind & -> & _)|[(_ & -> & _)|(-> & _)]];
        [|done|done].
      apply guarded_Some in Hra as [_ Hra].
      apply correction_bill_Some in Hra as (Hc & ? & _).
      split; [done|]. intros billing' Hfind'. congruence. }
    exists out, w'. split; [exact Hrun|]. split; [done|]. split; [done|]. split.
    + intros i r r' Hr Hr'.
      rewrite (fix_result_lookup _ _ _ _ Hres i r Hr) in Hr'.
      injection Hr' as <-. unfold fix_receipt.
      destruct (corr r) as [a|] eqn:Hra; [right|by left].
      by apply Hpos in Hra as [? _].
    + intros i r billing Hr Hfind Hle.
      assert (corr r = None) as Hnone.
      { destruct (corr r) as [a|] eqn:Hra; [|done].
        apply Hpos in Hra as [? Hca]. rewrite (Hca _ Hfind) in Hle. lia. }
      split; [by eapply fix_result_untouched|].
      eapply fix_result_unlisted; eauto using list_elem_of_lookup_2.
Qed.

(** C7.  A receipt of type payment keeps its stored record under both fix
    handlers and is not reported as fixed, whatever storage does.  The pass
    is not cut short by it: when storage does not fail,
    fixZeroAmountReceipts answers 200 and fixSpecificBillReceipt answers
    200 when a bill carries the requested number (404 when none does), and
    in a pass that answered 200 every selected receipt the correction rule
    applies to is corrected and reported, wherever it stands in the
    collection. *)
Theorem fix_skips_payment_receipts
    (w : World) (billNumber : string) (i : nat) (r : Receipt.t) :
  unique_receipts (receipts (db w)) →
  receipts (db w) !! i = Some r →
  Receipt.type r = "payment" →
  (∃ out w',
     fixZeroAmountReceipts faults w = (out, w') ∧
     receipts (db w') !! i = Some r ∧
     (Receipt.receiptNumber r ∉ reported_numbers out) ∧
     answers_unless_commit_fails faults w out w' ∧
     ((∀ k, faults k = None) → ∃ resp, out = Ok resp ∧ status resp = 200) ∧
     (∀ resp j r2 a,
        out = Ok resp → status resp = 200 →
        receipts (db w) !! j = Some r2 →
        (Receipt.amount r2 ≤ 0)%Z →
        correction_zero (bills (db w)) r2 = Some a →
        receipts (db w') !! j = Some (Receipt.set_amount a r2) ∧
        (Receipt.receiptNumber r2, Receipt.amount r2, a)
          ∈ fixed_records resp)) ∧
  (∃ out w',
     fixSpecificBillReceipt faults billNumber w = (out, w') ∧
     receipts (db w') !! i = Some r ∧
     (Receipt.receiptNumber r ∉ reported_numbers out) ∧
     answers_unless_commit_fails faults w out w' ∧
     ((∀ k, faults k = None) →
      ∃ resp, out = Ok resp ∧
        status resp
        = match List.find (λ b, bool_decide (Bill.billNumber b = billNumber))
                  (bills (db w)) with
          | Some _ => 200
          | None => 404
          end) ∧
     (∀ resp j r2 a billing,
        out = Ok resp → status resp = 200 →
        List.find (λ b, bool_decide (Bill.billNumber b = billNumber))
          (bills (db w)) = Some billing →
        receipts (db w) !! j = Some r2 →
        Receipt.billNumber r2 = billNumber →
        correction_bill billing r2 = Some a →
        receipts (db w') !! j = Some (Receipt.set_amount a r2) ∧
        (Receipt.receiptNumber r2, Receipt.amount r2, a)
          ∈ fixed_records resp)).
Proof.
  intros [Hids Hnums] Hr Htype. split.
  - destruct (fixZeroAmountReceipts_effect faults w Hids)
      as (out & w' & corr & Hrun & Hres & _ & _ & Hans & Hcorr).
    assert (corr r = None) as Hnone.
    { destruct Hcorr as [(-> & _)|(-> & _)]; [|done].
      unfold guarded, correction_zero.
      rewrite correctAmount_zero_payment by done. by destruct (decide _). }
    exists out, w'. split; [exact Hrun|].
    split; [by eapply fix_result_untouched|].
    split; [eapply fix_result_unlisted; eauto using list_elem_of_lookup_2|].
    split; [done|]. split.
    + intros Hquiet.
      destruct Hcorr as [(_ & _ & ? & ? & ? & ->)|(_ & e & Hf & _)];
        [by eauto|].
      by apply first_fault_absurd in Hf.
    + intros resp j r2 a -> Hok Hr2 Hamt Ha.
      destruct Hcorr as [(-> & _)|(_ & e & _ & [[[= ->] _]|[? _]])];
        [|done|done].
      assert (guarded (λ r, Receipt.amount r ≤ 0)%Z
                (correction_zero (bills (db w))) r2 = Some a) as Hg
        by by rewrite guarded_True.
      split; [by eapply fix_result_corrected|].
      eapply (fix_result_listed _ _ _ _ Hres);
        eauto using list_elem_of_lookup_2.
  - destruct (fixSpecificBillReceipt_effect faults billNumber w Hids)
      as (out & w' & corr & Hrun & Hres & _ & _ & Hans & Hcorr).
    assert (corr r = None) as Hnone.
    { destruct Hcorr as [(billing & _ & -> & _)|[(_ & -> & _)|(-> & _)]];
        [|done|done].
      unfold guarded, correction_bill, correctAmount_bill. rewrite Htype.
      simpl. by destruct (decide _). }
    exists out, w'. split; [exact Hrun|].
    split; [by eapply fix_result_untouched|].
    split; [eapply fix_result_unlisted; eauto using list_elem_of_lookup_2|].
    split; [done|]. split.
    + intros Hquiet.
      destruct Hcorr as [(? & -> & _ & _ & ? & ? & ->)
                        |[(-> & _ & _ & ->)|(_ & e & Hf & _)]];
        [by eauto|by eauto|].
      by apply first_fault_absurd in Hf.
    + intros resp j r2 a billing -> Hok Hfind Hr2 Hbn Ha.
      destruct Hcorr as [(billing' & Hfind' & -> & _)
                        |[(_ & _ & _ & [= ->])
                         |(_ & e & _ & [[[= ->] _]|[? _]])]];
        [|done|done|done].
      assert (billing' = billing) as -> by congruence.
      assert (guarded (λ r, Receipt.billNumber r = billNumber)
                (correction_bill billing) r2 = Some a) as Hg
        by by rewrite guarded_True.
      split; [by eapply fix_result_corrected|].
      eapply (fix_result_listed _ _ _ _ Hres);
        eauto using list_elem_of_lookup_2.
Qed.

(** C8.  In each of the three repair handlers, when a call issued during
    the pass fails with message [msg], the committed bills and receipts are
    those from before the invocation, whatever was written before the
    failing call, and the transaction is closed; when the failing call is a
    query or a write, that is any call but commitTransaction, the answer is
    status 500 with body [{ message, error: msg, success: false }]. *)
Theorem storage_failure_rolls_back (w : World) (billNumber : string)
    (k : nat) (msg : string) :
  faults k = Some msg →
  (let out := createMissingReceipts faults uuidv4 newObjectId w in
   ops w ≤ k < ops out.2 →
   db out.2 = db w ∧ txn out.2 = None ∧
   (commit_call out.2 ≠ Some k →
    out.1 = Ok (json 500
                  (ErrorBody "Error creating missing receipts" msg false)))) ∧
  (let out := fixZeroAmountReceipts faults w in
   ops w ≤ k < ops out.2 →
   db out.2 = db w ∧ txn out.2 = None ∧
   (commit_call out.2 ≠ Some k →
    out.1 = Ok (json 500
                  (ErrorBody "Error fixing zero amount receipts" msg false)))) ∧
  (let out := fixSpecificBillReceipt faults billNumber w in
   ops w ≤ k < ops out.2 →
   db out.2 = db w ∧ txn out.2 = None ∧
   (commit_call out.2 ≠ Some k →
    out.1 = Ok (json 500
                  (ErrorBody ("Error fixing receipts for bill " +:+ billNumber)
                     msg false)))).
Proof.
  intros Hmsg. split; [|split]; intros out Hk; subst out.
  - destruct (createMissingReceipts_run faults uuidv4 newObjectId w)
      as (out & w' & Hrun & [[(_ & _ & _ & Hq & _) _]
                            |(e & (Hdb & Ht & Hf & _) & Hout)]);
      rewrite Hrun in Hk |- *; simpl in Hk |- *.
    + by destruct (quiet_absurd _ _ _ _ msg Hq Hk).
    + split; [done|]. split; [done|]. intros Hnc.
      destruct Hout as [[-> _]|[-> Hc]].
      * by rewrite (first_fault_unique _ _ _ _ _ _ Hf Hk Hmsg).
      * by destruct Hnc; eapply first_fault_commit.
  - destruct (fixZeroAmountReceipts_run faults w)
      as (out & w' & Hrun & [[(_ & _ & _ & Hq & _) _]
                            |(e & (Hdb & Ht & Hf & _) & Hout)]);
      rewrite Hrun in Hk |- *; simpl in Hk |- *.
    + by destruct (quiet_absurd _ _ _ _ msg Hq Hk).
    + split; [done|]. split; [done|]. intros Hnc.
      destruct Hout as [[-> _]|[-> Hc]].
      * by rewrite (first_fault_unique _ _ _ _ _ _ Hf Hk Hmsg).
      * by destruct Hnc; eapply first_fault_commit.
  - destruct (fixSpecificBillReceipt_run faults billNumber w)
      as (out & w' & Hrun &
          [(billing & _ & (_ & _ & _ & Hq & _) & _)
          |[(_ & (_ & _ & _ & Hq & _) & _)
           |(e & (Hdb & Ht & Hf & _) & Hout)]]);
      rewrite Hrun in Hk |- *; simpl in Hk |- *.
    + by destruct (quiet_absurd _ _ _ _ msg Hq Hk).
    + by destruct (quiet_absurd _ _ _ _ msg Hq Hk).
    + split; [done|]. split; [done|]. intros Hnc.
      destruct Hout as [[-> _]|[-> Hc]].
      * by rewrite (first_fault_unique _ _ _ _ _ _ Hf Hk Hmsg).
      * by destruct Hnc; eapply first_fault_commit.
Qed.

(** C9.  Both fix handlers leave every bill as it was and every receipt in
    its place: a receipt differs from its former record in the amount at
    most, a receipt not reported as fixed is identical to its former
    record, and the collection keeps its length.  Storage may fail at any
    call; the handler answers unless its commitTransaction call fails, and
    then nothing is reported and nothing has changed. *)
Theorem fix_changes_only_amounts (w : World) (billNumber : string) :
  unique_receipts (receipts (db w)) →
  (∃ out w',
     fixZeroAmountReceipts faults w = (out, w') ∧
     answers_unless_commit_fails faults w out w' ∧
     bills (db w') = bills (db w) ∧
     length (receipts (db w')) = length (receipts (db w)) ∧
     ∀ i r, receipts (db w) !! i = Some r →
       ∃ r', receipts (db w') !! i = Some r' ∧
             r' = Receipt.set_amount (Receipt.amount r') r ∧
             (Receipt.receiptNumber r ∉ reported_numbers out →
              r' = r)) ∧
  (∃ out w',
     fixSpecificBillReceipt faults billNumber w = (out, w') ∧
     answers_unless_commit_fails faults w out w' ∧
     bills (db w') = bills (db w) ∧
     length (receipts (db w')) = length (receipts (db w)) ∧
     ∀ i r, receipts (db w) !! i = Some r →
       ∃ r', receipts (db w') !! i = Some r' ∧
             r' = Receipt.set_amount (Receipt.amount r') r ∧
             (Receipt.receiptNumber r ∉ reported_numbers out →
              r' = r)).
Proof.
  intros [Hids Hnums].
  assert (∀ corr w' out,
    fix_result corr w w' out →
    bills (db w') = bills (db w) ∧
    length (receipts (db w')) = length (receipts (db w)) ∧
    ∀ i r, receipts (db w) !! i = Some r →
      ∃ r', receipts (db w') !! i = Some r' ∧
            r' = Receipt.set_amount (Receipt.amount r') r ∧
            (Receipt.receiptNumber r ∉ reported_numbers out →
             r' = r)) as Hframe.
  { intros corr w' out Hres. split; [apply Hres|]. split.
    { destruct Hres as (_ & -> & _). apply length_fmap. }
    intros i r Hr. exists (fix_receipt corr r).
    split; [by eapply fix_result_lookup|].
    unfold fix_receipt. destruct (corr r) as [a|] eqn:Hra.
    - split; [done|]. intros Hnot. destruct Hnot.
      unfold reported_numbers. apply list_elem_of_fmap.
      exists (Receipt.receiptNumber r, Receipt.amount r, a). split; [done|].
      eapply fix_result_listed; eauto using list_elem_of_lookup_2.
    - split; [|done]. by rewrite set_amount_same. }
  split.
  - destruct (fixZeroAmountReceipts_effect faults w Hids)
      as (out & w' & corr & Hrun & Hres & _ & _ & Hans & _).
    exists out, w'. split; [exact Hrun|]. split; [done|]. by eapply Hframe.
  - destruct (fixSpecificBillReceipt_effect faults billNumber w Hids)
      as (out & w' & corr & Hrun & Hres & _ & _ & Hans & _).
    exists out, w'. split; [exact Hrun|]. split; [done|]. by eapply Hframe.
Qed.

(** C10.  fixZeroAmountReceipts looks the owning bill up by the receipt's
    billingId only: a receipt whose billingId is the [_id] of no bill keeps
    its stored record and is not reported as fixed, whatever bill numbers
    the bills carry.  Storage may fail at any call; the handler answers
    unless its commitTransaction call fails. *)
Theorem fixZeroAmountReceipts_resolves_bill_by_billingId
    (w : World) (i : nat) (r : Receipt.t) :
  unique_receipts (receipts (db w)) →
  receipts (db w) !! i = Some r →
  (∀ b, b ∈ bills (db w) → Bill._id b ≠ Receipt.billingId r) →
  ∃ out w',
    fixZeroAmountReceipts faults w = (out, w') ∧
    answers_unless_commit_fails faults w out w' ∧
    receipts (db w') !! i = Some r ∧
    Receipt.receiptNumber r ∉ reported_numbers out.
Proof.
  intros [Hids Hnums] Hr Hno.
  destruct (fixZeroAmountReceipts_effect faults w Hids)
    as (out & w' & corr & Hrun & Hres & _ & _ & Hans & Hcorr).
  assert (corr r = None) as Hnone.
  { destruct Hcorr as [(-> & _)|(-> & _)]; [|done].
    unfold guarded, correction_zero, correctAmount_zero.
    rewrite (find_no_key Bill._id) by done. by destruct (decide _). }
  exists out, w'. split; [exact Hrun|]. split; [done|].
  split; [by eapply fix_result_untouched|].
  eapply fix_result_unlisted; eauto using list_elem_of_lookup_2.
Qed.

(** C6, as the code has it.  The zeroAmountReceipts list of the audit
    report is made of one block per bill with a positive paid amount, in
    the order of the bills; the block of a bill holds one entry for each
    receipt carrying its bill number whose amount is zero or negative, in
    the order of the receipts.  So the list holds an entry for every pair
    of such a bill and such a receipt, and nothing else; no entry has a
    positive receipt amount. *)
Theorem audit_zeroAmountReceipts_are_of_paid_bills (w : World) :
  (∀ k, faults k = None) →
  ∃ report w',
    getReceiptAuditReport faults w
    = (Ok (json 200 (ReportBody "Receipt audit report generated successfully"
                       report true)), w') ∧
    zeroAmountReceipts report
    = (filter (λ b, 0 < Payment.paid (Bill.payment b))%Z (bills (db w))
         ≫= λ bill,
           zero_entry bill
             <$> filter (λ r, Receipt.amount r ≤ 0)%Z
                   (receipts_of (receipts (db w)) bill)) ∧
    (∀ e, e ∈ zeroAmountReceipts report ↔
          ∃ bill r, bill ∈ bills (db w) ∧ r ∈ receipts (db w) ∧
                    Receipt.billNumber r = Bill.billNumber bill ∧
                    (Receipt.amount r ≤ 0)%Z ∧
                    (0 < Payment.paid (Bill.payment bill))%Z ∧
                    e = zero_entry bill r) ∧
    (∀ e, e ∈ zeroAmountReceipts report → (za_receiptAmount e ≤ 0)%Z).
Proof.
  intros Hquiet.
  destruct (getReceiptAuditReport_run faults w)
    as (resp & w' & Hrun & _ & _ & [[_ ->]|(e & Hf & _)]);
    [|by apply first_fault_absurd in Hf].
  eexists _, w'. split; [exact Hrun|]. split; [|split].
  - rewrite audit_closed_form. simpl. apply bind_if_filter.
  - intros e. apply audit_zeroAmountReceipts.
  - intros e (bill & r & _ & _ & _ & Hamt & _ & ->)%audit_zeroAmountReceipts.
    done.
Qed.

End Claims.

(** * The claims on the sample ledgers *)

Lemma unique_sample rs :
  bool_decide (NoDup (Receipt._id <$> rs)) →
  bool_decide (NoDup (Receipt.receiptNumber <$> rs)) →
  unique_receipts rs.
Proof. intros H1 H2. split; by eapply bool_decide_unpack. Defined.

(** Scenario: bill B1 with 500 paid and no receipts. *)
Lemma createMissingReceipts_scenario_B1 :
  ∃ created message w' r,
    createMissingReceipts no_faults sample_uuid sample_oid (ledger [B1] [])
    = (Ok (json 200 (CreatedBody message (length created) 1 true)), w') ∧
    bills (db w') = [B1] ∧
    receipts (db w') = [] ++ created ∧
    Forall2 created_for
      (filter (λ b, 0 < Payment.paid (Bill.payment b))%Z
         (unreceipted (db (ledger [B1] []))))
      created ∧
    filter (λ r, Receipt.billNumber r = "B1") created = [r] ∧
    created_for B1 r.
Proof.
  apply (createMissingReceipts_creates_one_receipt_per_unreceipted_paid_bill
           no_faults sample_uuid sample_oid (ledger [B1] []) B1).
  - done.
  - by apply (bool_decide_unpack _).
  - by left.
  - done.
  - intros r Hr. by apply elem_of_nil in Hr.
Defined.

(** B1 and B3 have no receipt; B2 has the payment receipt R2 and no
    creation receipt, and B0 has nothing paid: the report lists B1 and B3,
    and the pass creates a receipt for B1 and one for B3. *)
Lemma unreceipted_B1_is_reported_and_repaired :
  (∃ message report w',
     getReceiptAuditReport no_faults (ledger [B1; B2; B0; B3] [R2])
     = (Ok (json 200 (ReportBody message report true)), w') ∧
     billsWithoutReceipts report = [missing_entry B1; missing_entry B3]) ∧
  (∃ created message n w',
     createMissingReceipts no_faults sample_uuid sample_oid
       (ledger [B1; B2; B0; B3] [R2])
     = (Ok (json 200 (CreatedBody message (length created) n true)), w') ∧
     receipts (db w') = [R2] ++ created ∧
     Forall2 created_for [B1; B3] created ∧
     ∀ r', r' ∈ created → Receipt.billNumber r' ≠ "B2").
Proof.
  destruct (unreceipted_paid_bill_is_reported_and_repaired
              no_faults sample_uuid sample_oid (ledger [B1; B2; B0; B3] [R2])
              (λ _, eq_refl))
    as (_ & (m & rep & w1 & Hrun1 & Hlist & _) &
        (created & m' & n & w2 & Hrun2 & Hrs & HF & Hno)).
  split.
  - by exists m, rep, w1.
  - exists created, m', n, w2. repeat split; try done.
    intros r'. apply (Hno R2). by left.
Defined.

(** The claim as stated fails: B1 has a payment receipt but no creation
    receipt, and is neither reported nor repaired. *)
Lemma bill_with_only_a_payment_receipt_is_not_missing :
  ¬ (∀ (w : World) (bill : Bill.t),
       bill ∈ bills (db w) →
       (0 < Payment.paid (Bill.payment bill))%Z →
       (∀ r, r ∈ receipts (db w) → Receipt.type r = "creation" →
             Receipt.billNumber r ≠ Bill.billNumber bill) →
       (∃ message report w',
          getReceiptAuditReport no_faults w
          = (Ok (json 200 (ReportBody message report true)), w') ∧
          missing_entry bill ∈ billsWithoutReceipts report) ∧
       (∃ created message n w' r,
          createMissingReceipts no_faults sample_uuid sample_oid w
          = (Ok (json 200 (CreatedBody message (length created) n true)), w') ∧
          receipts (db w') = receipts (db w) ++ created ∧
          r ∈ created ∧ created_for bill r)).
Proof.
  intros Hclaim.
  destruct (Hclaim (ledger [B1] [P1]) B1) as [(m & rep & w' & Hrun & Hin) _].
  - by left.
  - done.
  - intros r Hr%list_elem_of_singleton. by subst r.
  - vm_compute in Hrun. injection Hrun as _ <- _.
    by apply elem_of_nil in Hin.
Qed.

Lemma createMissingReceipts_second_pass_B1 :
  ∃ out2 w2,
    createMissingReceipts no_faults sample_uuid sample_oid first_pass.2
    = (out2, w2) ∧
    db w2 = db first_pass.2 ∧
    (∀ resp2, out2 = Ok resp2 → status resp2 = 200 →
     ∃ message n, body resp2 = CreatedBody message 0 n true) ∧
    ((∀ k, no_faults k = None) →
     ∃ resp2, out2 = Ok resp2 ∧ status resp2 = 200) ∧
    answers_unless_commit_fails no_faults first_pass.2 out2 w2.
Proof.
  apply (createMissingReceipts_second_pass_creates_nothing
           no_faults sample_uuid sample_oid (ledger [B1] []) first_pass.2
           first_pass_response).
  - by vm_compute.
  - by vm_compute.
Defined.

(** Scenario: receipt R1 (creation, amount 0) of bill B2 (300 paid), after
    the payment receipt R2, under both fix handlers. *)
Lemma fix_corrects_R1_to_300 :
  (∃ resp w',
     fixZeroAmountReceipts no_faults (ledger [B1; B2] [R2; R1]) = (Ok resp, w') ∧
     status resp = 200 ∧
     receipts (db w') !! 1 = Some (Receipt.set_amount 300 R1) ∧
     filter (λ e, e.1.1 = "REC0000000A") (fixed_records resp)
     = [("REC0000000A", 0%Z, 300%Z)]) ∧
  (∃ resp w',
     fixSpecificBillReceipt no_faults "B2" (ledger [B1; B2] [R2; R1])
     = (Ok resp, w') ∧
     status resp = 200 ∧
     receipts (db w') !! 1 = Some (Receipt.set_amount 300 R1) ∧
     filter (λ e, e.1.1 = "REC0000000A") (fixed_records resp)
     = [("REC0000000A", 0%Z, 300%Z)]).
Proof.
  split.
  - apply (proj1 (fix_corrects_amount_to_paid no_faults)
             (ledger [B1; B2] [R2; R1]) 1 R1 B2); try done.
    + by apply unique_sample.
    + by apply (bool_decide_unpack _).
    + right. by left.
    + by left.
  - apply (proj2 (fix_corrects_amount_to_paid no_faults)
             (ledger [B1; B2] [R2; R1]) 1 R1 B2); try done.
    + by apply unique_sample.
    + by apply (bool_decide_unpack _).
    + right. by left.
    + by left.
Defined.

(** The claim as stated fails for fixZeroAmountReceipts: R3 is a creation
    receipt of B2 with amount 100 instead of 300, and the handler, which
    selects the receipts with amount <= 0, leaves it at 100. *)
Lemma fixZeroAmountReceipts_ignores_positive_wrong_amount :
  ¬ (∀ (w : World) (i : nat) (r : Receipt.t) (bill : Bill.t),
       unique_receipts (receipts (db w)) →
       NoDup (Bill._id <$> bills (db w)) →
       receipts (db w) !! i = Some r →
       bill ∈ bills (db w) →
       Bill._id bill = Receipt.billingId r →
       Receipt.billNumber r = Bill.billNumber bill →
       Receipt.type r = "creation" ∨ Receipt.type r = "cancellation" →
       Receipt.amount r ≠ Payment.paid (Bill.payment bill) →
       (0 < Payment.paid (Bill.payment bill))%Z →
       ∃ resp w',
         fixZeroAmountReceipts no_faults w = (Ok resp, w') ∧
         receipts (db w') !! i
         = Some (Receipt.set_amount (Payment.paid (Bill.payment bill)) r) ∧
         filter (λ e, e.1.1 = Receipt.receiptNumber r) (fixed_records resp)
         = [(Receipt.receiptNumber r, Receipt.amount r,
             Payment.paid (Bill.payment bill))]).
Proof.
  intros Hclaim.
  destruct (Hclaim (ledger [B2] [R3]) 0 R3 B2)
    as (resp & w' & Hrun & Hamount & _); try done.
  - by apply unique_sample.
  - by apply (bool_decide_unpack _).
  - by left.
  - by left.
  - vm_compute in Hrun. injection Hrun as _ <-. by vm_compute in Hamount.
Qed.

(** R6 is a creation receipt of the unpaid bill B0: its correct amount is
    computed as 0 and nothing is written. *)
Lemma fix_leaves_R6_of_unpaid_bill :
  (∃ out w',
     fixZeroAmountReceipts no_faults (ledger [B0; B2] [R6; R1]) = (out, w') ∧
     (∃ resp, out = Ok resp) ∧
     issued positive_amount_only (ledger [B0; B2] [R6; R1]) w' ∧
     (∀ i r r', [R6; R1] !! i = Some r → receipts (db w') !! i = Some r' →
                r' = r ∨ (0 < Receipt.amount r')%Z) ∧
     receipts (db w') !! 0 = Some R6 ∧
     "REC00000010" ∉ reported_numbers out) ∧
  (∃ out w',
     fixSpecificBillReceipt no_faults "B0" (ledger [B0; B2] [R6; R1])
     = (out, w') ∧
     (∃ resp, out = Ok resp) ∧
     issued positive_amount_only (ledger [B0; B2] [R6; R1]) w' ∧
     (∀ i r r', [R6; R1] !! i = Some r → receipts (db w') !! i = Some r' →
                r' = r ∨ (0 < Receipt.amount r')%Z) ∧
     receipts (db w') !! 0 = Some R6 ∧
     "REC00000010" ∉ reported_numbers out).
Proof.
  destruct (fix_never_writes_nonpositive_amount no_faults
              (ledger [B0; B2] [R6; R1]) "B0")
    as [(out & w' & Hrun & Hans & Hw & Hpos & Hkeep)
        (out2 & w2 & Hrun2 & Hans2 & Hw2 & Hpos2 & Hkeep2)].
  { by apply unique_sample. }
  split.
  - exists out, w'. split; [done|].
    split; [exact (answers_quiet no_faults _ _ _ (λ _, eq_refl) Hans)|].
    repeat split; try done; by apply (Hkeep 0 R6 0%Z).
  - exists out2, w2. split; [done|].
    split; [exact (answers_quiet no_faults _ _ _ (λ _, eq_refl) Hans2)|].
    repeat split; try done; by apply (Hkeep2 0 R6 B0).
Defined.

(** The receipts R1 and R2 with amount 0 carry the number that the bills
    B2 and B2b share, B1 has no receipt and R3 has a positive amount: the
    list holds the entries of R1 and R2 for B2, then their entries for
    B2b. *)
Lemma audit_zeroAmountReceipts_sample :
  ∃ report w',
    getReceiptAuditReport no_faults (ledger [B1; B2; B2b] [R1; R3; R2])
    = (Ok (json 200 (ReportBody "Receipt audit report generated successfully"
                       report true)), w') ∧
    zeroAmountReceipts report
    = [zero_entry B2 R1; zero_entry B2 R2;
       zero_entry B2b R1; zero_entry B2b R2] ∧
    (∀ e, e ∈ zeroAmountReceipts report ↔
          ∃ bill r, bill ∈ [B1; B2; B2b] ∧ r ∈ [R1; R3; R2] ∧
                    Receipt.billNumber r = Bill.billNumber bill ∧
                    (Receipt.amount r ≤ 0)%Z ∧
                    (0 < Payment.paid (Bill.payment bill))%Z ∧
                    e = zero_entry bill r) ∧
    (∀ e, e ∈ zeroAmountReceipts report → (za_receiptAmount e ≤ 0)%Z).
Proof.
  apply (audit_zeroAmountReceipts_are_of_paid_bills no_faults
           (ledger [B1; B2; B2b] [R1; R3; R2])).
  done.
Defined.

(** The claim as stated fails: R6 has amount 0, but its bill B0 has
    nothing paid, and the report's zeroAmountReceipts list is empty. *)
Lemma audit_omits_zero_receipt_of_unpaid_bill :
  ¬ (∀ (w : World),
       ∃ message report w',
         getReceiptAuditReport no_faults w
         = (Ok (json 200 (ReportBody message report true)), w') ∧
         ∀ r, r ∈ receipts (db w) → (Receipt.amount r ≤ 0)%Z →
              ∃ e, e ∈ zeroAmountReceipts report ∧
                   za_receiptNumber e = Receipt.receiptNumber r).
Proof.
  intros Hclaim.
  destruct (Hclaim (ledger [B0] [R6])) as (m & rep & w' & Hrun & Hall).
  destruct (Hall R6) as (e & He & _); [by left | done |].
  vm_compute in Hrun. injection Hrun as _ <- _.
  by apply elem_of_nil in He.
Qed.

(** Scenario: the payment receipt R2 with amount 0 stands before R1.  Both
    handlers answer 200, keep R2 and go on to correct R1. *)
Lemma fix_skips_R2 :
  (∃ resp w',
     fixZeroAmountReceipts no_faults (ledger [B1; B2] [R2; R1]) = (Ok resp, w') ∧
     receipts (db w') !! 0 = Some R2 ∧
     ("REC0000000B" ∉ fixed_numbers resp) ∧
     status resp = 200 ∧
     receipts (db w') !! 1 = Some (Receipt.set_amount 300 R1) ∧
     ("REC0000000A", 0%Z, 300%Z) ∈ fixed_records resp) ∧
  (∃ resp w',
     fixSpecificBillReceipt no_faults "B2" (ledger [B1; B2] [R2; R1])
     = (Ok resp, w') ∧
     receipts (db w') !! 0 = Some R2 ∧
     ("REC0000000B" ∉ fixed_numbers resp) ∧
     status resp = 200 ∧
     receipts (db w') !! 1 = Some (Receipt.set_amount 300 R1) ∧
     ("REC0000000A", 0%Z, 300%Z) ∈ fixed_records resp).
Proof.
  destruct (fix_skips_payment_receipts no_faults
              (ledger [B1; B2] [R2; R1]) "B2" 0 R2)
    as [(out & w' & Hrun & Hkeep & Hout & _ & Hok & Hrest)
        (out2 & w2 & Hrun2 & Hkeep2 & Hout2 & _ & Hok2 & Hrest2)]; try done.
  { by apply unique_sample. }
  destruct (Hok (λ _, eq_refl)) as (resp & -> & Hst).
  destruct (Hok2 (λ _, eq_refl)) as (resp2 & -> & Hst2).
  split.
  - exists resp, w'. repeat split; try done;
      by apply (Hrest resp 1 R1 300%Z).
  - exists resp2, w2. repeat split; try done;
      by apply (Hrest2 resp2 1 R1 300%Z B2).
Defined.

(** The fourth storage call of each repair handler fails, after a write
    has gone through: the write is discarded with the transaction. *)
Lemma storage_failure_rolls_back_sample :
  let faults := fail_at 3 "connection lost" in
  let w := ledger [B1; B3; B2] [R1; R11] in
  ((createMissingReceipts faults sample_uuid sample_oid w).1
   = Ok (json 500 (ErrorBody "Error creating missing receipts"
                     "connection lost" false)) ∧
   db (createMissingReceipts faults sample_uuid sample_oid w).2 = db w ∧
   txn (createMissingReceipts faults sample_uuid sample_oid w).2 = None) ∧
  ((fixZeroAmountReceipts faults w).1
   = Ok (json 500 (ErrorBody "Error fixing zero amount receipts"
                     "connection lost" false)) ∧
   db (fixZeroAmountReceipts faults w).2 = db w ∧
   txn (fixZeroAmountReceipts faults w).2 = None) ∧
  ((fixSpecificBillReceipt faults "B2" w).1
   = Ok (json 500 (ErrorBody "Error fixing receipts for bill B2"
                     "connection lost" false)) ∧
   db (fixSpecificBillReceipt faults "B2" w).2 = db w ∧
   txn (fixSpecificBillReceipt faults "B2" w).2 = None) ∧
  writes (createMissingReceipts faults sample_uuid sample_oid w).2
  = [Inserted (creation_receipt sample_uuid sample_oid 0 B1)] ∧
  writes (fixZeroAmountReceipts faults w).2 = [AmountSet 11%N 300%Z] ∧
  writes (fixSpecificBillReceipt faults "B2" w).2 = [AmountSet 11%N 300%Z].
Proof.
  intros faults w.
  destruct (storage_failure_rolls_back faults sample_uuid sample_oid w "B2"
              3 "connection lost" eq_refl) as (H1 & H2 & H3).
  destruct H1 as (Hdb1 & Ht1 & Hout1); [vm_compute; lia|].
  destruct H2 as (Hdb2 & Ht2 & Hout2); [vm_compute; lia|].
  destruct H3 as (Hdb3 & Ht3 & Hout3); [vm_compute; lia|].
  split; [|split; [|split]].
  - split; [|done]. apply Hout1. by vm_compute.
  - split; [|done]. apply Hout2. by vm_compute.
  - split; [|done]. apply Hout3. by vm_compute.
  - by vm_compute.
Defined.

Lemma fix_changes_only_amounts_sample :
  (∃ out w',
     fixZeroAmountReceipts no_faults (ledger [B1; B2] [R2; R1]) = (out, w') ∧
     answers_unless_commit_fails no_faults (ledger [B1; B2] [R2; R1]) out w' ∧
     bills (db w') = [B1; B2] ∧
     length (receipts (db w')) = 2 ∧
     ∀ i r, [R2; R1] !! i = Some r →
       ∃ r', receipts (db w') !! i = Some r' ∧
             r' = Receipt.set_amount (Receipt.amount r') r ∧
             (Receipt.receiptNumber r ∉ reported_numbers out → r' = r)) ∧
  (∃ out w',
     fixSpecificBillReceipt no_faults "B2" (ledger [B1; B2] [R2; R1])
     = (out, w') ∧
     answers_unless_commit_fails no_faults (ledger [B1; B2] [R2; R1]) out w' ∧
     bills (db w') = [B1; B2] ∧
     length (receipts (db w')) = 2 ∧
     ∀ i r, [R2; R1] !! i = Some r →
       ∃ r', receipts (db w') !! i = Some r' ∧
             r' = Receipt.set_amount (Receipt.amount r') r ∧
             (Receipt.receiptNumber r ∉ reported_numbers out → r' = r)).
Proof.
  apply (fix_changes_only_amounts no_faults (ledger [B1; B2] [R2; R1]) "B2").
  by apply unique_sample.
Defined.

(** R4 carries the bill number of B2 but the identity of no bill. *)
Lemma fixZeroAmountReceipts_leaves_R4 :
  ∃ out w',
    fixZeroAmountReceipts no_faults (ledger [B2] [R4]) = (out, w') ∧
    answers_unless_commit_fails no_faults (ledger [B2] [R4]) out w' ∧
    receipts (db w') !! 0 = Some R4 ∧
    "REC0000000E" ∉ reported_numbers out.
Proof.
  apply (fixZeroAmountReceipts_resolves_bill_by_billingId no_faults
           (ledger [B2] [R4]) 0 R4).
  - by apply unique_sample.
  - done.
  - intros b Hb%list_elem_of_singleton. by subst b.
Defined.


(** * Further properties of the controller *)

Section Further.

Variable faults : nat → option string.
Variable uuidv4 : nat → string.
Variable newObjectId : nat → ObjectId.

Lemma audit_run_quiet w :
  (∀ k, faults k = None) →
  ∃ w',
    getReceiptAuditReport faults w
    = (Ok (json 200 (ReportBody "Receipt audit report generated successfully"
                       (audit (bills (db w)) (receipts (db w))) true)), w') ∧
    db w' = db w.
Proof.
  intros Hquiet.
  destruct (getReceiptAuditReport_run faults w)
    as (resp & w' & Hrun & Hdb & _ & [[_ ->]|(e & Hf & _)]);
    [|by apply first_fault_absurd in Hf].
  by exists w'.
Qed.

(** X1.  The audit report lists the orphaned receipts exactly: one entry
    per receipt whose bill number is that of no bill, in collection order,
    whatever the receipt's amount and type, and no other entry. *)
Theorem audit_lists_each_orphaned_receipt_once (w : World) :
  (∀ k, faults k = None) →
  ∃ message report w',
    getReceiptAuditReport faults w
    = (Ok (json 200 (ReportBody message report true)), w') ∧
    orphanedReceipts report
    = orphan_entry
        <$> filter
              (λ r, Forall (λ b, Bill.billNumber b ≠ Receipt.billNumber r)
                      (bills (db w)))
              (receipts (db w)).
Proof.
  intros Hquiet. destruct (audit_run_quiet w Hquiet) as (w' & Hrun & _).
  eexists _, _, w'. split; [exact Hrun|].
  rewrite audit_closed_form. simpl. f_equal. apply list_filter_iff.
  intros r. rewrite elem_of_list_to_set, list_elem_of_fmap, Forall_forall.
  split.
  - intros Hno b Hb Heq. apply Hno. by exists b.
  - intros Hno (b & Heq & Hb). by apply (Hno b).
Qed.

(** X2.  The audit report lists a bill under duplicateReceipts exactly
    when more than one receipt of type creation carries its bill number;
    the entry gives their count, which is at least 2, and their receipt
    numbers in collection order. *)
Theorem audit_lists_bills_with_several_creation_receipts (w : World) :
  (∀ k, faults k = None) →
  ∃ message report w',
    getReceiptAuditReport faults w
    = (Ok (json 200 (ReportBody message report true)), w') ∧
    duplicateReceipts report
    = duplicate_entry (receipts (db w))
        <$> filter (λ bill, 1 < length (creations_of (receipts (db w)) bill))
              (bills (db w)) ∧
    (∀ e, e ∈ duplicateReceipts report →
          2 ≤ du_count e ∧ length (du_receipts e) = du_count e ∧
          du_duplicateType e = "creation").
Proof.
  intros Hquiet. destruct (audit_run_quiet w Hquiet) as (w' & Hrun & _).
  eexists _, _, w'. split; [exact Hrun|].
  rewrite audit_closed_form. simpl. split; [done|].
  intros e (bill & -> & [Hmany _]%list_elem_of_filter)%list_elem_of_fmap.
  simpl. rewrite length_fmap. repeat split; try done; lia.
Qed.

(** X3.  The totals of the audit report are the sizes of the two
    collections, and no list is longer than the collection it is drawn
    from. *)
Theorem audit_totals_bound_the_lists (w : World) :
  (∀ k, faults k = None) →
  ∃ message report w',
    getReceiptAuditReport faults w
    = (Ok (json 200 (ReportBody message report true)), w') ∧
    totalBills report = length (bills (db w)) ∧
    totalReceipts report = length (receipts (db w)) ∧
    length (billsWithoutReceipts report) ≤ totalBills report ∧
    length (duplicateReceipts report) ≤ totalBills report ∧
    length (orphanedReceipts report) ≤ totalReceipts report.
Proof.
  intros Hquiet. destruct (audit_run_quiet w Hquiet) as (w' & Hrun & _).
  eexists _, _, w'. split; [exact Hrun|].
  rewrite audit_closed_form. simpl. rewrite !length_fmap.
  repeat split; try apply length_filter.
  unfold unreceipted. simpl. etrans; apply length_filter.
Qed.

(** X4.  The four lists of the audit report classify disjoint bill
    numbers: a bill number reported as being without receipts occurs in no
    zero-amount entry and in no duplicate entry, and the bill number of an
    orphaned receipt occurs in none of the other three lists. *)
Theorem audit_lists_are_disjoint (w : World) :
  (∀ k, faults k = None) →
  ∃ message report w',
    getReceiptAuditReport faults w
    = (Ok (json 200 (ReportBody message report true)), w') ∧
    (∀ m, m ∈ billsWithoutReceipts report →
       (∀ z, z ∈ zeroAmountReceipts report →
             za_billNumber z ≠ bw_billNumber m) ∧
       (∀ d, d ∈ duplicateReceipts report →
             du_billNumber d ≠ bw_billNumber m)) ∧
    (∀ o, o ∈ orphanedReceipts report →
       (∀ m, m ∈ billsWithoutReceipts report →
             bw_billNumber m ≠ or_billNumber o) ∧
       (∀ z, z ∈ zeroAmountReceipts report →
             za_billNumber z ≠ or_billNumber o) ∧
       (∀ d, d ∈ duplicateReceipts report →
             du_billNumber d ≠ or_billNumber o)).
Proof.
  intros Hquiet. destruct (audit_run_quiet w Hquiet) as (w' & Hrun & _).
  eexists _, _, w'. split; [exact Hrun|].
  set (bs := bills (db w)). set (rs := receipts (db w)).
  assert (∀ m, m ∈ billsWithoutReceipts (audit bs rs) →
            (∃ b, b ∈ bs ∧ Bill.billNumber b = bw_billNumber m) ∧
            ∀ r, r ∈ rs → Receipt.billNumber r ≠ bw_billNumber m) as Hbw.
  { intros m (b & Hb & Hno & _ & ->)%audit_billsWithoutReceipts.
    split; [by exists b|done]. }
  assert (∀ z, z ∈ zeroAmountReceipts (audit bs rs) →
            (∃ b, b ∈ bs ∧ Bill.billNumber b = za_billNumber z) ∧
            ∃ r, r ∈ rs ∧ Receipt.billNumber r = za_billNumber z) as Hza.
  { intros z (b & r & Hb & Hr & Heq & _ & _ & ->)%audit_zeroAmountReceipts.
    split; [by exists b | by exists r]. }
  assert (∀ d, d ∈ duplicateReceipts (audit bs rs) →
            (∃ b, b ∈ bs ∧ Bill.billNumber b = du_billNumber d) ∧
            ∃ r, r ∈ rs ∧ Receipt.billNumber r = du_billNumber d) as Hdu.
  { intros d. rewrite audit_closed_form. simpl.
    intros (b & -> & [Hmany Hb]%list_elem_of_filter)%list_elem_of_fmap.
    split; [by exists b|].
    destruct (creations_of rs b) as [|r l] eqn:Hcr; [simpl in Hmany; lia|].
    assert (r ∈ creations_of rs b) as Hr by (rewrite Hcr; by left).
    apply list_elem_of_filter in Hr as [_ [Heq Hr]%list_elem_of_filter].
    by exists r. }
  assert (∀ o, o ∈ orphanedReceipts (audit bs rs) →
            ∀ b, b ∈ bs → Bill.billNumber b ≠ or_billNumber o) as Hor.
  { intros o. rewrite audit_closed_form. simpl.
    intros (r & -> & [Hno _]%list_elem_of_filter)%list_elem_of_fmap b Hb Heq.
    apply Hno, elem_of_list_to_set, list_elem_of_fmap. by exists b. }
  split.
  - intros m [_ Hno]%Hbw. split.
    + intros z [_ (r & Hr & Heq)]%Hza Hsame. apply (Hno r Hr). congruence.
    + intros d [_ (r & Hr & Heq)]%Hdu Hsame. apply (Hno r Hr). congruence.
  - intros o Ho. pose proof (Hor o Ho) as Hno. repeat split.
    + intros m [(b & Hb & Heq) _]%Hbw Hsame. apply (Hno b Hb). congruence.
    + intros z [(b & Hb & Heq) _]%Hza Hsame. apply (Hno b Hb). congruence.
    + intros d [(b & Hb & Heq) _]%Hdu Hsame. apply (Hno b Hb). congruence.
Qed.

(** X5.  getReceiptAuditReport always answers, and on every schedule of
    storage failures it leaves the ledgers as they are and issues no write.
    It answers 200 when neither of its two reads fails; when one of them
    fails with message [msg], it answers status 500 with body
    [{ message, error: msg, success: false }]. *)
Theorem audit_is_read_only_and_reports_failure (w : World) :
  ∃ resp w',
    getReceiptAuditReport faults w = (Ok resp, w') ∧
    db w' = db w ∧ writes w' = writes w ∧
    (quiet faults (ops w) (ops w') → status resp = 200) ∧
    (∀ k msg, faults k = Some msg → ops w ≤ k < ops w' →
       resp = json 500 (ErrorBody "Error generating audit report" msg false)).
Proof.
  destruct (getReceiptAuditReport_run faults w)
    as (resp & w' & Hrun & Hdb & Hw & Hcases).
  exists resp, w'. split; [done|]. split; [done|]. split; [done|]. split.
  - intros Hq. destruct Hcases as [[_ ->]|(e & (k & Hops & Hk & Hf & _) & _)];
      [done|].
    rewrite Hq in Hf by lia. done.
  - intros k msg Hmsg Hk. destruct Hcases as [[Hq _]|(e & Hf & ->)].
    + by destruct (quiet_absurd _ _ _ _ msg Hq Hk).
    + by rewrite (first_fault_unique _ _ _ _ _ _ Hf Hk Hmsg).
Qed.

(** X6.  Once its session is started, each repair handler leaves no
    transaction open, whatever storage does.  When no call fails it answers
    200 (fixSpecificBillReceipt: 200 or 404).  When a call fails, the first
    failure ends the pass with the ledgers as they were: if the failing
    call is a query or a write, the handler answers 500 with the message of
    the failure; if it is commitTransaction itself, abortTransaction throws
    in the catch block, so that no answer is sent and the error "Cannot
    call abortTransaction after calling commitTransaction" leaves the
    handler. *)
Theorem repair_handlers_answer_unless_commit_fails
    (w : World) (billNumber : string) :
  (∃ out w',
     createMissingReceipts faults uuidv4 newObjectId w = (out, w') ∧
     txn w' = None ∧
     ((quiet faults (ops w) (ops w') ∧
       ∃ resp, out = Ok resp ∧ status resp = 200)
      ∨ (∃ e, first_fault faults (ops w) e w' ∧ db w' = db w ∧
           ((commit_call w' = commit_call w ∧
             out = Ok (json 500 (ErrorBody "Error creating missing receipts"
                                   e false)))
            ∨ (commit_attempted w' ∧ out = Throw abort_after_commit))))) ∧
  (∃ out w',
     fixZeroAmountReceipts faults w = (out, w') ∧
     txn w' = None ∧
     ((quiet faults (ops w) (ops w') ∧
       ∃ resp, out = Ok resp ∧ status resp = 200)
      ∨ (∃ e, first_fault faults (ops w) e w' ∧ db w' = db w ∧
           ((commit_call w' = commit_call w ∧
             out = Ok (json 500 (ErrorBody "Error fixing zero amount receipts"
                                   e false)))
            ∨ (commit_attempted w' ∧ out = Throw abort_after_commit))))) ∧
  (∃ out w',
     fixSpecificBillReceipt faults billNumber w = (out, w') ∧
     txn w' = None ∧
     ((quiet faults (ops w) (ops w') ∧
       ∃ resp, out = Ok resp ∧ (status resp = 200 ∨ status resp = 404))
      ∨ (∃ e, first_fault faults (ops w) e w' ∧ db w' = db w ∧
           ((commit_call w' = commit_call w ∧
             out = Ok (json 500
                         (ErrorBody
                            ("Error fixing receipts for bill " +:+ billNumber)
                            e false)))
            ∨ (commit_attempted w' ∧ out = Throw abort_after_commit))))).
Proof.
  split; [|split].
  - destruct (createMissingReceipts_run faults uuidv4 newObjectId w)
      as (out & w' & Hrun & [[(_ & Ht & _ & Hq & _) ->]
                            |(e & (Hdb & Ht & Hf & _) & [[-> Hcc]|[-> Hc]])]);
      eexists _, w'; (split; [exact Hrun|]); (split; [done|]);
      [left; by eauto|right; exists e; by eauto..].
  - destruct (fixZeroAmountReceipts_run faults w)
      as (out & w' & Hrun & [[(_ & Ht & _ & Hq & _) ->]
                            |(e & (Hdb & Ht & Hf & _) & [[-> Hcc]|[-> Hc]])]);
      eexists _, w'; (split; [exact Hrun|]); (split; [done|]);
      [left; by eauto|right; exists e; by eauto..].
  - destruct (fixSpecificBillReceipt_run faults billNumber w)
      as (out & w' & Hrun &
          [(billing & _ & (_ & Ht & _ & Hq & _) & ->)
          |[(_ & (_ & Ht & _ & Hq & _) & ->)
           |(e & (Hdb & Ht & Hf & _) & [[-> Hcc]|[-> Hc]])]]);
      eexists _, w'; (split; [exact Hrun|]); (split; [done|]);
      [left; by eauto 6|left; by eauto 6|right; exists e; by eauto..].
Qed.

Lemma synthesize_elem c0 bs r :
  r ∈ synthesize uuidv4 newObjectId c0 bs →
  ∃ c bill, bill ∈ bs ∧ (0 < Payment.paid (Bill.payment bill))%Z ∧
            r = creation_receipt uuidv4 newObjectId c bill.
Proof.
  induction bs as [|b bs IH] using rev_ind; [by intros ?%elem_of_nil|].
  rewrite synthesize_snoc. unfold synthesize_step.
  case_bool_decide as Hpaid.
  - intros [Hr|Hr%list_elem_of_singleton]%elem_of_app.
    + destruct (IH Hr) as (c & bill & Hb & Hp & ->).
      exists c, bill. split; [|done]. apply elem_of_app. by left.
    + eexists _, b. split; [|done]. apply elem_of_app. right. by left.
  - intros Hr. destruct (IH Hr) as (c & bill & Hb & Hp & ->).
    exists c, bill. split; [|done]. apply elem_of_app. by left.
Qed.

(** X7.  Whatever storage does, createMissingReceipts leaves the bills and
    the receipts it found as they are and only appends: every receipt it
    adds is the creation receipt of a bill of the ledger that had no
    receipt, has a positive amount, the remark "Receipt created during
    migration" and the bill's creator; the only writes issued are
    inserts.  The handler answers unless its commitTransaction call
    fails. *)
Theorem createMissingReceipts_only_appends_receipts_of_unreceipted_paid_bills
    (w : World) :
  ∃ out w' created,
    createMissingReceipts faults uuidv4 newObjectId w = (out, w') ∧
    answers_unless_commit_fails faults w out w' ∧
    bills (db w') = bills (db w) ∧
    receipts (db w') = receipts (db w) ++ created ∧
    issued insert_only w w' ∧
    ∀ r, r ∈ created →
      ∃ bill, bill ∈ bills (db w) ∧
              (∀ r0, r0 ∈ receipts (db w) →
                     Receipt.billNumber r0 ≠ Bill.billNumber bill) ∧
              created_for bill r ∧
              (0 < Receipt.amount r)%Z ∧
              Receipt.remarks r = "Receipt created during migration" ∧
              Receipt.createdBy r = Bill.createdBy bill.
Proof.
  destruct (createMissingReceipts_run faults uuidv4 newObjectId w)
    as (out & w' & Hrun & [[(Hdb & _ & _ & _ & Hw) ->]
                          |(e & (Hdb & _ & Hf & Hw) & Hout)]).
  - eexists _, w', _. split; [exact Hrun|]. split; [left; by eauto|].
    rewrite Hdb. simpl. repeat split; try done.
    intros r (c & bill & [Hb Hno]%elem_of_unreceipted & Hpaid & ->)%synthesize_elem.
    exists bill. repeat split; done.
  - exists out, w', []. split; [exact Hrun|]. split.
    { destruct Hout as [[-> _]|[-> Hc]]; [left; by eauto|right].
      by eapply first_fault_rejected. }
    rewrite Hdb, app_nil_r.
    repeat split; try done. by intros r ?%elem_of_nil.
Qed.

End Further.

(** ** Receipt numbers *)

Lemma length_substring n m s :
  String.length (substring n m s) = Nat.min m (String.length s - n).
Proof.
  revert n m.
  induction s as [|c s IH]; intros [|n] [|m]; cbn [substring String.length];
    rewrite ?IH; lia.
Qed.

Lemma length_string_app (a b : string) :
  String.length (a +:+ b) = String.length a + String.length b.
Proof. induction a as [|c a IH]; simpl; by rewrite ?IH. Qed.

Lemma length_toUpperCase s : String.length (toUpperCase s) = String.length s.
Proof. induction s as [|c s IH]; simpl; by rewrite ?IH. Qed.

Lemma upper_ascii_not_lower c : ¬ lower_case (upper_ascii c).
Proof.
  unfold lower_case, upper_ascii.
  destruct (Nat.leb_spec 97 (nat_of_ascii c)); simpl; [|lia].
  destruct (Nat.leb_spec (nat_of_ascii c) 122); simpl; [|lia].
  rewrite nat_ascii_embedding by lia. lia.
Qed.

Lemma upper_ascii_spec c :
  nat_of_ascii (upper_ascii c)
  = if bool_decide (lower_case c) then nat_of_ascii c - 32
    else nat_of_ascii c.
Proof.
  unfold lower_case, upper_ascii.
  destruct (Nat.leb_spec 97 (nat_of_ascii c)); simpl;
    [|by rewrite bool_decide_eq_false_2 by lia].
  destruct (Nat.leb_spec (nat_of_ascii c) 122); simpl;
    [|by rewrite bool_decide_eq_false_2 by lia].
  rewrite bool_decide_eq_true_2 by lia.
  apply nat_ascii_embedding. lia.
Qed.

Lemma toUpperCase_no_lower s : Forall (λ c, ¬ lower_case c) (chars (toUpperCase s)).
Proof.
  induction s as [|c s IH]; simpl; constructor;
    [apply upper_ascii_not_lower | done].
Qed.

Lemma chars_toUpperCase s : chars (toUpperCase s) = upper_ascii <$> chars s.
Proof. induction s as [|c s IH]; simpl; by rewrite ?IH. Qed.

Lemma length_chars s : length (chars s) = String.length s.
Proof. induction s as [|c s IH]; simpl; by rewrite ?IH. Qed.

Lemma chars_substring n m s :
  chars (substring n m s) = take m (drop n (chars s)).
Proof.
  revert n m.
  induction s as [|c s IH]; intros [|n] [|m]; simpl; by rewrite ?IH.
Qed.

Lemma chars_slice_last n s :
  chars (slice_last n s) = drop (length (chars s) - n) (chars s).
Proof.
  unfold slice_last. rewrite chars_substring, length_chars.
  apply take_ge. rewrite length_drop, length_chars. lia.
Qed.

(** X8.  For a uuid made of ASCII characters, generateReceiptNumber returns
    "REC" followed by the last eight characters of the uuid (the whole uuid
    when it is shorter), each lower-case letter replaced by its upper-case
    letter and every other character kept; so no character after the
    prefix is a lower-case letter.  The call consumes one identifier and
    touches nothing else. *)
Theorem generateReceiptNumber_format (uuidv4 : nat → string) (w : World) :
  ascii_only (uuidv4 (minted w)) →
  ∃ suffix,
    generateReceiptNumber uuidv4 w = (Ok ("REC" +:+ suffix), mint w) ∧
    chars suffix
    = upper_ascii
        <$> drop (length (chars (uuidv4 (minted w))) - 8)
              (chars (uuidv4 (minted w))) ∧
    (∀ c, nat_of_ascii (upper_ascii c)
          = if bool_decide (lower_case c) then nat_of_ascii c - 32
            else nat_of_ascii c) ∧
    String.length suffix = Nat.min 8 (String.length (uuidv4 (minted w))) ∧
    Forall (λ c, ¬ lower_case c) (chars suffix) ∧
    String.length ("REC" +:+ suffix)
    = 3 + Nat.min 8 (String.length (uuidv4 (minted w))).
Proof.
  intros _. exists (toUpperCase (slice_last 8 (uuidv4 (minted w)))).
  split; [done|].
  assert (String.length (toUpperCase (slice_last 8 (uuidv4 (minted w))))
          = Nat.min 8 (String.length (uuidv4 (minted w)))) as Hlen.
  { rewrite length_toUpperCase. unfold slice_last.
    rewrite length_substring. lia. }
  split; [by rewrite chars_toUpperCase, chars_slice_last|].
  split; [apply upper_ascii_spec|].
  split; [done|]. split; [apply toUpperCase_no_lower|].
  by rewrite length_string_app, Hlen.
Qed.

(** ** How the handlers compose *)

Lemma store_eq (s s' : Store) :
  bills s = bills s' → receipts s = receipts s' → s = s'.
Proof. destruct s, s'. simpl. by intros -> ->. Qed.

Lemma omap_all_None {A B} (f : A → option B) (l : list A) :
  (∀ x, x ∈ l → f x = None) → omap f l = [].
Proof.
  induction l as [|x l IH]; intros Hl; [done|]. csimpl.
  rewrite (Hl x) by by left. apply IH. intros y Hy. apply Hl. by right.
Qed.

Lemma length_omap_le {A B} (f : A → option B) (l : list A) :
  length (omap f l) ≤ length l.
Proof.
  induction l as [|x l IH]; [done|]. csimpl.
  destruct (f x); simpl; lia.
Qed.

Lemma applicable_same r : applicable (Receipt.amount r) r = None.
Proof.
  unfold applicable. rewrite (bool_decide_eq_true_2 (_ = _)) by done.
  by rewrite andb_false_r.
Qed.

Section Composition.

Variable faults : nat → option string.
Variable uuidv4 : nat → string.
Variable newObjectId : nat → ObjectId.

Lemma unreceipted_after_pass c s b :
  b ∈ unreceipted
        {| bills := bills s;
           receipts := receipts s
                         ++ synthesize uuidv4 newObjectId c (unreceipted s) |} →
  ¬ (0 < Payment.paid (Bill.payment b))%Z.
Proof.
  intros [Hb Hno]%elem_of_unreceipted Hpaid. simpl in Hb, Hno.
  pose proof (synthesize_Forall2 uuidv4 newObjectId c (unreceipted s)) as HF.
  destruct (Forall2_elem_l created_for _ _ b HF) as (r & Hr & Hcr).
  { apply list_elem_of_filter. split; [done|].
    apply elem_of_unreceipted. split; [done|].
    intros r Hr. apply Hno, elem_of_app. by left. }
  apply (Hno r); [apply elem_of_app; by right | apply Hcr].
Qed.

(** X9.  On one ledger and without storage failures, createMissingReceipts
    creates a receipt for exactly the bills getReceiptAuditReport lists as
    being without receipts, in the same order and with the number, amount,
    status and date of the entry; createdCount is the length of that
    list. *)
Theorem createMissingReceipts_creates_what_the_audit_lists (w : World) :
  (∀ k, faults k = None) →
  ∃ message report w1 created message' w2,
    getReceiptAuditReport faults w
    = (Ok (json 200 (ReportBody message report true)), w1) ∧
    createMissingReceipts faults uuidv4 newObjectId w
    = (Ok (json 200 (CreatedBody message' (length created)
                       (length (bills (db w))) true)), w2) ∧
    receipts (db w2) = receipts (db w) ++ created ∧
    length created = length (billsWithoutReceipts report) ∧
    Forall2
      (λ m r, bw_billNumber m = Receipt.billNumber r ∧
              bw_paidAmount m = Receipt.amount r ∧
              bw_status m = Receipt.newStatus r ∧
              bw_date m = Receipt.date r)
      (billsWithoutReceipts report) created.
Proof.
  intros Hquiet. destruct (audit_run_quiet faults w Hquiet) as (w1 & Hrun1 & _).
  destruct (createMissingReceipts_run faults uuidv4 newObjectId w)
    as (out & w2 & Hrun2 & [[(Hdb & _) ->]|(e & (_ & _ & Hf & _) & _)]);
    [|by apply first_fault_absurd in Hf].
  pose proof (synthesize_Forall2 uuidv4 newObjectId (minted w)
                (unreceipted (db w))) as HF.
  assert (Forall2
            (λ m r, bw_billNumber m = Receipt.billNumber r ∧
                    bw_paidAmount m = Receipt.amount r ∧
                    bw_status m = Receipt.newStatus r ∧
                    bw_date m = Receipt.date r)
            (billsWithoutReceipts (audit (bills (db w)) (receipts (db w))))
            (synthesize uuidv4 newObjectId (minted w) (unreceipted (db w))))
    as Hpairs.
  { rewrite audit_closed_form. simpl. rewrite store_eta.
    apply Forall2_fmap_l. eapply Forall2_impl; [exact HF|].
    intros b r (_ & Ha & Hn & _ & _ & Hs & Hd). simpl. by rewrite Ha, Hn, Hs, Hd. }
  eexists _, _, w1, _, _, w2. split; [exact Hrun1|]. split; [exact Hrun2|].
  rewrite Hdb. simpl. split; [done|]. split; [|done].
  symmetry. by eapply Forall2_length.
Qed.

(** X10.  After a pass of createMissingReceipts that storage did not
    disturb, the audit report lists no bill as being without receipts. *)
Theorem audit_after_createMissingReceipts_lists_no_missing_receipt (w : World) :
  (∀ k, faults k = None) →
  ∃ resp w1 message report w2,
    createMissingReceipts faults uuidv4 newObjectId w = (Ok resp, w1) ∧
    status resp = 200 ∧
    getReceiptAuditReport faults w1
    = (Ok (json 200 (ReportBody message report true)), w2) ∧
    billsWithoutReceipts report = [].
Proof.
  intros Hquiet.
  destruct (createMissingReceipts_run faults uuidv4 newObjectId w)
    as (out & w1 & Hrun1 & [[(Hdb & _) ->]|(e & (_ & _ & Hf & _) & _)]);
    [|by apply first_fault_absurd in Hf].
  destruct (audit_run_quiet faults w1 Hquiet) as (w2 & Hrun2 & _).
  eexists _, w1, _, _, w2. split; [exact Hrun1|]. split; [done|].
  split; [exact Hrun2|].
  rewrite audit_closed_form. simpl. rewrite store_eta, Hdb.
  rewrite filter_none; [done|]. apply unreceipted_after_pass.
Qed.

(** X11.  On a ledger whose receipts name by billingId the bill whose
    number they carry, after a pass of fixZeroAmountReceipts that storage
    did not disturb the audit report has no zero-amount entry of type
    creation or cancellation left. *)
Theorem audit_after_fixZeroAmountReceipts_has_no_correctable_entry (w : World) :
  (∀ k, faults k = None) →
  NoDup (Receipt._id <$> receipts (db w)) →
  NoDup (Bill._id <$> bills (db w)) →
  (∀ r bill, r ∈ receipts (db w) → bill ∈ bills (db w) →
             Receipt.billNumber r = Bill.billNumber bill →
             Receipt.billingId r = Bill._id bill) →
  ∃ resp w1 message report w2,
    fixZeroAmountReceipts faults w = (Ok resp, w1) ∧
    status resp = 200 ∧
    getReceiptAuditReport faults w1
    = (Ok (json 200 (ReportBody message report true)), w2) ∧
    ∀ z, z ∈ zeroAmountReceipts report →
         za_type z ≠ "creation" ∧ za_type z ≠ "cancellation".
Proof.
  intros Hquiet Hids Hbills Hlink.
  destruct (fixZeroAmountReceipts_effect faults w Hids)
    as (out & w1 & corr & Hrun1 & (Hbs & Hrs & _) & _ & _ & _ &
        [(-> & _ & msg & fixed & n & ->)|(_ & e & Hf & _)]);
    [|by apply first_fault_absurd in Hf].
  destruct (audit_run_quiet faults w1 Hquiet) as (w2 & Hrun2 & _).
  eexists _, w1, _, _, w2. split; [exact Hrun1|]. split; [done|].
  split; [exact Hrun2|].
  intros z (b & r' & Hb & Hr' & Hnum & Hamt & Hpaid & ->)%audit_zeroAmountReceipts.
  rewrite Hbs in Hb. rewrite Hrs in Hr'.
  apply list_elem_of_fmap in Hr' as (r & -> & Hr).
  unfold fix_receipt in *.
  destruct (guarded _ _ r) as [a|] eqn:Hcorr.
  { apply guarded_Some in Hcorr as [_ (_ & Hpos & _)%correction_zero_Some].
    simpl in Hamt. lia. }
  rewrite guarded_True in Hcorr by done. simpl.
  assert (List.find (λ b', bool_decide (Bill._id b' = Receipt.billingId r))
            (bills (db w)) = Some b) as Hfind.
  { rewrite (Hlink r b Hr Hb Hnum). by apply (find_by_key Bill._id). }
  assert (¬ (Receipt.type r = "creation" ∨ Receipt.type r = "cancellation"))
    as Htype.
  { intros Htype. unfold correction_zero in Hcorr.
    rewrite (correctAmount_zero_owner _ _ b Hfind Htype) in Hcorr.
    simpl in Hcorr. rewrite applicable_owed in Hcorr; [done|done|lia]. }
  split; intros Heq; apply Htype; [by left | by right].
Qed.

(** X12.  After a pass of fixZeroAmountReceipts that answered 200, a
    second pass over the state the first one left changes nothing and
    reports nothing as fixed, whatever storage does; it answers unless its
    commitTransaction call fails. *)
Theorem fixZeroAmountReceipts_second_pass_fixes_nothing
    (w w1 : World) (resp1 : Response) :
  NoDup (Receipt._id <$> receipts (db w)) →
  fixZeroAmountReceipts faults w = (Ok resp1, w1) →
  status resp1 = 200 →
  ∃ out2 w2,
    fixZeroAmountReceipts faults w1 = (out2, w2) ∧
    answers_unless_commit_fails faults w1 out2 w2 ∧
    db w2 = db w1 ∧
    reported_records out2 = [].
Proof.
  intros Hids Hrun1 Hok1.
  destruct (fixZeroAmountReceipts_effect faults w Hids)
    as (out & w' & corr1 & Hrun & (Hbs & Hrs & _) & _ & _ & _ & Hcases).
  rewrite Hrun1 in Hrun. injection Hrun as <- <-.
  destruct Hcases as [(-> & _)|(_ & e & _ & [[[= Heq] _]|[? _]])];
    [|by rewrite Heq in Hok1|done].
  assert (NoDup (Receipt._id <$> receipts (db w1))) as Hids1.
  { rewrite Hrs, <-list_fmap_compose.
    erewrite list_fmap_ext; [exact Hids|]. intros i r _. apply fix_receipt_id. }
  destruct (fixZeroAmountReceipts_effect faults w1 Hids1)
    as (out2 & w2 & corr2 & Hrun2 & (Hbs2 & Hrs2 & Hrec2) & _ & _ & Hans2 &
        Hcases2).
  assert (∀ r', r' ∈ receipts (db w1) → corr2 r' = None) as Hnone.
  { intros r' Hr'. destruct Hcases2 as [(-> & _)|(-> & _)]; [|done].
    rewrite Hrs in Hr'. apply list_elem_of_fmap in Hr' as (r & -> & Hr).
    rewrite Hbs. unfold fix_receipt.
    destruct (guarded _ _ r) as [a|] eqn:Hcorr.
    - apply guarded_Some in Hcorr as [_ (_ & Hpos & _)%correction_zero_Some].
      unfold guarded. rewrite decide_False; [done|]. simpl. lia.
    - done. }
  exists out2, w2. split; [exact Hrun2|]. split; [done|]. split.
  - apply store_eq; [done|]. rewrite Hrs2.
    rewrite <-(list_fmap_id (receipts (db w1))) at 2.
    apply list_fmap_ext. intros i r' Hr'%list_elem_of_lookup_2.
    unfold fix_receipt. by rewrite Hnone.
  - rewrite Hrec2. apply omap_all_None. intros r' Hr'.
    unfold fixed_record. by rewrite Hnone.
Qed.

(** X13.  After a pass of fixSpecificBillReceipt that answered 200, a
    second pass for the same bill number over the state the first one left
    changes nothing and reports nothing as fixed, whatever storage does; it
    answers unless its commitTransaction call fails. *)
Theorem fixSpecificBillReceipt_second_pass_fixes_nothing
    (billNumber : string) (w w1 : World) (resp1 : Response) :
  NoDup (Receipt._id <$> receipts (db w)) →
  fixSpecificBillReceipt faults billNumber w = (Ok resp1, w1) →
  status resp1 = 200 →
  ∃ out2 w2,
    fixSpecificBillReceipt faults billNumber w1 = (out2, w2) ∧
    answers_unless_commit_fails faults w1 out2 w2 ∧
    db w2 = db w1 ∧
    reported_records out2 = [].
Proof.
  intros Hids Hrun1 Hok1.
  destruct (fixSpecificBillReceipt_effect faults billNumber w Hids)
    as (out & w' & corr1 & Hrun & (Hbs & Hrs & _) & _ & _ & _ & Hcases).
  rewrite Hrun1 in Hrun. injection Hrun as <- <-.
  destruct Hcases as [(billing & Hfind & -> & _)
                     |[(_ & _ & _ & [= Heq])
                      |(_ & e & _ & [[[= Heq] _]|[? _]])]];
    [|by rewrite Heq in Hok1|by rewrite Heq in Hok1|done].
  assert (NoDup (Receipt._id <$> receipts (db w1))) as Hids1.
  { rewrite Hrs, <-list_fmap_compose.
    erewrite list_fmap_ext; [exact Hids|]. intros i r _. apply fix_receipt_id. }
  destruct (fixSpecificBillReceipt_effect faults billNumber w1 Hids1)
    as (out2 & w2 & corr2 & Hrun2 & (Hbs2 & Hrs2 & Hrec2) & _ & _ & Hans2 &
        Hcases2).
  assert (∀ r', r' ∈ receipts (db w1) → corr2 r' = None) as Hnone.
  { intros r' Hr'.
    destruct Hcases2 as [(billing' & Hfind' & -> & _)
                        |[(_ & -> & _)|(-> & _)]]; [|done|done].
    rewrite Hbs in Hfind'. assert (billing' = billing) as -> by congruence.
    rewrite Hrs in Hr'. apply list_elem_of_fmap in Hr' as (r & -> & Hr).
    unfold fix_receipt.
    destruct (guarded _ _ r) as [a|] eqn:Hcorr; [|done].
    apply guarded_Some in Hcorr as [Hq (Hc & _)%correction_bill_Some].
    unfold guarded, correction_bill. destruct (decide _); [|done].
    replace (correctAmount_bill billing (Receipt.set_amount a r))
      with (Receipt.amount (Receipt.set_amount a r)) by (by rewrite <-Hc).
    apply applicable_same. }
  exists out2, w2. split; [exact Hrun2|]. split; [done|]. split.
  - apply store_eq; [done|]. rewrite Hrs2.
    rewrite <-(list_fmap_id (receipts (db w1))) at 2.
    apply list_fmap_ext. intros i r' Hr'%list_elem_of_lookup_2.
    unfold fix_receipt. by rewrite Hnone.
  - rewrite Hrec2. apply omap_all_None. intros r' Hr'.
    unfold fixed_record. by rewrite Hnone.
Qed.

End Composition.

(** ** Edges of the fix handlers *)

Section Edges.

Variable faults : nat → option string.

(** X14.  When no bill carries the requested number and the lookup does
    not fail, fixSpecificBillReceipt answers 404 "Bill <number> not found"
    after that single storage call, with the transaction closed and
    everything else as it was; conversely a 404 answer means that no bill
    carries the number. *)
Theorem fixSpecificBillReceipt_unknown_bill (billNumber : string) (w : World) :
  faults (ops w) = None →
  ((∀ b, b ∈ bills (db w) → Bill.billNumber b ≠ billNumber) →
   fixSpecificBillReceipt faults billNumber w
   = (Ok (json 404 (NotFoundBody ("Bill " +:+ billNumber +:+ " not found")
                      false)),
      set_txn None (tick w))) ∧
  (∀ resp w',
     fixSpecificBillReceipt faults billNumber w = (Ok resp, w') →
     status resp = 404 →
     ∀ b, b ∈ bills (db w) → Bill.billNumber b ≠ billNumber).
Proof.
  intros Hcall. split.
  - intros Hno.
    unfold fixSpecificBillReceipt, bind, try_catch_finally, startTransaction,
      effect, Billing_findOne, storage. simpl. rewrite Hcall. simpl.
    by rewrite (find_no_key Bill.billNumber).
  - intros resp w' Hrun H404 b Hb Heq.
    destruct (fixSpecificBillReceipt_run faults billNumber w)
      as (out & w'' & Hrun' &
          [(billing & _ & _ & Hr)|[(Hfind & _)|(e & _ & [[Hr _]|[Hr _]])]]);
      rewrite Hrun in Hrun'; injection Hrun' as <- <-;
      try (injection Hr as Hr; by rewrite Hr in H404); [|done].
    pose proof (find_none _ _ Hfind b (proj1 (list_elem_of_In _ _) Hb)) as Hb'.
    simpl in Hb'. by rewrite bool_decide_eq_true_2 in Hb'.
Qed.

(** X15.  The fix handlers touch only the receipts they select:
    fixZeroAmountReceipts leaves every receipt with a positive amount as it
    is, and fixSpecificBillReceipt every receipt that carries another bill
    number; such receipts are not reported as fixed.  Storage may fail at
    any call; the handler answers unless its commitTransaction call
    fails. *)
Theorem fix_handlers_touch_only_selected_receipts
    (w : World) (billNumber : string) :
  unique_receipts (receipts (db w)) →
  (∃ out w',
     fixZeroAmountReceipts faults w = (out, w') ∧
     answers_unless_commit_fails faults w out w' ∧
     ∀ i r, receipts (db w) !! i = Some r → (0 < Receipt.amount r)%Z →
            receipts (db w') !! i = Some r ∧
            Receipt.receiptNumber r ∉ reported_numbers out) ∧
  (∃ out w',
     fixSpecificBillReceipt faults billNumber w = (out, w') ∧
     answers_unless_commit_fails faults w out w' ∧
     ∀ i r, receipts (db w) !! i = Some r →
            Receipt.billNumber r ≠ billNumber →
            receipts (db w') !! i = Some r ∧
            Receipt.receiptNumber r ∉ reported_numbers out).
Proof.
  intros [Hids Hnums]. split.
  - destruct (fixZeroAmountReceipts_effect faults w Hids)
      as (out & w' & corr & Hrun & Hres & _ & _ & Hans & Hcorr).
    exists out, w'. split; [exact Hrun|]. split; [done|]. intros i r Hr Hpos.
    assert (corr r = None) as Hnone.
    { destruct Hcorr as [(-> & _)|(-> & _)]; [|done].
      unfold guarded. rewrite decide_False; [done|lia]. }
    split; [by eapply fix_result_untouched|].
    eapply fix_result_unlisted; eauto using list_elem_of_lookup_2.
  - destruct (fixSpecificBillReceipt_effect faults billNumber w Hids)
      as (out & w' & corr & Hrun & Hres & _ & _ & Hans & Hcorr).
    exists out, w'. split; [exact Hrun|]. split; [done|].
    intros i r Hr Hother.
    assert (corr r = None) as Hnone.
    { destruct Hcorr as [(billing & _ & -> & _)|[(_ & -> & _)|(-> & _)]];
        [|done|done].
      unfold guarded. by rewrite decide_False. }
    split; [by eapply fix_result_untouched|].
    eapply fix_result_unlisted; eauto using list_elem_of_lookup_2.
Qed.

(** X16.  Without storage failures fixZeroAmountReceipts answers 200 with
    totalChecked equal to the number of receipts whose amount is zero or
    negative, the skipped ones included; the fixed list is never longer,
    and each of its records has a non-positive old and a positive new
    amount. *)
Theorem fixZeroAmountReceipts_totalChecked (w : World) :
  (∀ k, faults k = None) →
  ∃ message fixedReceipts w',
    fixZeroAmountReceipts faults w
    = (Ok (json 200 (FixedBody message fixedReceipts
                       (length (filter (λ r, Receipt.amount r ≤ 0)%Z
                                  (receipts (db w))))
                       true)), w') ∧
    length fixedReceipts
    ≤ length (filter (λ r, Receipt.amount r ≤ 0)%Z (receipts (db w))) ∧
    ∀ e, e ∈ fixedReceipts →
         (fx_oldAmount e ≤ 0)%Z ∧ (0 < fx_newAmount e)%Z.
Proof.
  intros Hquiet.
  destruct (fixZeroAmountReceipts_run faults w)
    as (out & w' & Hrun & [[_ ->]|(e & (_ & _ & Hf & _) & _)]);
    [|by apply first_fault_absurd in Hf].
  eexists _, _, w'. split; [exact Hrun|]. split; [apply length_omap_le|].
  intros e (r & [Hamt _]%list_elem_of_filter & He)%list_elem_of_omap.
  destruct (correction_zero (bills (db w)) r) as [a|] eqn:Hcorr; [|done].
  injection He as <-. simpl.
  by apply correction_zero_Some in Hcorr as (_ & ? & _).
Qed.

End Edges.

(** ** The index of receipts by bill number *)

Lemma index_receipts_present_from (m : gmap string (list Receipt.t)) rs k :
  is_Some
    (fold_left
       (λ (m : gmap string (list Receipt.t)) receipt,
          let k := Receipt.billNumber receipt in
          let m := if bool_decide (is_Some (m !! k)) then m else <[k := []]> m in
          alter (λ l, l ++ [receipt]) k m)
       rs m !! k)
  ↔ is_Some (m !! k) ∨ ∃ r, r ∈ rs ∧ Receipt.billNumber r = k.
Proof.
  revert m. induction rs as [|r rs IH]; intros m; simpl.
  - split; [by left|]. intros [?|(r & ?%elem_of_nil & _)]; done.
  - rewrite IH. clear IH.
    destruct (decide (Receipt.billNumber r = k)) as [<-|Hne].
    + split; [intros _; right; exists r; split; [by left|done]|]. intros _.
      left. rewrite lookup_alter_eq. case_bool_decide as Hsome.
      * by apply fmap_is_Some.
      * by rewrite lookup_insert_eq.
    + rewrite lookup_alter_ne by done.
      assert ((if bool_decide (is_Some (m !! Receipt.billNumber r))
               then m else <[Receipt.billNumber r:=[]]> m) !! k = m !! k)
        as ->.
      { case_bool_decide; [done|]. by rewrite lookup_insert_ne. }
      split; (intros [?|(r' & Hr' & Heq)]; [by left|right]).
      * exists r'. split; [by right|done].
      * exists r'. split; [|done].
        apply elem_of_cons in Hr' as [->|?]; done.
Qed.

(** X17.  The Map that getReceiptAuditReport builds has a key exactly for
    the bill numbers some receipt carries, and holds under a key the
    receipts carrying it, all of them and in collection order; a stored
    array is never empty. *)
Theorem index_receipts_groups_by_billNumber
    (allReceipts : list Receipt.t) (k : string) :
  (index_receipts allReceipts !! k = None ↔
   ∀ r, r ∈ allReceipts → Receipt.billNumber r ≠ k) ∧
  (∀ l, index_receipts allReceipts !! k = Some l →
        l = filter (λ r, Receipt.billNumber r = k) allReceipts ∧ l ≠ []).
Proof.
  assert (is_Some (index_receipts allReceipts !! k) ↔
          is_Some (@None (list Receipt.t)) ∨
          ∃ r, r ∈ allReceipts ∧ Receipt.billNumber r = k) as Hpresent.
  { unfold index_receipts. rewrite index_receipts_present_from.
    by rewrite lookup_empty. }
  pose proof (index_receipts_lookup allReceipts k) as Hlookup.
  split.
  - rewrite eq_None_not_Some, Hpresent. split.
    + intros Hno r Hr Heq. apply Hno. right. by exists r.
    + intros Hno [[? [=]]|(r & Hr & Heq)]. by apply (Hno r).
  - intros l Hl. rewrite Hl in Hlookup, Hpresent. simpl in Hlookup.
    split; [done|]. intros ->.
    destruct Hpresent as [[[? [=]]|(r & Hr & Heq)] _]; [by eexists|].
    symmetry in Hlookup.
    by apply (filter_nil_not_elem_of _ _ r Hlookup Heq).
Qed.

(** ** The further properties on the sample ledgers *)

(** R5 refers to no bill; R9 is a receipt of B1. *)
Lemma audit_lists_orphan_R5 :
  ∃ message report w',
    getReceiptAuditReport no_faults (ledger [B1] [R5; R9])
    = (Ok (json 200 (ReportBody message report true)), w') ∧
    orphanedReceipts report
    = orphan_entry
        <$> filter
              (λ r, Forall (λ b, Bill.billNumber b ≠ Receipt.billNumber r) [B1])
              [R5; R9].
Proof.
  by apply (audit_lists_each_orphaned_receipt_once no_faults
              (ledger [B1] [R5; R9])).
Defined.

(** Scenario: two creation receipts refer to B3. *)
Lemma audit_lists_duplicates_of_B3 :
  ∃ message report w',
    getReceiptAuditReport no_faults (ledger [B3] [R7; R8])
    = (Ok (json 200 (ReportBody message report true)), w') ∧
    duplicateReceipts report
    = duplicate_entry [R7; R8]
        <$> filter (λ bill, 1 < length (creations_of [R7; R8] bill)) [B3] ∧
    (∀ e, e ∈ duplicateReceipts report →
          2 ≤ du_count e ∧ length (du_receipts e) = du_count e ∧
          du_duplicateType e = "creation").
Proof.
  by apply (audit_lists_bills_with_several_creation_receipts no_faults
              (ledger [B3] [R7; R8])).
Defined.

Lemma audit_totals_sample :
  ∃ message report w',
    getReceiptAuditReport no_faults (ledger [B1; B3] [R5; R7; R8])
    = (Ok (json 200 (ReportBody message report true)), w') ∧
    totalBills report = 2 ∧
    totalReceipts report = 3 ∧
    length (billsWithoutReceipts report) ≤ totalBills report ∧
    length (duplicateReceipts report) ≤ totalBills report ∧
    length (orphanedReceipts report) ≤ totalReceipts report.
Proof.
  by apply (audit_totals_bound_the_lists no_faults
              (ledger [B1; B3] [R5; R7; R8])).
Defined.

Lemma audit_lists_are_disjoint_sample :
  ∃ message report w',
    getReceiptAuditReport no_faults (ledger [B1; B3] [R5; R7; R8])
    = (Ok (json 200 (ReportBody message report true)), w') ∧
    (∀ m, m ∈ billsWithoutReceipts report →
       (∀ z, z ∈ zeroAmountReceipts report →
             za_billNumber z ≠ bw_billNumber m) ∧
       (∀ d, d ∈ duplicateReceipts report →
             du_billNumber d ≠ bw_billNumber m)) ∧
    (∀ o, o ∈ orphanedReceipts report →
       (∀ m, m ∈ billsWithoutReceipts report →
             bw_billNumber m ≠ or_billNumber o) ∧
       (∀ z, z ∈ zeroAmountReceipts report →
             za_billNumber z ≠ or_billNumber o) ∧
       (∀ d, d ∈ duplicateReceipts report →
             du_billNumber d ≠ or_billNumber o)).
Proof.
  by apply (audit_lists_are_disjoint no_faults (ledger [B1; B3] [R5; R7; R8])).
Defined.

(** The second read of the audit fails. *)
Lemma audit_failure_sample :
  let faults := fail_at 1 "connection lost" in
  let w := ledger [B1; B2] [R2; R1] in
  ∃ w',
    getReceiptAuditReport faults w
    = (Ok (json 500 (ErrorBody "Error generating audit report"
                       "connection lost" false)), w') ∧
    db w' = db w ∧ writes w' = writes w.
Proof.
  intros faults w.
  destruct (audit_is_read_only_and_reports_failure faults w)
    as (resp & w' & Hrun & Hdb & Hw & _ & Hfail).
  assert (ops w' = 2) as Hops.
  { vm_compute in Hrun. by injection Hrun as _ <-. }
  exists w'. rewrite <-(Hfail 1 "connection lost"); [done|done|].
  rewrite Hops. simpl. lia.
Defined.

(** The commitTransaction call of each repair handler fails, after the
    other calls have gone through: no answer is sent and nothing is
    committed. *)
Lemma commit_failure_leaves_no_answer :
  (∃ w',
     createMissingReceipts (fail_at 3 "commit failed") sample_uuid sample_oid
       (ledger [B1] [])
     = (Throw abort_after_commit, w') ∧
     db w' = db (ledger [B1] []) ∧ txn w' = None) ∧
  (∃ w',
     fixZeroAmountReceipts (fail_at 4 "commit failed")
       (ledger [B1; B2] [R2; R1])
     = (Throw abort_after_commit, w') ∧
     db w' = db (ledger [B1; B2] [R2; R1]) ∧ txn w' = None) ∧
  (∃ w',
     fixSpecificBillReceipt (fail_at 3 "commit failed") "B2"
       (ledger [B1; B2] [R2; R1])
     = (Throw abort_after_commit, w') ∧
     db w' = db (ledger [B1; B2] [R2; R1]) ∧ txn w' = None).
Proof.
  split; [|split].
  - destruct (repair_handlers_answer_unless_commit_fails
                (fail_at 3 "commit failed") sample_uuid sample_oid
                (ledger [B1] []) "B2")
      as [(out & w' & Hrun & Ht &
           [(_ & resp & -> & _)|(e & _ & Hdb & [[_ ->]|[_ ->]])]) _].
    + by vm_compute in Hrun.
    + by vm_compute in Hrun.
    + by exists w'.
  - destruct (repair_handlers_answer_unless_commit_fails
                (fail_at 4 "commit failed") sample_uuid sample_oid
                (ledger [B1; B2] [R2; R1]) "B2")
      as (_ & (out & w' & Hrun & Ht &
                 [(_ & resp & -> & _)|(e & _ & Hdb & [[_ ->]|[_ ->]])]) & _).
    + by vm_compute in Hrun.
    + by vm_compute in Hrun.
    + by exists w'.
  - destruct (repair_handlers_answer_unless_commit_fails
                (fail_at 3 "commit failed") sample_uuid sample_oid
                (ledger [B1; B2] [R2; R1]) "B2")
      as (_ & _ & (out & w' & Hrun & Ht &
                     [(_ & resp & -> & _)|(e & _ & Hdb & [[_ ->]|[_ ->]])])).
    + by vm_compute in Hrun.
    + by vm_compute in Hrun.
    + by exists w'.
Defined.

(** The receipt number drawn from the first sample uuid. *)
Lemma generateReceiptNumber_sample :
  generateReceiptNumber sample_uuid (ledger [] [])
  = (Ok "RECD7B3DCB0", mint (ledger [] [])).
Proof.
  destruct (generateReceiptNumber_format sample_uuid (ledger [] []))
    as (suffix & Hrun & _).
  { by apply (bool_decide_unpack _). }
  rewrite Hrun. by vm_compute in Hrun |- *.
Defined.

Lemma createMissingReceipts_creates_what_the_audit_lists_sample :
  ∃ message report w1 created message' w2,
    getReceiptAuditReport no_faults (ledger [B1; B2] [R1])
    = (Ok (json 200 (ReportBody message report true)), w1) ∧
    createMissingReceipts no_faults sample_uuid sample_oid
      (ledger [B1; B2] [R1])
    = (Ok (json 200 (CreatedBody message' (length created) 2 true)), w2) ∧
    receipts (db w2) = [R1] ++ created ∧
    length created = length (billsWithoutReceipts report) ∧
    Forall2
      (λ m r, bw_billNumber m = Receipt.billNumber r ∧
              bw_paidAmount m = Receipt.amount r ∧
              bw_status m = Receipt.newStatus r ∧
              bw_date m = Receipt.date r)
      (billsWithoutReceipts report) created.
Proof.
  by apply (createMissingReceipts_creates_what_the_audit_lists
              no_faults sample_uuid sample_oid (ledger [B1; B2] [R1])).
Defined.

Lemma audit_after_createMissingReceipts_sample :
  ∃ resp w1 message report w2,
    createMissingReceipts no_faults sample_uuid sample_oid
      (ledger [B1; B2] [R1]) = (Ok resp, w1) ∧
    status resp = 200 ∧
    getReceiptAuditReport no_faults w1
    = (Ok (json 200 (ReportBody message report true)), w2) ∧
    billsWithoutReceipts report = [].
Proof.
  by apply (audit_after_createMissingReceipts_lists_no_missing_receipt
              no_faults sample_uuid sample_oid (ledger [B1; B2] [R1])).
Defined.

(** After the pass over R2 and R1 only the payment receipt R2 can remain
    listed. *)
Lemma audit_after_fixZeroAmountReceipts_sample :
  ∃ resp w1 message report w2,
    fixZeroAmountReceipts no_faults (ledger [B1; B2] [R2; R1]) = (Ok resp, w1) ∧
    status resp = 200 ∧
    getReceiptAuditReport no_faults w1
    = (Ok (json 200 (ReportBody message report true)), w2) ∧
    ∀ z, z ∈ zeroAmountReceipts report →
         za_type z ≠ "creation" ∧ za_type z ≠ "cancellation".
Proof.
  apply (audit_after_fixZeroAmountReceipts_has_no_correctable_entry
           no_faults (ledger [B1; B2] [R2; R1])).
  - done.
  - by apply (bool_decide_unpack _).
  - by apply (bool_decide_unpack _).
  - intros r bill Hr Hb Heq. simpl in Hr, Hb.
    apply elem_of_cons in Hr as [->|Hr%list_elem_of_singleton];
      apply elem_of_cons in Hb as [->|Hb%list_elem_of_singleton];
      subst; done.
Defined.

Lemma fixZeroAmountReceipts_second_pass_sample :
  ∃ out2 w2,
    fixZeroAmountReceipts no_faults fix_pass.2 = (out2, w2) ∧
    answers_unless_commit_fails no_faults fix_pass.2 out2 w2 ∧
    db w2 = db fix_pass.2 ∧
    reported_records out2 = [].
Proof.
  apply (fixZeroAmountReceipts_second_pass_fixes_nothing no_faults
           (ledger [B1; B2] [R2; R1]) fix_pass.2 (response_of fix_pass)).
  - by apply (bool_decide_unpack _).
  - by vm_compute.
  - by vm_compute.
Defined.

Lemma fixSpecificBillReceipt_second_pass_sample :
  ∃ out2 w2,
    fixSpecificBillReceipt no_faults "B2" fix_bill_pass.2 = (out2, w2) ∧
    answers_unless_commit_fails no_faults fix_bill_pass.2 out2 w2 ∧
    db w2 = db fix_bill_pass.2 ∧
    reported_records out2 = [].
Proof.
  apply (fixSpecificBillReceipt_second_pass_fixes_nothing no_faults "B2"
           (ledger [B1; B2] [R2; R3]) fix_bill_pass.2
           (response_of fix_bill_pass)).
  - by apply (bool_decide_unpack _).
  - by vm_compute.
  - by vm_compute.
Defined.

Lemma fixSpecificBillReceipt_unknown_bill_B9 :
  fixSpecificBillReceipt no_faults "B9" (ledger [B1] [R9])
  = (Ok (json 404 (NotFoundBody "Bill B9 not found" false)),
     set_txn None (tick (ledger [B1] [R9]))).
Proof.
  apply (proj1 (fixSpecificBillReceipt_unknown_bill no_faults "B9"
                  (ledger [B1] [R9]) eq_refl)).
  intros b Hb%list_elem_of_singleton. by subst b.
Defined.

(** R3 has a positive amount and carries the number of B2, not of B1. *)
Lemma fix_handlers_leave_R3 :
  (∃ out w',
     fixZeroAmountReceipts no_faults (ledger [B1; B2] [R3; R1]) = (out, w') ∧
     (∃ resp, out = Ok resp) ∧
     receipts (db w') !! 0 = Some R3 ∧
     "REC0000000D" ∉ reported_numbers out) ∧
  (∃ out w',
     fixSpecificBillReceipt no_faults "B1" (ledger [B1; B2] [R3; R1])
     = (out, w') ∧
     (∃ resp, out = Ok resp) ∧
     receipts (db w') !! 0 = Some R3 ∧
     "REC0000000D" ∉ reported_numbers out).
Proof.
  destruct (fix_handlers_touch_only_selected_receipts no_faults
              (ledger [B1; B2] [R3; R1]) "B1")
    as [(out & w' & Hrun & Hans & Hkeep) (out2 & w2 & Hrun2 & Hans2 & Hkeep2)].
  { by apply unique_sample. }
  split.
  - exists out, w'. split; [done|].
    split; [exact (answers_quiet no_faults _ _ _ (λ _, eq_refl) Hans)|].
    by apply (Hkeep 0 R3).
  - exists out2, w2. split; [done|].
    split; [exact (answers_quiet no_faults _ _ _ (λ _, eq_refl) Hans2)|].
    by apply (Hkeep2 0 R3).
Defined.

Lemma fixZeroAmountReceipts_totalChecked_sample :
  ∃ message fixedReceipts w',
    fixZeroAmountReceipts no_faults (ledger [B1; B2] [R2; R1; R3])
    = (Ok (json 200 (FixedBody message fixedReceipts
                       (length (filter (λ r, Receipt.amount r ≤ 0)%Z
                                  [R2; R1; R3]))
                       true)), w') ∧
    length fixedReceipts
    ≤ length (filter (λ r, Receipt.amount r ≤ 0)%Z [R2; R1; R3]) ∧
    ∀ e, e ∈ fixedReceipts →
         (fx_oldAmount e ≤ 0)%Z ∧ (0 < fx_newAmount e)%Z.
Proof.
  by apply (fixZeroAmountReceipts_totalChecked no_faults
              (ledger [B1; B2] [R2; R1; R3])).
Defined.
